(** * Krippendorff's alpha (cal_score.py): a shallow embedding and its properties

    The embedding follows [cal_score.py]: the three distance metrics,
    the normaliser that turns the coders' rating groups into the
    insertion-ordered dictionary [units], the observed and the expected
    disagreement loops (on the scalar path and on the numpy path) and the
    coefficient.

    Python floats are IEEE 754 binary64 numbers: they are modelled by
    [spec_float] with the operations of [SpecFloat] at precision 53 and
    maximal exponent 1024.  The arithmetic is reached through the class
    [Numeric], so that the same program text can also be read over exact
    rationals when a statement is about the algebraic content of a sum.

    What the embedding takes from Python and numpy: the builtin [sum] adds
    from the integer 0, left to right; [np.sum] adds the elements of an
    array in index order; [x ** 2] is the square rounded to nearest, and
    raises [OverflowError] on a Python float when it is out of range; a
    Python float division raises [ZeroDivisionError] on a zero divisor,
    a numpy division does not.

    Of the driver, the reader of the group file, [get_array_group], is
    embedded on the text that [handle.read()] returns, with Python's [int]
    on strings as a parameter; the call of [krippendorff_alpha] on what it
    returns converts Python integers, and [float] of an integer too large
    raises [OverflowError]. *)

From Stdlib Require Import String ZArith Bool List Lia Permutation.
From Stdlib Require Import Floats.SpecFloat.
From Stdlib Require Import QArith Qcanon.
From Stdlib Require DecimalString.
Import ListNotations.

Set Implicit Arguments.
Local Open Scope Z_scope.

(** ** Exceptions and the result monad *)

(** The exceptions the program can end with, by origin. *)
Inductive exn : Type :=
| NoItemsToCompare            (* ValueError("No items to compare."), line 90 *)
| ZeroDivisionError           (* Python float division by zero *)
| OverflowError               (* Python float [**] out of range *)
| ConvertError                (* raised by [convert_items] *)
| MetricError (code : Z).     (* raised by a custom metric *)

Inductive result (A : Type) : Type :=
| Ok (a : A)
| Err (e : exn).

Arguments Ok {A} a.
Arguments Err {A} e.

Definition bind {A B : Type} (r : result A) (k : A -> result B) : result B :=
  match r with
  | Ok a => k a
  | Err e => Err e
  end.

Notation "x <- c ;; k" := (bind c (fun x => k))
  (at level 61, c at next level, right associativity).

(** A [for] loop whose body can raise: left to right, the first exception
    ends the loop. *)
Fixpoint for_each {A S : Type} (body : S -> A -> result S) (xs : list A) (s : S)
  : result S :=
  match xs with
  | [] => Ok s
  | x :: xs' => s' <- body s x ;; for_each body xs' s'
  end.

(** A comprehension whose elements can raise. *)
Fixpoint map_result {A B : Type} (f : A -> result B) (xs : list A)
  : result (list B) :=
  match xs with
  | [] => Ok []
  | x :: xs' => y <- f x ;; ys <- map_result f xs' ;; Ok (y :: ys)
  end.

(** ** The numeric environment *)

Class Numeric (F : Type) : Type := {
  zero : F;                       (* the literal [0.] *)
  one : F;                        (* the literal [1.] *)
  add : F -> F -> F;
  sub : F -> F -> F;
  mul : F -> F -> F;
  div : F -> F -> F;              (* the quotient when no exception is raised *)
  eqb : F -> F -> bool;           (* Python [==] *)
  of_Z : Z -> F;                  (* [float(i)] for an integer [i] *)
  overflows : F -> F -> bool      (* [overflows x r]: [r] is out of range but [x] is not *)
}.

(** *** binary64 *)

Definition float : Type := spec_float.

Definition prec : Z := 53.
Definition emax : Z := 1024.

Definition is_infinity (x : float) : bool :=
  match x with
  | S754_infinity _ => true
  | _ => false
  end.

(** [float(i)]: the integer rounded to the nearest binary64 number, ties to
    even (the lengths and counts converted here are far below the range
    where Python raises [OverflowError] instead). *)
Definition float_of_Z (i : Z) : float := binary_normalize prec emax i 0 false.

#[export] Instance binary64 : Numeric float := {
  zero := S754_zero false;
  one := float_of_Z 1;
  add := SFadd prec emax;
  sub := SFsub prec emax;
  mul := SFmul prec emax;
  div := SFdiv prec emax;
  eqb := SFeqb;
  of_Z := float_of_Z;
  overflows := fun x r => is_infinity r && negb (is_infinity x)
}.

(** *** exact rationals *)

#[export] Instance exact : Numeric Qc := {
  zero := Q2Qc 0;
  one := Q2Qc 1;
  add := Qcplus;
  sub := Qcminus;
  mul := Qcmult;
  div := Qcdiv;
  eqb := Qc_eq_bool;
  of_Z := fun i => Q2Qc (inject_Z i);
  overflows := fun _ _ => false
}.

(** The laws of exact arithmetic that floating-point addition lacks. *)
Class ExactAdd (F : Type) `{Numeric F} : Prop := {
  add_comm : forall x y : F, add x y = add y x;
  add_assoc : forall x y z : F, add x (add y z) = add (add x y) z;
  add_zero_l : forall x : F, add zero x = x;
  of_Z_0 : of_Z 0 = zero;
  of_Z_add : forall i j : Z, of_Z (i + j) = add (of_Z i) (of_Z j)
}.

Arguments ExactAdd F {_}.

(** ** Python numbers *)

(** A value a metric returns: [nominal_metric] returns a [bool], which
    [sum] adds as the integer 0 or 1; the other two return floats. *)
Inductive pynum (F : Type) : Type :=
| PInt (i : Z)
| PFloat (x : F).

Arguments PInt {F} i.
Arguments PFloat {F} x.

Section PythonNumbers.
Context {F : Type} `{Numeric F}.

(** [float(v)] *)
Definition to_float (v : pynum F) : F :=
  match v with
  | PInt i => of_Z i
  | PFloat x => x
  end.

(** [v + w]: integers stay integers, anything else is added as floats. *)
Definition py_add (v w : pynum F) : pynum F :=
  match v, w with
  | PInt i, PInt j => PInt (i + j)
  | _, _ => PFloat (add (to_float v) (to_float w))
  end.

(** The builtin [sum]: from the integer 0, left to right. *)
Definition py_sum (vs : list (pynum F)) : pynum F :=
  fold_left py_add vs (PInt 0).

(** [np.sum] of a one-dimensional array: the elements are added in index
    order, starting from the first one.  That is numpy's order for an array
    of fewer than eight elements; a longer array of floats is added in
    eight partial sums, which can change the last bit of the sum.  The
    examples below have at most four ratings per item, and no other
    statement depends on the order of the additions. *)
Definition np_sum (vs : list (pynum F)) : pynum F :=
  match vs with
  | [] => PInt 0
  | v :: vs' => fold_left py_add vs' v
  end.

(** Truth value of a float: everything but zero. *)
Definition truthy (x : F) : bool := negb (eqb x zero).

(** [a / b] on floats.  Python raises on a zero divisor; numpy scalars and
    arrays ([vec = true]) give the IEEE quotient instead. *)
Definition truediv (vec : bool) (a b : F) : result F :=
  if vec then Ok (div a b)
  else if eqb b zero then Err ZeroDivisionError
  else Ok (div a b).

(** [x ** 2] on a Python float: the square, or [OverflowError] when it is
    out of range. *)
Definition py_pow2 (x : F) : result F :=
  let r := mul x x in
  if overflows x r then Err OverflowError else Ok r.

(** [x ** 2] on a numpy array element. *)
Definition np_pow2 (x : F) : F := mul x x.
End PythonNumbers.

(** ** The distance metrics *)

(** A metric as the program uses it: called on two converted values
    ([scalar], which may raise), or on an array and a value, element by
    element ([vector]); [is_builtin] is the test
    [metric in (interval_metric, nominal_metric, ratio_metric)].
    The array reading returns: that is how numpy arithmetic on float arrays
    behaves, and so the built-in metrics.  A function of the caller's that
    raises when it is called on arrays has no counterpart here; the
    statements below that speak of exceptions are stated for the built-in
    metrics and for the pair-by-pair path. *)
Record metric_fn (V F : Type) : Type := {
  scalar : V -> V -> result (pynum F);
  vector : V -> V -> pynum F;
  is_builtin : bool
}.

Section Metrics.
Context {F : Type} `{Numeric F}.

Definition bool_to_int (b : bool) : Z := if b then 1 else 0.

(** [return a != b] *)
Definition nominal (a b : F) : pynum F := PInt (bool_to_int (negb (eqb a b))).

Definition nominal_metric : metric_fn F F := {|
  scalar := fun a b => Ok (nominal a b);
  vector := nominal;
  is_builtin := true
|}.

(** [return (a - b) ** 2] *)
Definition interval_metric : metric_fn F F := {|
  scalar := fun a b => r <- py_pow2 (sub a b) ;; Ok (PFloat r);
  vector := fun a b => PFloat (np_pow2 (sub a b));
  is_builtin := true
|}.

(** [return ((a - b) / (a + b)) ** 2] *)
Definition ratio_metric : metric_fn F F := {|
  scalar := fun a b =>
    q <- truediv false (sub a b) (add a b) ;;
    r <- py_pow2 q ;;
    Ok (PFloat r);
  vector := fun a b => PFloat (np_pow2 (div (sub a b) (add a b)));
  is_builtin := true
|}.

(** A metric of the caller's, given by its two readings. *)
Definition custom_metric {V : Type} (f : V -> V -> result (pynum F))
    (fv : V -> V -> pynum F) : metric_fn V F := {|
  scalar := f;
  vector := fv;
  is_builtin := false
|}.
End Metrics.

(** ** The rating dataset *)

(** Item identifiers: dictionary keys, or the positions [enumerate] makes. *)
Inductive item_id : Type :=
| IdInt (i : Z)
| IdStr (s : string).

Definition item_eqb (a b : item_id) : bool :=
  match a, b with
  | IdInt i, IdInt j => Z.eqb i j
  | IdStr s, IdStr t => String.eqb s t
  | _, _ => false
  end.

(** One coder's ratings: a dictionary, by its [items()] in iteration order,
    or a sequence. *)
Inductive group (Raw : Type) : Type :=
| KeyedGroup (kvs : list (item_id * Raw))
| PositionalGroup (vs : list Raw).

Arguments KeyedGroup {Raw} kvs.
Arguments PositionalGroup {Raw} vs.

Fixpoint enumerate_from {A : Type} (i : Z) (xs : list A) : list (item_id * A) :=
  match xs with
  | [] => []
  | x :: xs' => (IdInt i, x) :: enumerate_from (i + 1) xs'
  end.

Definition enumerate {A : Type} (xs : list A) : list (item_id * A) :=
  enumerate_from 0 xs.

(** [d.items()], or [enumerate(d)] when [d] has no [items]. *)
Definition diter {Raw : Type} (d : group Raw) : list (item_id * Raw) :=
  match d with
  | KeyedGroup kvs => kvs
  | PositionalGroup vs => enumerate vs
  end.

(** ** The normaliser *)

Section Normalizer.
Variables Raw V : Type.
Variable raw_eqb : Raw -> Raw -> bool.          (* Python [==] on raw values *)
Variable masked_singleton : Raw.                (* [np.ma.masked_singleton] *)
Variable convert_items : Raw -> result V.

(** The dictionary [units], in insertion order. *)
Definition units_t : Type := list (item_id * list V).

(** [maskitems]: the caller's missing items, and numpy's masked constant
    when numpy is there. *)
Definition maskitems (np : bool) (missing_items : option (list Raw)) : list Raw :=
  let maskitems := match missing_items with
                   | None => []
                   | Some ms => ms
                   end in
  if np then maskitems ++ [masked_singleton] else maskitems.

(** [g in maskitems] *)
Definition is_in (g : Raw) (ms : list Raw) : bool := existsb (raw_eqb g) ms.

(** [units[it].append(v)], with a new empty list under [it] first when
    the key is not there: a new key goes last. *)
Fixpoint units_append (units : units_t) (it : item_id) (v : V) : units_t :=
  match units with
  | [] => [(it, [v])]
  | (k, its) :: rest =>
      if item_eqb k it then (k, its ++ [v]) :: rest
      else (k, its) :: units_append rest it v
  end.

(** The body of [for it, g in diter]. *)
Definition add_rating (ms : list Raw) (units : units_t) (p : item_id * Raw)
  : result units_t :=
  let '(it, g) := p in
  if is_in g ms then Ok units
  else v <- convert_items g ;; Ok (units_append units it v).

(** The body of [for d in data]. *)
Definition add_group (ms : list Raw) (units : units_t) (d : group Raw)
  : result units_t :=
  for_each (add_rating ms) (diter d) units.

(** Lines 68-84. *)
Definition collect_units (ms : list Raw) (data : list (group Raw)) : result units_t :=
  for_each (add_group ms) data [].

(** Line 86: the units with pairable values. *)
Definition pairable (units : units_t) : units_t :=
  filter (fun p => (1 <? length (snd p))%nat) units.

(** Line 87: the number of pairable values. *)
Definition count_values (units : units_t) : nat :=
  list_sum (map (fun p => length (snd p)) units).
End Normalizer.

Arguments units_append {V} units it v.
Arguments pairable {V} units.
Arguments count_values {V} units.

(** ** Observed and expected disagreement, and the coefficient *)

Section Alpha.
Context {F : Type} `{Numeric F}.
Variable V : Type.
Variable metric : metric_fn V F.

(** [units.values()] *)
Definition values (units : units_t V) : list (list V) := map snd units.

(** Line 92: whether the numpy path is taken. *)
Definition use_np_metric (np force_vecmath : bool) : bool :=
  np && (is_builtin metric || force_vecmath).

(** [sum(metric(gi, gj) for gi in g1 for gj in g2)] (lines 100 and 115). *)
Definition pair_sum_scalar (g1 g2 : list V) : result (pynum F) :=
  for_each (fun acc gi =>
    for_each (fun acc gj =>
      d <- scalar metric gi gj ;; Ok (py_add acc d)) g2 acc) g1 (PInt 0).

(** [sum(np.sum(metric(d1, gj)) for gj in g2)] (lines 98 and 112):
    [metric(d1, gj)] is the array of the [metric(gi, gj)], [gi] in [d1]. *)
Definition pair_sum_vec (g1 g2 : list V) : pynum F :=
  fold_left (fun acc gj =>
    py_add acc (np_sum (map (fun gi => vector metric gi gj) g1))) g2 (PInt 0).

Definition pair_sum (np_metric : bool) (g1 g2 : list V) : result (pynum F) :=
  if np_metric then Ok (pair_sum_vec g1 g2) else pair_sum_scalar g1 g2.

(** [float(len(grades) - 1)] *)
Definition pairs_denominator (grades : list V) : F :=
  of_Z (Z.of_nat (length grades) - 1).

(** Lines 94-102. *)
Definition observed_disagreement (np_metric : bool) (units : units_t V) (n : nat)
  : result F :=
  Do <- for_each (fun Do grades =>
          Du <- pair_sum np_metric grades grades ;;
          q <- truediv np_metric (to_float Du) (pairs_denominator grades) ;;
          Ok (add Do q)) (values units) zero ;;
  truediv np_metric Do (of_Z (Z.of_nat n)).

(** [float(n * (n - 1))] *)
Definition expected_denominator (n : nat) : F :=
  of_Z (Z.of_nat n * (Z.of_nat n - 1)).

(** Lines 107-116. *)
Definition expected_disagreement (np_metric : bool) (units : units_t V) (n : nat)
  : result F :=
  De <- for_each (fun De g1 =>
          for_each (fun De g2 =>
            s <- pair_sum np_metric g1 g2 ;;
            Ok (add De (to_float s))) (values units) De) (values units) zero ;;
  truediv np_metric De (expected_denominator n).

(** Lines 104-105 and 118, from the two disagreements. *)
Definition coefficient (np_metric : bool) (Do : F) (De : result F) : result F :=
  if eqb Do zero then Ok one
  else
    De <- De ;;
    if truthy Do && truthy De then
      q <- truediv np_metric Do De ;; Ok (sub one q)
    else Ok one.

Section WithInput.
Variable Raw : Type.
Variable raw_eqb : Raw -> Raw -> bool.
Variable masked_singleton : Raw.
Variable np : bool.                     (* [np is not None] *)

(** Lines 56-90: the pairable units and their number of values, or the
    exception. *)
Definition pairable_units (data : list (group Raw))
    (convert_items : Raw -> result V) (missing_items : option (list Raw))
  : result (units_t V * nat) :=
  let ms := maskitems masked_singleton np missing_items in
  units <- collect_units raw_eqb convert_items ms data ;;
  let units := pairable units in
  let n := count_values units in
  if (n =? 0)%nat then Err NoItemsToCompare else Ok (units, n).

Definition krippendorff_alpha (data : list (group Raw))
    (force_vecmath : bool) (convert_items : Raw -> result V)
    (missing_items : option (list Raw)) : result F :=
  un <- pairable_units data convert_items missing_items ;;
  let '(units, n) := un in
  let np_metric := use_np_metric np force_vecmath in
  Do <- observed_disagreement np_metric units n ;;
  coefficient np_metric Do (expected_disagreement np_metric units n).
End WithInput.
End Alpha.

(** ** Raw values of the examples *)

(** Raw ratings as the driver and the examples have them: numbers, the
    marker of a missing rating (a string that is no numeral, ['*'] in the
    driver) and numpy's masked constant. *)
Inductive raw : Type :=
| RInt (i : Z)
| RFloat (x : float)
| RStr (s : string)
| RMasked.

(** [i == x] for a Python integer and a float: the comparison is exact, the
    integer is not rounded first. *)
Definition int_float_eqb (i : Z) (x : float) : bool :=
  match x with
  | S754_zero _ => i =? 0
  | S754_finite s m e =>
      if 0 <=? e then i =? cond_Zopp s (Z.pos m) * 2 ^ e
      else i * 2 ^ (- e) =? cond_Zopp s (Z.pos m)
  | _ => false
  end.

(** [a == b], as [g in maskitems] tests it.  ([in] also finds an object that
    is identical to an element, which matters for a NaN only: the same NaN
    object is found in a list although it differs from itself.  Values have
    no identity here.) *)
Definition raw_eqb (a b : raw) : bool :=
  match a, b with
  | RInt i, RInt j => Z.eqb i j
  | RInt i, RFloat x | RFloat x, RInt i => int_float_eqb i x
  | RFloat x, RFloat y => SFeqb x y
  | RStr s, RStr t => String.eqb s t
  | RMasked, RMasked => true
  | _, _ => false
  end.

(** [convert_items = float]: an integer is rounded to the nearest float, and
    one too large for a float raises [OverflowError].  The strings of the
    examples are markers, which [float] rejects; a string that is a numeral,
    which [float] would read, is not among them. *)
Definition convert_float (g : raw) : result float :=
  match g with
  | RInt i =>
      if is_infinity (float_of_Z i) then Err OverflowError else Ok (float_of_Z i)
  | RFloat x => Ok x
  | RStr _ => Err ConvertError
  | RMasked => Err ConvertError
  end.

(** The program on raw values, with the default conversion. *)
Definition alpha (np : bool) (metric : metric_fn float float)
    (data : list (group raw)) (missing_items : option (list raw)) : result float :=
  krippendorff_alpha metric raw_eqb RMasked np data false convert_float missing_items.

(** ** The disagreements as the specification words them *)

Section Specification.
Context {F : Type} `{Numeric F}.
Variable V : Type.
Variable metric : metric_fn V F.

(** Every ordered pair of a rating of [g1] and a rating of [g2]; with
    [g1 = g2] each rating is also paired with itself. *)
Definition ordered_pairs (g1 g2 : list V) : list (V * V) := list_prod g1 g2.

(** The metric on every ordered pair, called pair by pair. *)
Definition pair_terms (g1 g2 : list V) : result (list (pynum F)) :=
  map_result (fun p => scalar metric (fst p) (snd p)) (ordered_pairs g1 g2).

(** The metric on every ordered pair, one array per rating of [g2]. *)
Definition pair_columns (g1 g2 : list V) : list (list (pynum F)) :=
  map (fun gj => map (fun gi => vector metric gi gj) g1) g2.

(** The sum of the metric over the ordered pairs. *)
Definition sum_over_pairs (np_metric : bool) (g1 g2 : list V) : result (pynum F) :=
  if np_metric then Ok (py_sum (map np_sum (pair_columns g1 g2)))
  else terms <- pair_terms g1 g2 ;; Ok (py_sum terms).

(** One item's share of the observed disagreement: the sum over the
    ordered pairs of its ratings, divided by (k - 1). *)
Definition item_disagreement (np_metric : bool) (grades : list V) : result F :=
  Du <- sum_over_pairs np_metric grades grades ;;
  truediv np_metric (to_float Du) (of_Z (Z.of_nat (length grades) - 1)).

(** Do: the items' shares accumulated, the total divided by n. *)
Definition Do_spec (np_metric : bool) (units : units_t V) : result F :=
  shares <- map_result (item_disagreement np_metric) (values units) ;;
  truediv np_metric (fold_left add shares zero)
    (of_Z (Z.of_nat (count_values units))).

(** De: the sums over the ordered pairs of every item's list against every
    item's list, accumulated, the total divided by n (n - 1). *)
Definition De_spec (np_metric : bool) (units : units_t V) : result F :=
  let n := Z.of_nat (count_values units) in
  blocks <- map_result (fun gg =>
              s <- sum_over_pairs np_metric (fst gg) (snd gg) ;; Ok (to_float s))
            (list_prod (values units) (values units)) ;;
  truediv np_metric (fold_left add blocks zero) (of_Z (n * (n - 1))).

(** The coefficient from the two disagreements. *)
Definition alpha_spec (Do : F) (De : result F) : result F :=
  if eqb Do zero then Ok one
  else De <- De ;; if eqb De zero then Ok one else Ok (sub one (div Do De)).

(** The metric gives distance zero from [v] to itself. *)
Definition zero_distance (v : V) : Prop :=
  (scalar metric v v = Ok (PInt 0) \/ scalar metric v v = Ok (PFloat zero)) /\
  (vector metric v v = PInt 0 \/ vector metric v v = PFloat zero).

(** All the ratings of every item are one value, at distance zero from
    itself. *)
Definition identical_ratings (units : units_t V) : Prop :=
  Forall (fun p => exists v, Forall (eq v) (snd p) /\ zero_distance v) units.

(** Every rating list has at least two ratings. *)
Definition all_pairable (units : units_t V) : Prop :=
  Forall (fun p => (2 <= length (snd p))%nat) units.
End Specification.

(** ** The item ratings mapping as the specification words it *)

Section NormalizerSpecification.
Variables Raw V : Type.
Variable rawb : Raw -> Raw -> bool.
Variable convert_items : Raw -> result V.

(** The (item, value) pairs of all the coders, in the order in which the
    coders and their ratings are processed, the missing ones skipped. *)
Definition retained (ms : list Raw) (data : list (group Raw)) : list (item_id * Raw) :=
  filter (fun p => negb (is_in rawb (snd p) ms)) (concat (map diter data)).

(** The conversion function applied to a retained value. *)
Definition convert_rating (p : item_id * Raw) : result (item_id * V) :=
  v <- convert_items (snd p) ;; Ok (fst p, v).

(** The ratings given to item [it], in processing order. *)
Definition ratings_of (it : item_id) (ps : list (item_id * V)) : list V :=
  map snd (filter (fun p => item_eqb (fst p) it) ps).

(** The items, in the order of their first rating. *)
Definition first_keys (ps : list (item_id * V)) : list item_id :=
  fold_left (fun ks p => if existsb (item_eqb (fst p)) ks then ks else ks ++ [fst p])
    ps [].

(** The item ratings mapping of a list of converted ratings. *)
Definition ratings_mapping (ps : list (item_id * V)) : units_t V :=
  map (fun it => (it, ratings_of it ps)) (first_keys ps).

(** The accumulation of the ratings one by one, as the loop does it. *)
Definition group_ratings (ps : list (item_id * V)) : units_t V :=
  fold_left (fun units p => units_append units (fst p) (snd p)) ps [].
End NormalizerSpecification.

(** Two item ratings mappings with the same items and, per item, the same
    ratings, up to the order of the items and of the ratings of an item. *)
Definition same_up_to_order {V : Type} (u u' : units_t V) : Prop :=
  exists w, Permutation u w /\
            Forall2 (fun p q => fst p = fst q /\ Permutation (snd p) (snd q)) w u'.

(** Two rating groups with the same retained ratings: their (item, value)
    pairs, in iteration order and without the missing entries, are the
    same. *)
Definition same_retained_ratings {Raw : Type} (rawb : Raw -> Raw -> bool)
    (ms : list Raw) (d d' : group Raw) : Prop :=
  filter (fun p => negb (is_in rawb (snd p) ms)) (diter d) =
  filter (fun p => negb (is_in rawb (snd p) ms)) (diter d').

(** Two rating groups with the same entries, whatever their order. *)
Definition same_entries {Raw : Type} (d d' : group Raw) : Prop :=
  forall p, In p (diter d) <-> In p (diter d').

(** A run that returns a value, or ends on the pair-by-pair path with an
    exception that the metric raised on a pair of the ratings [ratings]. *)
Definition returns_or_metric_raises {V F A : Type} (metric : metric_fn V F)
    (np_metric : bool) (ratings : list V) (r : result A) : Prop :=
  (exists c, r = Ok c) \/
  (np_metric = false /\
   exists a b e, In a ratings /\ In b ratings /\ scalar metric a b = Err e /\ r = Err e).

(** ** Properties of binary64 values *)

(** Strictly positive, infinity included. *)
Definition is_positive (x : float) : bool :=
  match x with
  | S754_finite false _ _ | S754_infinity false => true
  | _ => false
  end.

(** Not a number, or a number that is not negative. *)
Definition nonneg_or_nan (x : float) : bool :=
  match x with
  | S754_nan | S754_zero false | S754_infinity false | S754_finite false _ _ => true
  | _ => false
  end.



(** The integer a metric value holds, for the metrics that count. *)
Definition int_of {F : Type} (v : pynum F) : Z :=
  match v with
  | PInt i => i
  | PFloat _ => 0
  end.

Definition is_int {F : Type} (v : pynum F) : Prop := exists i, v = PInt i.

(** The sum of a list of integers. *)
Definition zsum (zs : list Z) : Z := fold_right Z.add 0 zs.

(** The integer 0 or the float 0.0. *)
Definition is_zero (v : pynum float) : Prop :=
  v = PInt 0 \/ v = PFloat zero.

(** Binary64 numbers of the examples: [m * 2 ^ e]. *)
Definition float_of (m e : Z) : float := binary_normalize prec emax m e false.

(** ** The datasets of the examples *)

Local Open Scope string_scope.

(** Two coders over items A and B, nominal metric. *)
Definition two_coders_AB : list (group raw) :=
  [ KeyedGroup [(IdStr "A", RInt 1); (IdStr "B", RInt 1)];
    KeyedGroup [(IdStr "A", RInt 1); (IdStr "B", RInt 5)] ].

(** Two coders who agree on the items A, B and C. *)
Definition two_coders_agree : list (group raw) :=
  [ KeyedGroup [(IdStr "A", RInt 1); (IdStr "B", RInt 2); (IdStr "C", RInt 3)];
    KeyedGroup [(IdStr "A", RInt 1); (IdStr "B", RInt 2); (IdStr "C", RInt 3)] ].

(** Two coders who both rate both items 0. *)
Definition two_coders_zero : list (group raw) :=
  [ PositionalGroup [RInt 0; RInt 0]; PositionalGroup [RInt 0; RInt 0] ].

(** Two coders who rate the first item 0 and the second 1. *)
Definition two_coders_zero_one : list (group raw) :=
  [ PositionalGroup [RInt 0; RInt 1]; PositionalGroup [RInt 0; RInt 1] ].

(** Every rating is the missing marker. *)
Definition all_missing : list (group raw) :=
  [ PositionalGroup [RStr "*"; RStr "*"]; PositionalGroup [RStr "*"; RStr "*"] ].

(** Four coders over three items, the first item missing for two of them. *)
Definition four_coders : list (group raw) :=
  [ PositionalGroup [RInt 2; RInt 3; RInt 1];
    PositionalGroup [RStr "*"; RInt 2; RInt 3];
    PositionalGroup [RInt 3; RInt 2; RInt 1];
    PositionalGroup [RStr "*"; RInt 3; RInt 3] ].

(** The same coders, the first two exchanged. *)
Definition four_coders_swapped : list (group raw) :=
  [ PositionalGroup [RStr "*"; RInt 2; RInt 3];
    PositionalGroup [RInt 2; RInt 3; RInt 1];
    PositionalGroup [RInt 3; RInt 2; RInt 1];
    PositionalGroup [RStr "*"; RInt 3; RInt 3] ].

(** Four coders over three items as positional sequences. *)
Definition positional_form : list (group raw) :=
  [ PositionalGroup [RInt 1; RInt 1; RInt 1];
    PositionalGroup [RInt 3; RInt 3; RInt 3];
    PositionalGroup [RInt 3; RInt 1; RStr "*"];
    PositionalGroup [RInt 1; RInt 3; RStr "*"] ].

(** The same ratings as mappings from the position to the value, each
    mapping listing its keys in ascending order. *)
Definition mapping_form : list (group raw) :=
  [ KeyedGroup [(IdInt 0, RInt 1); (IdInt 1, RInt 1); (IdInt 2, RInt 1)];
    KeyedGroup [(IdInt 0, RInt 3); (IdInt 1, RInt 3); (IdInt 2, RInt 3)];
    KeyedGroup [(IdInt 0, RInt 3); (IdInt 1, RInt 1)];
    KeyedGroup [(IdInt 0, RInt 1); (IdInt 1, RInt 3); (IdInt 2, RStr "*")] ].

(** The same mappings again, the first one listing key 2 before key 1. *)
Definition mapping_form_unordered : list (group raw) :=
  [ KeyedGroup [(IdInt 0, RInt 1); (IdInt 2, RInt 1); (IdInt 1, RInt 1)];
    KeyedGroup [(IdInt 0, RInt 3); (IdInt 1, RInt 3); (IdInt 2, RInt 3)];
    KeyedGroup [(IdInt 0, RInt 3); (IdInt 1, RInt 1); (IdInt 2, RStr "*")];
    KeyedGroup [(IdInt 0, RInt 1); (IdInt 1, RInt 3); (IdInt 2, RStr "*")] ].

(** The marker of the missing ratings of these datasets. *)
Definition star : option (list raw) := Some [RStr "*"].

(** Three coders rate one item 0.1, 0.3 and 0.2. *)
Definition three_coders_tenths : list (group raw) :=
  [ PositionalGroup [RFloat (float_of 7205759403792794 (-56))];
    PositionalGroup [RFloat (float_of 5404319552844595 (-54))];
    PositionalGroup [RFloat (float_of 7205759403792794 (-55))] ].

(** The ratio metric written by the caller: the same function, but not one
    of the three builtin objects. *)
Definition my_ratio : metric_fn float float :=
  custom_metric (scalar ratio_metric) (vector ratio_metric).

Local Close Scope string_scope.

(** The program over exact rationals: integer ratings are converted
    exactly. *)
Definition convert_exact (g : raw) : result Qc :=
  match g with
  | RInt i => Ok (of_Z i)
  | _ => Err ConvertError
  end.

Definition alpha_exact (np : bool) (metric : metric_fn Qc Qc)
    (data : list (group raw)) (missing_items : option (list raw)) : result Qc :=
  krippendorff_alpha metric raw_eqb RMasked np data false convert_exact missing_items.

(** The observed and the expected disagreement that a run on raw values
    computes: lines 56-102, and lines 56-90 followed by lines 107-116. *)
Definition observed_of (np : bool) (metric : metric_fn float float)
    (data : list (group raw)) (missing_items : option (list raw)) : result float :=
  un <- pairable_units raw_eqb RMasked np data convert_float missing_items ;;
  observed_disagreement metric (use_np_metric metric np false) (fst un) (snd un).

Definition expected_of (np : bool) (metric : metric_fn float float)
    (data : list (group raw)) (missing_items : option (list raw)) : result float :=
  un <- pairable_units raw_eqb RMasked np data convert_float missing_items ;;
  expected_disagreement metric (use_np_metric metric np false) (fst un) (snd un).

(** ** More of the program: predicates on ratings *)

Definition is_nan (x : float) : bool :=
  match x with
  | S754_nan => true
  | _ => false
  end.

(** Zero or a finite number, of either sign. *)
Definition is_finite (x : float) : bool :=
  match x with
  | S754_zero _ | S754_finite _ _ _ => true
  | _ => false
  end.

(** A finite number that is not zero, in canonical form. *)
Definition is_finite_nonzero (x : float) : bool :=
  match x with
  | S754_finite _ m e => bounded prec emax m e
  | _ => false
  end.

(** A rating group with one entry per item at most, as a dictionary and an
    enumerated sequence have. *)
Definition distinct_keys {Raw : Type} (d : group Raw) : Prop :=
  NoDup (map fst (diter d)).

(** Every rating of the group is one of the missing values. *)
Definition all_missing_group {Raw : Type} (rawb : Raw -> Raw -> bool)
    (ms : list Raw) (d : group Raw) : Prop :=
  Forall (fun p => is_in rawb (snd p) ms = true) (diter d).

(** ** More of the program: the argument [missing_items] *)

(** What a caller passes as [missing_items]: nothing, a list of values, or a
    string, as the driver does with ['*']. *)
Inductive missing_arg : Type :=
| MissingNone
| MissingList (ms : list raw)
| MissingStr (s : string).

(** [list(s)] for a string: its characters, as strings of length one. *)
Definition chars_of (s : string) : list raw :=
  map (fun c => RStr (String c EmptyString)) (list_ascii_of_string s).

(** Lines 60-63: [None], or [list(missing_items)]. *)
Definition missing_list (m : missing_arg) : option (list raw) :=
  match m with
  | MissingNone => None
  | MissingList ms => Some ms
  | MissingStr s => Some (chars_of s)
  end.

(** A metric value that is not negative: a count, or a float that is NaN or
    not negative. *)
Definition num_nonneg (v : pynum float) : Prop :=
  match v with
  | PInt i => 0 <= i
  | PFloat x => nonneg_or_nan x = true
  end.

(** One of the three metric functions of the module. *)
Definition builtin_metric (metric : metric_fn float float) : Prop :=
  metric = nominal_metric \/ metric = interval_metric \/ metric = ratio_metric.

(** ** More of the program: the reader of the group file *)

Definition tab : Ascii.ascii := Ascii.ascii_of_nat 9.
Definition newline : Ascii.ascii := Ascii.ascii_of_nat 10.

(** [s.split(sep)] for a separator of one character: the pieces between the
    separators, empty ones included; never an empty list. *)
Fixpoint split_on (sep : Ascii.ascii) (s : string) : list string :=
  match s with
  | EmptyString => [EmptyString]
  | String c s' =>
      if Ascii.eqb c sep then EmptyString :: split_on sep s'
      else match split_on sep s' with
           | w :: ws => String c w :: ws
           | [] => [String c EmptyString]
           end
  end.

(** The three lists that [get_array_group] fills. *)
Definition columns : Type := (list Z * list Z * list Z)%type.

Section Reader.
(** [int(u)] on a string: the integer, or [None] for ValueError. *)
Variable py_int : string -> option Z.

(** Lines 169-173: the body of the loop; the unpacking of line 169 and each
    [int] raise ValueError. *)
Definition read_line (cols : columns) (line : string) : option columns :=
  let '(lst_u0, lst_u1, lst_u2) := cols in
  match split_on tab line with
  | [u0; u1; u2] =>
      match py_int u0 with
      | None => None
      | Some i0 =>
          match py_int u1 with
          | None => None
          | Some i1 =>
              match py_int u2 with
              | None => None
              | Some i2 => Some (lst_u0 ++ [i0], lst_u1 ++ [i1], lst_u2 ++ [i2])
              end
          end
      end
  | _ => None
  end.

Fixpoint read_lines (lines : list string) (cols : columns) : option columns :=
  match lines with
  | [] => Some cols
  | line :: rest =>
      match read_line cols line with
      | None => None
      | Some cols' => read_lines rest cols'
      end
  end.

(** [lines[1:(len(lines) - 1)]] *)
Definition data_lines (lines : list string) : list string :=
  firstn (length lines - 1 - 1) (skipn 1 lines).

(** Lines 162-174, on the text that [handle.read()] returns; [None] is
    ValueError. *)
Definition get_array_group (content : string) : option (list (list Z)) :=
  let lines := split_on newline content in
  match read_lines (data_lines lines) ([], [], []) with
  | Some (lst_u0, lst_u1, lst_u2) => Some [lst_u0; lst_u1; lst_u2]
  | None => None
  end.

(** One row read on its own: its three integers. *)
Definition read_row (line : string) : option (Z * Z * Z) :=
  match read_line ([], [], []) line with
  | Some ([i0], [i1], [i2]) => Some (i0, i1, i2)
  | _ => None
  end.
End Reader.

(** [float(g)] for the ratings of the group file, Python integers: an integer
    too large for a binary64 number raises OverflowError. *)
Definition float_of_int (g : raw) : result float :=
  match g with
  | RInt i =>
      if is_infinity (float_of_Z i) then Err OverflowError else Ok (float_of_Z i)
  | _ => convert_float g
  end.

(** Line 191: [krippendorff_alpha(group_data, interval_metric)], numpy being
    there. *)
Definition group_alpha (group_data : list (list Z)) : result float :=
  krippendorff_alpha interval_metric raw_eqb RMasked true
    (map (fun l => PositionalGroup (map RInt l)) group_data)
    false float_of_int None.

(** A string without the character [sep]. *)
Definition sep_free (sep : Ascii.ascii) (s : string) : bool :=
  forallb (fun c => negb (Ascii.eqb c sep)) (list_ascii_of_string s).

(** A row of the file: three numerals with tabs between them. *)
Definition row_line (numeral : Z -> string) (r : Z * Z * Z) : string :=
  let '(a, b, c) := r in
  String.append (numeral a)
    (String tab (String.append (numeral b) (String tab (numeral c)))).

(** The text of a file from its lines. *)
Definition text_of_lines (ls : list string) : string :=
  String.concat (String newline EmptyString) ls.

(** A numeral that [int] reads back, and that holds no tab and no line
    break. *)
Definition plain_numeral (py_int : string -> option Z) (numeral : Z -> string)
    (z : Z) : Prop :=
  py_int (numeral z) = Some z
  /\ sep_free tab (numeral z) = true /\ sep_free newline (numeral z) = true.

Definition plain_row (py_int : string -> option Z) (numeral : Z -> string)
    (r : Z * Z * Z) : Prop :=
  plain_numeral py_int numeral (fst (fst r))
  /\ plain_numeral py_int numeral (snd (fst r))
  /\ plain_numeral py_int numeral (snd r).

(** [int] on the plain decimal numerals, and the numeral of an integer: the
    example file is written and read with them. *)
Definition decimal_int (s : string) : option Z :=
  option_map Z.of_int (DecimalString.NilZero.int_of_string s).

Definition decimal_numeral (z : Z) : string :=
  DecimalString.NilZero.string_of_int (Z.to_int z).

(** A group file of three rows, with its header line and a line break at
    the end. *)
Definition group_rows : list (Z * Z * Z) := [(1, 2, 1); (3, 3, 4); (5, 4, 4)].

Definition group_file : string :=
  text_of_lines
    (row_line (fun _ => String (Ascii.ascii_of_nat 117) EmptyString) (0, 0, 0)
       :: map (row_line decimal_numeral) group_rows ++ [EmptyString]).

(** ** More of the program: items that are not pairable *)

(** The entries of a rating group without those of item [it]; a sequence
    becomes the dictionary of its other positions. *)
Definition without_item {Raw : Type} (it : item_id) (d : group Raw) : group Raw :=
  KeyedGroup (filter (fun p => negb (item_eqb (fst p) it)) (diter d)).

(** Two coders over the items A and B; only the first one rates item C. *)
Definition two_coders_single_C : list (group raw) :=
  [ KeyedGroup [(IdStr "A", RInt 1); (IdStr "B", RInt 2); (IdStr "C", RInt 4)];
    KeyedGroup [(IdStr "A", RInt 1); (IdStr "B", RInt 3)] ].

(** A file whose one row holds two fields only. *)
Definition short_row : string :=
  String.append (decimal_numeral 1) (String tab (decimal_numeral 2)).

Definition short_row_file : string :=
  text_of_lines [EmptyString; short_row; EmptyString].

(** One coder alone, and a coder without any rating. *)
Definition one_coder : list (group raw) := [ PositionalGroup [RInt 1; RInt 2] ].

Definition silent_coder : group raw := PositionalGroup [RStr "*"; RStr "*"; RStr "*"].

(** ** More of the specification: identical ratings, the ratio formula *)

(** All the ratings of every item are one value, and that value satisfies
    [ok]. *)
Definition same_rating (ok : float -> bool) (units : units_t float) : Prop :=
  Forall (fun p => exists v, Forall (eq v) (snd p) /\ ok v = true) units.


(** Coders [1, -1] and [2, -1]: the ratings 1 and -1, of different items,
    add up to zero. *)
Definition two_coders_cross_zero_sum : list (group raw) :=
  [ PositionalGroup [RInt 1; RInt (-1)]; PositionalGroup [RInt 2; RInt (-1)] ].

(** Coders [1, -1] and [1, -1]: they agree on both items. *)
Definition two_coders_agree_opposite : list (group raw) :=
  [ PositionalGroup [RInt 1; RInt (-1)]; PositionalGroup [RInt 1; RInt (-1)] ].

Unset Implicit Arguments.

(** * Properties *)

(** ** Loops and comprehensions in the result monad *)

Section ResultLemmas.
Context {A B C : Type}.

Lemma bind_assoc (r : result A) (k : A -> result B) (k' : B -> result C) :
  bind (bind r k) k' = bind r (fun a => bind (k a) k').
Proof. destruct r; reflexivity. Qed.

Lemma bind_ext (r : result A) (k k' : A -> result B) :
  (forall a, k a = k' a) -> bind r k = bind r k'.
Proof. intros E. destruct r; cbn; [apply E | reflexivity]. Qed.


Lemma map_result_app (f : A -> result B) (xs ys : list A) :
  map_result f (xs ++ ys) =
  (us <- map_result f xs ;; vs <- map_result f ys ;; Ok (us ++ vs)).
Proof.
  induction xs as [ | x xs IH]; cbn [app map_result].
  - cbn. destruct (map_result f ys); reflexivity.
  - rewrite IH. destruct (f x); cbn; [ | reflexivity].
    destruct (map_result f xs); cbn; [ | reflexivity].
    destruct (map_result f ys); reflexivity.
Qed.

Lemma map_result_map (g : C -> A) (f : A -> result B) (xs : list C) :
  map_result f (map g xs) = map_result (fun x => f (g x)) xs.
Proof.
  induction xs as [ | x xs IH]; cbn [map map_result]; [reflexivity | ].
  rewrite IH. reflexivity.
Qed.

Lemma map_result_ext_in (f g : A -> result B) (xs : list A) :
  (forall x, In x xs -> f x = g x) -> map_result f xs = map_result g xs.
Proof.
  induction xs as [ | x xs IH]; intros E; cbn [map_result]; [reflexivity | ].
  rewrite (E x (or_introl eq_refl)), IH; [reflexivity | ].
  intros y Hy. apply E. right. exact Hy.
Qed.

Lemma map_result_total (f : A -> B) (xs : list A) :
  map_result (fun x => Ok (f x)) xs = Ok (map f xs).
Proof.
  induction xs as [ | x xs IH]; cbn [map map_result]; [reflexivity | ].
  rewrite IH. reflexivity.
Qed.


(** A loop that adds one computed term per element is the comprehension
    of the terms, folded. *)
Lemma for_each_accumulate (f : A -> result B) (g : C -> B -> C) (xs : list A) :
  forall s : C,
  for_each (fun s x => y <- f x ;; Ok (g s y)) xs s =
  (ys <- map_result f xs ;; Ok (fold_left g ys s)).
Proof.
  induction xs as [ | x xs IH]; intros s; cbn [for_each map_result]; [reflexivity | ].
  destruct (f x) as [y | e]; cbn; [ | reflexivity].
  rewrite IH. destruct (map_result f xs); reflexivity.
Qed.
End ResultLemmas.

Lemma for_each_ext {A S : Type} (body body' : S -> A -> result S) (xs : list A) :
  (forall s x, body s x = body' s x) ->
  forall s, for_each body xs s = for_each body' xs s.
Proof.
  intros E. induction xs as [ | x xs IH]; intros s; cbn [for_each]; [reflexivity | ].
  rewrite E. apply bind_ext. exact IH.
Qed.


(** ** Binary64: the float of a positive integer *)

(** A mantissa has as many binary digits as [digits2_pos] says. *)
Lemma digits2_pos_bounds (p : positive) :
  2 ^ (Zpos (digits2_pos p) - 1) <= Zpos p < 2 ^ Zpos (digits2_pos p).
Proof.
  induction p as [p IH | p IH | ]; cbn [digits2_pos].
  - rewrite Pos2Z.inj_succ.
    replace (Z.succ (Z.pos (digits2_pos p)) - 1) with (Z.succ (Z.pos (digits2_pos p) - 1)) by lia.
    rewrite !Z.pow_succ_r by lia. lia.
  - rewrite Pos2Z.inj_succ.
    replace (Z.succ (Z.pos (digits2_pos p)) - 1) with (Z.succ (Z.pos (digits2_pos p) - 1)) by lia.
    rewrite !Z.pow_succ_r by lia. lia.
  - cbn. lia.
Qed.

Lemma shr_1_m (mrs : shr_record) :
  0 <= shr_m mrs -> shr_m (shr_1 mrs) = shr_m mrs / 2.
Proof.
  destruct mrs as [m r s]; cbn [shr_m shr_1]. intros Hm.
  destruct m as [ | [p | p | ] | p ]; cbn [shr_m]; try lia; try reflexivity.
  - rewrite Pos2Z.inj_xI. apply Z.div_unique with (r := 1); lia.
  - rewrite Pos2Z.inj_xO. apply Z.div_unique with (r := 0); lia.
Qed.

Lemma iter_shr_1_m (p : positive) : forall mrs : shr_record,
  0 <= shr_m mrs -> shr_m (SpecFloat.iter_pos shr_1 p mrs) = shr_m mrs / 2 ^ Zpos p.
Proof.
  induction p as [p IH | p IH | ]; intros mrs Hm; cbn [SpecFloat.iter_pos].
  - assert (Hp : 0 < 2 ^ Z.pos p) by (apply Z.pow_pos_nonneg; lia).
    assert (E : 2 ^ Z.pos p~1 = 2 * (2 ^ Z.pos p * 2 ^ Z.pos p))
      by (rewrite <- Z.pow_add_r, <- Z.pow_succ_r by lia; f_equal; lia).
    assert (H1 : 0 <= shr_m (shr_1 mrs)) by (rewrite shr_1_m by lia; apply Z.div_pos; lia).
    assert (H2 : 0 <= shr_m (SpecFloat.iter_pos shr_1 p (shr_1 mrs)))
      by (rewrite IH by lia; apply Z.div_pos; lia).
    rewrite IH, IH, shr_1_m, E by lia.
    rewrite !Z.div_div by lia. reflexivity.
  - assert (Hp : 0 < 2 ^ Z.pos p) by (apply Z.pow_pos_nonneg; lia).
    assert (E : 2 ^ Z.pos p~0 = 2 ^ Z.pos p * 2 ^ Z.pos p)
      by (rewrite <- Z.pow_add_r by lia; f_equal; lia).
    assert (H2 : 0 <= shr_m (SpecFloat.iter_pos shr_1 p mrs))
      by (rewrite IH by lia; apply Z.div_pos; lia).
    rewrite IH, IH, E by lia.
    rewrite !Z.div_div by lia. reflexivity.
  - rewrite shr_1_m by lia. reflexivity.
Qed.

(** Shifting a positive mantissa by fewer binary digits than it has
    leaves a positive mantissa. *)
Lemma shr_fexp_pos (m e : Z) (l : location) :
  0 < m -> emin prec emax < e + Zdigits2 m ->
  let '(mrs, e') := shr_fexp prec emax m e l in
  0 < shr_m mrs /\ emin prec emax < e' + Zdigits2 (shr_m mrs).
Proof.
  intros Hm He. unfold shr_fexp, shr.
  assert (Hrec : shr_m (shr_record_of_loc m l) = m)
    by (destruct l as [ | [ | | ] ]; reflexivity).
  destruct (fexp prec emax (Zdigits2 m + e) - e) as [ | n | n ] eqn:En;
    rewrite ?Hrec; try (split; assumption).
  destruct m as [ | p | p ]; try lia. cbn [Zdigits2] in *.
  pose proof (digits2_pos_bounds p) as [Hlo Hhi].
  set (d := Z.pos (digits2_pos p)) in *.
  assert (Hn : Z.pos n < d).
  { unfold fexp, emin, prec, emax in *. lia. }
  rewrite iter_shr_1_m by (rewrite Hrec; lia). rewrite Hrec.
  assert (Hpow : 2 ^ (d - 1) = 2 ^ (d - 1 - Z.pos n) * 2 ^ Z.pos n)
    by (rewrite <- Z.pow_add_r by lia; f_equal; lia).
  assert (Hq : 2 ^ (d - 1 - Z.pos n) <= Z.pos p / 2 ^ Z.pos n).
  { apply Z.div_le_lower_bound; [apply Z.pow_pos_nonneg; lia | ]. lia. }
  assert (Hq0 : 0 < 2 ^ (d - 1 - Z.pos n)) by (apply Z.pow_pos_nonneg; lia).
  split; [lia | ].
  destruct (Z.pos p / 2 ^ Z.pos n) as [ | q | q ] eqn:Eq; try lia.
  cbn [Zdigits2]. pose proof (digits2_pos_bounds q) as [_ Hq2].
  assert (d - 1 - Z.pos n < Z.pos (digits2_pos q)).
  { apply (Z.pow_lt_mono_r_iff 2); lia. }
  lia.
Qed.

Lemma Zdigits2_le (m m' : Z) : 0 < m <= m' -> Zdigits2 m <= Zdigits2 m'.
Proof.
  intros [H0 Hle]. destruct m as [ | p | p ]; try lia. destruct m' as [ | q | q ]; try lia.
  cbn [Zdigits2]. pose proof (digits2_pos_bounds p) as [Hlo _].
  pose proof (digits2_pos_bounds q) as [_ Hhi].
  assert (Z.pos (digits2_pos p) - 1 < Z.pos (digits2_pos q))
    by (apply (Z.pow_lt_mono_r_iff 2); lia).
  lia.
Qed.

Lemma round_nearest_even_ge (m : Z) (l : location) : m <= round_nearest_even m l.
Proof.
  destruct l as [ | [ | | ] ]; cbn [round_nearest_even]; try lia.
  destruct (Z.even m); lia.
Qed.

Lemma binary_round_aux_positive (m e : Z) (l : location) :
  0 < m -> emin prec emax < e + Zdigits2 m ->
  is_positive (binary_round_aux prec emax false m e l) = true.
Proof.
  intros Hm He. unfold binary_round_aux.
  pose proof (shr_fexp_pos m e l Hm He) as H1.
  destruct (shr_fexp prec emax m e l) as [mrs1 e1]. destruct H1 as [Hm1 He1].
  pose proof (round_nearest_even_ge (shr_m mrs1) (loc_of_shr_record mrs1)) as Hr.
  set (m2 := round_nearest_even (shr_m mrs1) (loc_of_shr_record mrs1)) in *.
  assert (Hd : Zdigits2 (shr_m mrs1) <= Zdigits2 m2) by (apply Zdigits2_le; lia).
  assert (Hm2 : 0 < m2) by lia.
  assert (He2 : emin prec emax < e1 + Zdigits2 m2) by lia.
  pose proof (shr_fexp_pos m2 e1 loc_Exact Hm2 He2) as H2.
  destruct (shr_fexp prec emax m2 e1 loc_Exact) as [mrs2 e2]. destruct H2 as [Hm3 _].
  destruct (shr_m mrs2) as [ | q | q ]; try lia.
  destruct (e2 <=? emax - prec); reflexivity.
Qed.

Lemma float_of_Z_positive (i : Z) : 0 < i -> is_positive (float_of_Z i) = true.
Proof.
  intros Hi. destruct i as [ | p | p ]; try lia.
  unfold float_of_Z, binary_normalize, binary_round, shl_align.
  pose proof (digits2_pos_bounds p) as [Hlo Hhi].
  destruct (fexp prec emax (Z.pos (digits2_pos p) + 0) - 0) as [ | n | n ] eqn:En.
  - apply binary_round_aux_positive; [lia | ].
    cbn [Zdigits2]. unfold emin, prec, emax. lia.
  - apply binary_round_aux_positive; [lia | ].
    cbn [Zdigits2]. unfold emin, prec, emax. lia.
  - apply binary_round_aux_positive; [lia | ].
    cbn [Zdigits2].
    assert (Hle : Z.pos (digits2_pos p) <= Z.pos (digits2_pos (Pos.iter xO p n))).
    { apply (Zdigits2_le (Z.pos p) (Z.pos (Pos.iter xO p n))). split; [lia | ].
      clear. induction n using Pos.peano_ind.
      - cbn. lia.
      - rewrite Pos.iter_succ. lia. }
    unfold fexp, emin, prec, emax in *. lia.
Qed.

Lemma float_of_Z_nonzero (i : Z) : 0 < i -> eqb (float_of_Z i) zero = false.
Proof.
  intros Hi. pose proof (float_of_Z_positive i Hi) as Hp.
  destruct (float_of_Z i) as [ s | [ | ] | | [ | ] m e ]; cbn in Hp; try discriminate; reflexivity.
Qed.

Lemma nested_for_each_accumulate {A B C S : Type}
    (f : A -> B -> result C) (g : S -> C -> S) (xs : list A) (ys : list B) :
  forall s : S,
  for_each (fun s x => for_each (fun s y => c <- f x y ;; Ok (g s c)) ys s) xs s =
  (cs <- map_result (fun p => f (fst p) (snd p)) (list_prod xs ys) ;;
   Ok (fold_left g cs s)).
Proof.
  induction xs as [ | x xs IH]; intros s; cbn [for_each list_prod]; [reflexivity | ].
  rewrite for_each_accumulate, map_result_app, map_result_map. cbn [fst snd].
  destruct (map_result (fun y => f x y) ys) as [us | e]; cbn [bind]; [ | reflexivity].
  rewrite IH.
  destruct (map_result (fun p => f (fst p) (snd p)) (list_prod xs ys)) as [vs | e];
    cbn [bind]; [ | reflexivity].
  rewrite fold_left_app. reflexivity.
Qed.

Lemma fold_left_map {A B S : Type} (g : S -> B -> S) (h : A -> B) (xs : list A) :
  forall s : S, fold_left (fun s x => g s (h x)) xs s = fold_left g (map h xs) s.
Proof.
  induction xs as [ | x xs IH]; intros s; cbn [fold_left map]; [reflexivity | apply IH].
Qed.

Lemma concat_cons_columns {A B : Type} (h : A -> B) (k : A -> list B) (xs : list A) :
  Permutation (concat (map (fun x => h x :: k x) xs)) (map h xs ++ concat (map k xs)).
Proof.
  induction xs as [ | x xs IH]; cbn [map concat app]; [constructor | ].
  constructor. rewrite IH, !app_assoc.
  apply Permutation_app_tail, Permutation_app_comm.
Qed.

(** ** The loops of the two disagreements *)

Section Disagreement.
Context {F : Type} `{Numeric F}.
Variable V : Type.
Variable metric : metric_fn V F.

Lemma pair_sum_scalar_terms (g1 g2 : list V) :
  pair_sum_scalar metric g1 g2 =
  (terms <- pair_terms metric g1 g2 ;; Ok (py_sum terms)).
Proof.
  unfold pair_sum_scalar, pair_terms, ordered_pairs, py_sum.
  apply (nested_for_each_accumulate (scalar metric) py_add).
Qed.

Lemma pair_sum_vec_columns (g1 g2 : list V) :
  pair_sum_vec metric g1 g2 = py_sum (map np_sum (pair_columns metric g1 g2)).
Proof.
  unfold pair_sum_vec, pair_columns, py_sum.
  rewrite map_map.
  apply (fold_left_map py_add
           (fun gj => np_sum (map (fun gi => vector metric gi gj) g1))).
Qed.

Lemma pair_sum_sum_over_pairs (np_metric : bool) (g1 g2 : list V) :
  pair_sum metric np_metric g1 g2 = sum_over_pairs metric np_metric g1 g2.
Proof.
  unfold pair_sum, sum_over_pairs. destruct np_metric.
  - rewrite pair_sum_vec_columns. reflexivity.
  - apply pair_sum_scalar_terms.
Qed.

(** The arrays of the numpy path hold the metric of every ordered pair
    once, column by column. *)
Lemma pair_columns_ordered_pairs (g1 g2 : list V) :
  Permutation (concat (pair_columns metric g1 g2))
              (map (fun p => vector metric (fst p) (snd p)) (ordered_pairs g1 g2)).
Proof.
  unfold pair_columns, ordered_pairs.
  induction g1 as [ | a g1 IH]; cbn [map list_prod].
  - induction g2 as [ | b g2 IH2]; cbn; [constructor | exact IH2].
  - rewrite (concat_cons_columns (fun gj => vector metric a gj)
               (fun gj => map (fun gi => vector metric gi gj) g1) g2).
    rewrite map_app, map_map. cbn [fst snd].
    apply Permutation_app_head. exact IH.
Qed.

Lemma observed_disagreement_Do_spec (np_metric : bool) (units : units_t V) :
  observed_disagreement metric np_metric units (count_values units) =
  Do_spec metric np_metric units.
Proof.
  unfold observed_disagreement, Do_spec.
  rewrite (for_each_ext _
    (fun Do grades => q <- item_disagreement metric np_metric grades ;; Ok (add Do q))).
  - rewrite for_each_accumulate, bind_assoc. reflexivity.
  - intros Do grades. unfold item_disagreement, pairs_denominator.
    rewrite pair_sum_sum_over_pairs, bind_assoc. reflexivity.
Qed.

Lemma expected_disagreement_De_spec (np_metric : bool) (units : units_t V) :
  expected_disagreement metric np_metric units (count_values units) =
  De_spec metric np_metric units.
Proof.
  unfold expected_disagreement, De_spec, expected_denominator. cbv zeta.
  set (block := fun g1 g2 : list V =>
         s <- sum_over_pairs metric np_metric g1 g2 ;; Ok (to_float s)).
  rewrite (for_each_ext _
    (fun De g1 => for_each (fun De g2 => c <- block g1 g2 ;; Ok (add De c))
                    (values units) De)).
  - rewrite (nested_for_each_accumulate block add), bind_assoc. reflexivity.
  - intros De g1. apply for_each_ext. intros De' g2. unfold block.
    rewrite pair_sum_sum_over_pairs, bind_assoc. reflexivity.
Qed.

(** [coefficient] is the rule of the specification: the guard [Do and De]
    of line 118 only fails on a zero [De], and a non-zero divisor never
    raises. *)
Lemma coefficient_alpha_spec (np_metric : bool) (Do : F) (De : result F) :
  coefficient np_metric Do De = alpha_spec Do De.
Proof.
  unfold coefficient, alpha_spec, truthy, truediv.
  destruct (eqb Do zero) eqn:EDo; [reflexivity | ].
  destruct De as [De | e]; cbn [bind]; [ | reflexivity].
  destruct (eqb De zero) eqn:EDe; cbn [negb andb bind]; [reflexivity | ].
  destruct np_metric; reflexivity.
Qed.

Section WithInput.
Variable Raw : Type.
Variable raw_eqb : Raw -> Raw -> bool.
Variable masked_singleton : Raw.
Variable np : bool.

Lemma pairable_units_count (data : list (group Raw))
    (convert_items : Raw -> result V) (missing_items : option (list Raw))
    (units : units_t V) (n : nat) :
  pairable_units raw_eqb masked_singleton np data convert_items missing_items
    = Ok (units, n) ->
  n = count_values units /\ n <> 0%nat /\
  exists collected,
    collect_units raw_eqb convert_items
      (maskitems masked_singleton np missing_items) data = Ok collected /\
    units = pairable collected.
Proof.
  unfold pairable_units. cbv zeta.
  destruct (collect_units _ _ _ _) as [collected | e]; cbn [bind]; [ | discriminate].
  destruct (count_values (pairable collected) =? 0)%nat eqn:En; [discriminate | ].
  intros [= <- <-]. apply Nat.eqb_neq in En. eauto.
Qed.
End WithInput.
End Disagreement.

(** ** The observed and the expected disagreement of [krippendorff_alpha] *)

Section DisagreementClaims.
Context {F : Type} `{Numeric F}.
Variables V Raw : Type.
Variable metric : metric_fn V F.
Variable raw_eqb : Raw -> Raw -> bool.
Variable masked_singleton : Raw.
Variable np : bool.


End DisagreementClaims.

(** ** No division by zero in the core *)

Lemma pairable_all_pairable {V : Type} (units : units_t V) :
  all_pairable (pairable units).
Proof.
  unfold all_pairable, pairable. apply Forall_forall. intros p Hp.
  apply filter_In in Hp. destruct Hp as [_ Hlen].
  apply Nat.ltb_lt in Hlen. lia.
Qed.

Lemma all_pairable_count {V : Type} (units : units_t V) :
  all_pairable units -> units <> [] -> (2 <= count_values units)%nat.
Proof.
  unfold all_pairable, count_values. intros Hall Hne.
  destruct units as [ | p units]; [congruence | ].
  inversion Hall as [ | ? ? Hp _]; subst. cbn in *. lia.
Qed.


Section NoZeroDivision.
Variables V Raw : Type.
Variable rawb : Raw -> Raw -> bool.
Variable masked_singleton : Raw.
Variable np : bool.

(** Past the check of line 89 every rating list has at least two ratings,
    and there are at least two pairable values. *)
Lemma pairable_units_all_pairable
    (data : list (group Raw)) (convert_items : Raw -> result V)
    (missing_items : option (list Raw)) (units : units_t V) (n : nat) :
  pairable_units rawb masked_singleton np data convert_items missing_items
    = Ok (units, n) ->
  all_pairable units /\ (2 <= n)%nat.
Proof.
  intros E. apply pairable_units_count in E.
  destruct E as (-> & Hn & collected & _ & ->).
  pose proof (pairable_all_pairable collected) as Hall.
  split; [exact Hall | ].
  apply all_pairable_count; [exact Hall | ].
  intros Hnil. apply Hn. rewrite Hnil. reflexivity.
Qed.

(** C10.  When [krippendorff_alpha] gets past the insufficient-data check,
    every rating list of the filtered mapping has at least two ratings and
    so n >= 2; hence the divisor [float(len(grades) - 1)] of every item,
    the divisor [float(n)] and the divisor [float(n * (n - 1))] are all
    different from zero. *)
Theorem pairable_units_divisors_nonzero
    (data : list (group Raw)) (convert_items : Raw -> result V)
    (missing_items : option (list Raw)) (units : units_t V) (n : nat) :
  pairable_units rawb masked_singleton np data convert_items missing_items
    = Ok (units, n) ->
  all_pairable units /\ (2 <= n)%nat
  /\ Forall (fun grades => eqb (pairs_denominator grades) (zero : float) = false)
       (values units)
  /\ eqb (of_Z (Z.of_nat n)) (zero : float) = false
  /\ eqb (expected_denominator n) (zero : float) = false.
Proof.
  intros E. destruct (pairable_units_all_pairable _ _ _ _ _ E) as [Hall H2].
  repeat split; try assumption.
  - apply Forall_forall. intros grades Hin. unfold values in Hin.
    apply in_map_iff in Hin. destruct Hin as (p & <- & Hp).
    unfold all_pairable in Hall. rewrite Forall_forall in Hall.
    specialize (Hall p Hp). unfold pairs_denominator.
    apply float_of_Z_nonzero. lia.
  - apply float_of_Z_nonzero. lia.
  - unfold expected_denominator. apply float_of_Z_nonzero.
    apply Z.mul_pos_pos; lia.
Qed.
End NoZeroDivision.

(** The theorem on the two coders of the concrete scenario. *)
Lemma pairable_units_divisors_nonzero_witness :
  exists units n,
    pairable_units raw_eqb RMasked true two_coders_AB convert_float None
      = Ok (units, n)
    /\ all_pairable units /\ (2 <= n)%nat
    /\ Forall (fun grades => eqb (pairs_denominator grades) (zero : float) = false)
         (values units)
    /\ eqb (of_Z (Z.of_nat n)) (zero : float) = false
    /\ eqb (expected_denominator n) (zero : float) = false.
Proof.
  eexists. eexists. split; [vm_compute; reflexivity | ].
  apply (pairable_units_divisors_nonzero float raw raw_eqb RMasked true
           two_coders_AB convert_float None).
  vm_compute. reflexivity.
Defined.

(** ** The concrete scenario: two coders, items A and B, nominal metric *)

(** C9, as stated, fails: on coder1 = {A:1, B:1}, coder2 = {A:1, B:5} with
    the nominal metric the observed disagreement computed is 0.5, on the
    numpy path and on the scalar path, and 0.5 is not 0.125. *)
Lemma two_coders_AB_observed_not_eighth :
  observed_of true nominal_metric two_coders_AB None = Ok (float_of 1 (-1))
  /\ observed_of false nominal_metric two_coders_AB None = Ok (float_of 1 (-1))
  /\ SFeqb (float_of 1 (-1)) (float_of 1 (-3)) = false.
Proof.
  repeat split; vm_compute; reflexivity.
Qed.

(** C9, amended.  On that input item A contributes 0 and item B contributes
    2 / (2 - 1) = 2 (both ordered pairs (1, 5) and (5, 1) count), over n = 4
    pairable values: the observed disagreement is 0.5; the expected
    disagreement is 6 / (4 * 3) = 0.5, and the alpha returned is 0.0, which
    is strictly less than 1.0. *)
Theorem two_coders_AB_alpha :
  forall np : bool,
    pairable_units raw_eqb RMasked np two_coders_AB convert_float None
      = Ok ([(IdStr "A", [float_of 1 0; float_of 1 0]);
             (IdStr "B", [float_of 1 0; float_of 5 0])], 4%nat)
    /\ item_disagreement nominal_metric np [float_of 1 0; float_of 1 0]
         = Ok (zero : float)
    /\ item_disagreement nominal_metric np [float_of 1 0; float_of 5 0]
         = Ok (float_of 2 0)
    /\ observed_of np nominal_metric two_coders_AB None = Ok (float_of 1 (-1))
    /\ expected_of np nominal_metric two_coders_AB None = Ok (float_of 1 (-1))
    /\ alpha np nominal_metric two_coders_AB None = Ok (zero : float)
    /\ SFltb (zero : float) (one : float) = true.
Proof.
  intros [ | ]; repeat split; vm_compute; reflexivity.
Qed.

(** ** Binary64: zero, infinities and NaN in sums and quotients *)


Lemma binary_round_aux_nonneg (m e : Z) (l : location) :
  nonneg_or_nan (binary_round_aux prec emax false m e l) = true.
Proof.
  unfold binary_round_aux.
  destruct (shr_fexp prec emax m e l) as [mrs1 e1].
  destruct (shr_fexp prec emax _ e1 loc_Exact) as [mrs2 e2].
  destruct (shr_m mrs2); [reflexivity | | reflexivity].
  destruct (e2 <=? emax - prec); reflexivity.
Qed.

Lemma mul_self_nonneg (x : float) : nonneg_or_nan (mul x x) = true.
Proof.
  destruct x as [s | s | | s m e]; cbn [mul binary64 SFmul].
  - destruct s; reflexivity.
  - destruct s; reflexivity.
  - reflexivity.
  - replace (xorb s s) with false by (destruct s; reflexivity).
    apply binary_round_aux_nonneg.
Qed.

Lemma add_nonneg (x y : float) :
  nonneg_or_nan x = true -> nonneg_or_nan y = true -> nonneg_or_nan (add x y) = true.
Proof.
  destruct x as [[ | ] | [ | ] | | [ | ] mx ex]; cbn [nonneg_or_nan]; try discriminate;
    destruct y as [[ | ] | [ | ] | | [ | ] my ey]; cbn [nonneg_or_nan]; try discriminate;
    intros _ _; try reflexivity.
  cbn [add binary64 SFadd cond_Zopp]. cbv zeta.
  destruct (shl_align mx ex (Z.min ex ey)) as [m1 e1].
  destruct (shl_align my ey (Z.min ex ey)) as [m2 e2]. cbn [fst Z.add binary_normalize].
  unfold binary_round. destruct (shl_align _ _ _) as [mz ez].
  apply binary_round_aux_nonneg.
Qed.




Lemma div_nonneg_positive (x y : float) :
  nonneg_or_nan x = true -> is_positive y = true -> nonneg_or_nan (div x y) = true.
Proof.
  destruct x as [[ | ] | [ | ] | | [ | ] mx ex]; cbn [nonneg_or_nan]; try discriminate;
    destruct y as [[ | ] | [ | ] | | [ | ] my ey]; cbn [is_positive]; try discriminate;
    intros _ _; try reflexivity.
  cbn [div binary64 SFdiv xorb].
  destruct (SFdiv_core_binary prec emax (Z.pos mx) ex (Z.pos my) ey) as [[mz ez] lz].
  apply binary_round_aux_nonneg.
Qed.





(** ** Sums of floats that are not negative *)



Lemma fold_add_nonneg (qs : list float) :
  forall z : float,
  nonneg_or_nan z = true -> Forall (fun q => nonneg_or_nan q = true) qs ->
  nonneg_or_nan (fold_left add qs z) = true.
Proof.
  induction qs as [ | q qs IH]; intros z Hz Hqs; cbn [fold_left]; [exact Hz | ].
  inversion Hqs as [ | ? ? Hq Hqs']; subst.
  apply IH; [apply add_nonneg; assumption | assumption].
Qed.


(** ** The ratio metric on the numpy path *)

Section RatioVector.
Variable metric : metric_fn float float.
Hypothesis metric_vector : forall a b : float,
  vector metric a b = PFloat (np_pow2 (div (sub a b) (add a b))).



End RatioVector.

(** ** The ratio metric on the scalar path *)



Section RatioScalar.
Variable metric : metric_fn float float.
Hypothesis metric_scalar : forall a b : float,
  scalar metric a b = scalar ratio_metric a b.


End RatioScalar.


(** ** The coefficient *)

Lemma py_add_is_zero (v w : pynum float) :
  is_zero v -> is_zero w -> is_zero (py_add v w).
Proof.
  intros [-> | ->] [-> | ->]; cbn; [left | right | right | right]; reflexivity.
Qed.

Lemma fold_py_add_is_zero (ts : list (pynum float)) :
  forall acc : pynum float,
  is_zero acc -> Forall is_zero ts -> is_zero (fold_left py_add ts acc).
Proof.
  induction ts as [ | t ts IH]; intros acc Hacc Hts; cbn [fold_left]; [exact Hacc | ].
  inversion Hts as [ | ? ? Ht Hts']; subst.
  apply IH; [apply py_add_is_zero; assumption | assumption].
Qed.

Lemma is_zero_to_float (v : pynum float) : is_zero v -> to_float v = zero.
Proof. intros [-> | ->]; reflexivity. Qed.

Lemma div_zero_positive (d : float) :
  is_positive d = true -> div (zero : float) d = zero.
Proof.
  destruct d as [[ | ] | [ | ] | | [ | ] m e]; cbn [is_positive]; try discriminate;
    reflexivity.
Qed.

Lemma truediv_zero_positive (vec : bool) (d : float) :
  is_positive d = true -> truediv vec (zero : float) d = Ok zero.
Proof.
  intros Hd. unfold truediv. rewrite (div_zero_positive d Hd).
  destruct vec; [reflexivity | ].
  destruct d as [[ | ] | [ | ] | | [ | ] m e]; cbn [is_positive] in Hd; try discriminate;
    reflexivity.
Qed.

Lemma fold_add_zero (qs : list float) :
  Forall (eq (zero : float)) qs -> fold_left add qs (zero : float) = zero.
Proof.
  induction qs as [ | q qs IH]; intros Hqs; cbn [fold_left]; [reflexivity | ].
  inversion Hqs as [ | ? ? <- Hqs']; subst. apply IH. exact Hqs'.
Qed.

Section IdenticalRatings.
Variable metric : metric_fn float float.

(** Identical ratings at distance zero: the sum over the ordered pairs is
    zero on both paths. *)
Lemma identical_sum_over_pairs (np_metric : bool) (grades : list float) (v : float) :
  Forall (eq v) grades -> zero_distance metric v ->
  exists s, sum_over_pairs metric np_metric grades grades = Ok s /\ is_zero s.
Proof.
  intros Hsame [Hscalar Hvector]. unfold sum_over_pairs. destruct np_metric.
  - eexists. split; [reflexivity | ].
    apply fold_py_add_is_zero; [left; reflexivity | ].
    apply Forall_forall. intros s Hs. apply in_map_iff in Hs.
    destruct Hs as (col & <- & Hcol). unfold pair_columns in Hcol.
    apply in_map_iff in Hcol. destruct Hcol as (gj & <- & Hgj).
    rewrite Forall_forall in Hsame. rewrite <- (Hsame gj Hgj).
    assert (Hterms : Forall is_zero (map (fun gi => vector metric gi v) grades)).
    { apply Forall_forall. intros t Ht. apply in_map_iff in Ht.
      destruct Ht as (gi & <- & Hgi). rewrite <- (Hsame gi Hgi). exact Hvector. }
    destruct (map (fun gi => vector metric gi v) grades) as [ | t ts];
      cbn [np_sum]; [left; reflexivity | ].
    inversion Hterms; subst. apply fold_py_add_is_zero; assumption.
  - unfold pair_terms.
    assert (Hz : exists z, scalar metric v v = Ok z /\ is_zero z).
    { destruct Hscalar as [E | E]; eexists; (split; [exact E | ]);
        [left | right]; reflexivity. }
    destruct Hz as (z & Ez & Hz).
    rewrite (map_result_ext_in _ (fun _ => Ok z)).
    + rewrite map_result_total. cbn [bind]. eexists. split; [reflexivity | ].
      apply fold_py_add_is_zero; [left; reflexivity | ].
      apply Forall_forall. intros t Ht. apply in_map_iff in Ht.
      destruct Ht as (p & <- & _). exact Hz.
    + intros [gi gj] Hp. apply in_prod_iff in Hp. destruct Hp as [Hgi Hgj].
      rewrite Forall_forall in Hsame. cbn [fst snd].
      rewrite <- (Hsame gi Hgi), <- (Hsame gj Hgj). exact Ez.
Qed.

Lemma identical_observed_disagreement (np_metric : bool) (units : units_t float) :
  all_pairable units -> (1 <= count_values units)%nat ->
  identical_ratings metric units ->
  Do_spec metric np_metric units = Ok zero.
Proof.
  intros Hall Hn Hid. unfold Do_spec.
  rewrite (map_result_ext_in _ (fun _ => Ok (zero : float))).
  - rewrite map_result_total. cbn [bind]. rewrite fold_add_zero.
    + apply truediv_zero_positive, float_of_Z_positive. lia.
    + apply Forall_forall. intros q Hq. apply in_map_iff in Hq.
      destruct Hq as (? & <- & _). reflexivity.
  - intros grades Hin. unfold values in Hin. apply in_map_iff in Hin.
    destruct Hin as (p & <- & Hp).
    unfold all_pairable in Hall. unfold identical_ratings in Hid.
    rewrite Forall_forall in Hall, Hid.
    specialize (Hall p Hp). destruct (Hid p Hp) as (v & Hsame & Hzero).
    unfold item_disagreement.
    destruct (identical_sum_over_pairs np_metric (snd p) v Hsame Hzero)
      as (s & -> & Hs).
    cbn [bind]. rewrite (is_zero_to_float s Hs).
    apply truediv_zero_positive, float_of_Z_positive. lia.
Qed.
End IdenticalRatings.

(** C1, as stated, fails: two coders who both rate both items 0, so that
    every coder gives identical ratings to every item; normalisation
    succeeds with n = 4, but under the ratio metric the run returns NaN on
    the numpy path (and raises [ZeroDivisionError] on the scalar path, which
    a caller's own copy of the metric takes), not 1.0. *)
Lemma identical_zero_ratings_not_one :
  pairable_units raw_eqb RMasked true two_coders_zero convert_float None
    = Ok ([(IdInt 0, [zero; zero]); (IdInt 1, [zero; zero])], 4%nat)
  /\ alpha true ratio_metric two_coders_zero None = Ok S754_nan
  /\ alpha true my_ratio two_coders_zero None = Err ZeroDivisionError
  /\ SFeqb S754_nan (one : float) = false.
Proof.
  repeat split; vm_compute; reflexivity.
Qed.


(** ** The normaliser builds the item ratings mapping *)

Lemma item_eqb_eq (a b : item_id) : item_eqb a b = true <-> a = b.
Proof.
  destruct a as [i | s], b as [j | t]; cbn; split; try discriminate.
  - intros E. apply Z.eqb_eq in E. congruence.
  - intros [= ->]. apply Z.eqb_refl.
  - intros E. apply String.eqb_eq in E. congruence.
  - intros [= ->]. apply String.eqb_refl.
Qed.

Lemma item_eqb_refl (a : item_id) : item_eqb a a = true.
Proof. apply item_eqb_eq. reflexivity. Qed.

Lemma item_eqb_neq (a b : item_id) : item_eqb a b = false <-> a <> b.
Proof.
  rewrite <- item_eqb_eq. destruct (item_eqb a b); split; congruence.
Qed.

Lemma existsb_item_eqb (k : item_id) (ks : list item_id) :
  existsb (item_eqb k) ks = true <-> In k ks.
Proof.
  rewrite existsb_exists. split.
  - intros (x & Hx & E). apply item_eqb_eq in E. congruence.
  - intros Hk. exists k. split; [exact Hk | apply item_eqb_refl].
Qed.

Section NormalizerLemmas.
Variables Raw V : Type.
Variable rawb : Raw -> Raw -> bool.
Variable convert_items : Raw -> result V.

Lemma add_group_retained (ms : list Raw) (rs : list (item_id * Raw)) :
  forall units : units_t V,
  for_each (add_rating rawb convert_items ms) rs units =
  (ps <- map_result (convert_rating convert_items)
           (filter (fun p => negb (is_in rawb (snd p) ms)) rs) ;;
   Ok (fold_left (fun units p => units_append units (fst p) (snd p)) ps units)).
Proof.
  induction rs as [ | [it g] rs IH]; intros units; cbn [for_each filter];
    [reflexivity | ].
  unfold add_rating at 1. cbn [snd].
  destruct (is_in rawb g ms); cbn [negb bind].
  - apply IH.
  - cbn [map_result]. unfold convert_rating at 1. cbn [fst snd].
    destruct (convert_items g) as [v | e]; cbn [bind]; [ | reflexivity].
    rewrite IH. destruct (map_result _ _); reflexivity.
Qed.

Lemma collect_units_from (ms : list Raw) (data : list (group Raw)) :
  forall units : units_t V,
  for_each (add_group rawb convert_items ms) data units =
  (ps <- map_result (convert_rating convert_items) (retained rawb ms data) ;;
   Ok (fold_left (fun units p => units_append units (fst p) (snd p)) ps units)).
Proof.
  unfold retained.
  induction data as [ | d data IH]; intros units; cbn [for_each map concat];
    [reflexivity | ].
  unfold add_group at 1. rewrite add_group_retained, filter_app, map_result_app.
  destruct (map_result _ (filter _ (diter d))) as [ps | e]; cbn [bind]; [ | reflexivity].
  rewrite IH. destruct (map_result _ _) as [qs | e]; cbn [bind]; [ | reflexivity].
  rewrite fold_left_app. reflexivity.
Qed.

(** The loop of lines 68-84 converts the retained ratings in order and
    groups them. *)
Lemma collect_units_group_ratings (ms : list Raw) (data : list (group Raw)) :
  collect_units rawb convert_items ms data =
  (ps <- map_result (convert_rating convert_items) (retained rawb ms data) ;;
   Ok (group_ratings ps)).
Proof. apply collect_units_from. Qed.

Lemma first_keys_snoc (ps : list (item_id * V)) (p : item_id * V) :
  first_keys (ps ++ [p]) =
  if existsb (item_eqb (fst p)) (first_keys ps) then first_keys ps
  else first_keys ps ++ [fst p].
Proof. unfold first_keys. rewrite fold_left_app. reflexivity. Qed.

Lemma first_keys_In (ps : list (item_id * V)) (it : item_id) :
  In it (first_keys ps) <-> In it (map fst ps).
Proof.
  induction ps as [ | p ps IH] using rev_ind; [reflexivity | ].
  rewrite first_keys_snoc, map_app, in_app_iff. cbn [map In].
  destruct (existsb (item_eqb (fst p)) (first_keys ps)) eqn:E.
  - apply existsb_item_eqb in E. rewrite IH. intuition (subst; tauto).
  - rewrite in_app_iff, IH. cbn [In]. tauto.
Qed.

Lemma first_keys_NoDup (ps : list (item_id * V)) : NoDup (first_keys ps).
Proof.
  induction ps as [ | p ps IH] using rev_ind; [constructor | ].
  rewrite first_keys_snoc.
  destruct (existsb (item_eqb (fst p)) (first_keys ps)) eqn:E; [exact IH | ].
  apply NoDup_app; [exact IH | repeat constructor; intros [] | ].
  intros x Hx [<- | []].
  apply existsb_item_eqb in Hx. congruence.
Qed.

Lemma ratings_of_snoc (it : item_id) (ps : list (item_id * V)) (p : item_id * V) :
  ratings_of it (ps ++ [p]) =
  ratings_of it ps ++ (if item_eqb (fst p) it then [snd p] else []).
Proof.
  unfold ratings_of. rewrite filter_app, map_app. cbn [filter].
  destruct (item_eqb (fst p) it); reflexivity.
Qed.

Lemma ratings_of_not_In (it : item_id) (ps : list (item_id * V)) :
  ~ In it (map fst ps) -> ratings_of it ps = [].
Proof.
  unfold ratings_of. induction ps as [ | p ps IH]; intros Hn; cbn [filter map];
    [reflexivity | ].
  destruct (item_eqb (fst p) it) eqn:E.
  - apply item_eqb_eq in E. exfalso. apply Hn. left. exact E.
  - apply IH. intros Hin. apply Hn. right. exact Hin.
Qed.

(** Appending a rating to a mapping with distinct keys. *)
Lemma units_append_map (f : item_id -> list V) (ks : list item_id)
    (it : item_id) (v : V) :
  NoDup ks ->
  units_append (map (fun k => (k, f k)) ks) it v =
  map (fun k => (k, f k ++ (if item_eqb it k then [v] else []))) ks
  ++ (if existsb (item_eqb it) ks then [] else [(it, [v])]).
Proof.
  induction ks as [ | k ks IH]; intros Hnd; cbn [map units_append existsb app];
    [reflexivity | ].
  inversion Hnd as [ | ? ? Hk Hnd']; subst.
  destruct (item_eqb k it) eqn:E.
  - apply item_eqb_eq in E. subst k. rewrite item_eqb_refl. cbn [orb].
    rewrite app_nil_r. f_equal.
    apply map_ext_in. intros k Hin.
    assert (Hne : item_eqb it k = false)
      by (apply item_eqb_neq; intros ->; contradiction).
    rewrite Hne, app_nil_r. reflexivity.
  - assert (Hne : item_eqb it k = false).
    { apply item_eqb_neq. apply item_eqb_neq in E. congruence. }
    rewrite Hne, app_nil_r. cbn [orb]. rewrite (IH Hnd'). reflexivity.
Qed.

(** The loop's accumulation is the mapping of the specification: the items
    in the order of their first rating, each with its ratings in processing
    order. *)
Lemma group_ratings_mapping (ps : list (item_id * V)) :
  group_ratings ps = ratings_mapping ps.
Proof.
  unfold ratings_mapping.
  induction ps as [ | p ps IH] using rev_ind; [reflexivity | ].
  unfold group_ratings in *. rewrite fold_left_app. cbn [fold_left]. rewrite IH.
  rewrite units_append_map by apply first_keys_NoDup.
  rewrite first_keys_snoc.
  destruct (existsb (item_eqb (fst p)) (first_keys ps)) eqn:E.
  - rewrite app_nil_r. apply map_ext. intros k. rewrite ratings_of_snoc. reflexivity.
  - rewrite map_app. cbn [map]. f_equal.
    + apply map_ext. intros k. rewrite ratings_of_snoc. reflexivity.
    + rewrite ratings_of_snoc, item_eqb_refl.
      rewrite ratings_of_not_In; [reflexivity | ].
      rewrite <- first_keys_In. intros Hin. apply existsb_item_eqb in Hin. congruence.
Qed.
End NormalizerLemmas.

(** ** Which exceptions a run can end with *)

Lemma map_result_Err_inv {A B : Type} (f : A -> result B) (xs : list A) (e : exn) :
  map_result f xs = Err e -> exists x, In x xs /\ f x = Err e.
Proof.
  induction xs as [ | x xs IH]; cbn [map_result]; [discriminate | ].
  destruct (f x) as [y | e'] eqn:Ex; cbn [bind].
  - destruct (map_result f xs) as [ys | e'']; cbn [bind]; [discriminate | ].
    intros [= ->]. destruct (IH eq_refl) as (x' & Hin & Hx').
    exists x'. split; [right; exact Hin | exact Hx'].
  - intros [= ->]. exists x. split; [left; reflexivity | exact Ex].
Qed.

Lemma map_result_cases {A B : Type} (f : A -> result B) (xs : list A) :
  (exists ys, map_result f xs = Ok ys) \/
  (exists x e, In x xs /\ f x = Err e /\ map_result f xs = Err e).
Proof.
  destruct (map_result f xs) as [ys | e] eqn:E; [left; eauto | right].
  destruct (map_result_Err_inv f xs e E) as (x & Hin & Hx). eauto.
Qed.

Lemma truediv_nonzero (vec : bool) (a d : float) :
  eqb d (zero : float) = false -> truediv vec a d = Ok (div a d).
Proof. intros Hd. unfold truediv. rewrite Hd. destruct vec; reflexivity. Qed.

Section RunResults.
Variable V : Type.
Variable metric : metric_fn V float.

Lemma sum_over_pairs_result (np_metric : bool) (g1 g2 ratings : list V) :
  incl g1 ratings -> incl g2 ratings ->
  returns_or_metric_raises metric np_metric ratings
    (sum_over_pairs metric np_metric g1 g2).
Proof.
  intros H1 H2. unfold sum_over_pairs. destruct np_metric; [left; eauto | ].
  unfold pair_terms.
  destruct (map_result_cases (fun p => scalar metric (fst p) (snd p))
              (ordered_pairs g1 g2)) as [(ts & ->) | (p & e & Hin & Hp & ->)].
  - left. cbn. eauto.
  - right. split; [reflexivity | ]. exists (fst p), (snd p), e.
    unfold ordered_pairs in Hin. destruct p as [a b]. apply in_prod_iff in Hin.
    destruct Hin as [Ha Hb]. cbn [fst snd] in *. auto.
Qed.

Lemma item_disagreement_result (np_metric : bool) (grades ratings : list V) :
  (2 <= length grades)%nat -> incl grades ratings ->
  returns_or_metric_raises metric np_metric ratings
    (item_disagreement metric np_metric grades).
Proof.
  intros Hk Hincl. unfold item_disagreement.
  destruct (sum_over_pairs_result np_metric grades grades ratings Hincl Hincl)
    as [(s & ->) | (Hnp & a & b & e & Ha & Hb & Hab & ->)].
  - left. cbn [bind]. rewrite truediv_nonzero by (apply float_of_Z_nonzero; lia).
    eauto.
  - right. split; [exact Hnp | ]. exists a, b, e. auto.
Qed.

Lemma incl_values (units : units_t V) (grades : list V) :
  In grades (values units) -> incl grades (concat (values units)).
Proof. intros Hg x Hx. apply in_concat. exists grades. split; assumption. Qed.

Lemma Do_spec_result (np_metric : bool) (units : units_t V) :
  all_pairable units -> (1 <= count_values units)%nat ->
  returns_or_metric_raises metric np_metric (concat (values units))
    (Do_spec metric np_metric units).
Proof.
  intros Hall Hn. unfold Do_spec.
  destruct (map_result_cases (item_disagreement metric np_metric) (values units))
    as [(qs & ->) | (g & e & Hg & Hge & ->)].
  - left. cbn [bind]. rewrite truediv_nonzero by (apply float_of_Z_nonzero; lia).
    eauto.
  - pose proof (incl_values units g Hg) as Hincl.
    unfold values in Hg. apply in_map_iff in Hg. destruct Hg as (p & <- & Hp).
    unfold all_pairable in Hall. rewrite Forall_forall in Hall.
    destruct (item_disagreement_result np_metric (snd p) _ (Hall p Hp) Hincl)
      as [(q & Hq) | (Hnp & a & b & e' & Ha & Hb & Hab & He')]; [congruence | ].
    right. split; [exact Hnp | ]. exists a, b, e'.
    repeat split; try assumption. cbn [bind]. congruence.
Qed.

Lemma De_spec_result (np_metric : bool) (units : units_t V) :
  (2 <= count_values units)%nat ->
  returns_or_metric_raises metric np_metric (concat (values units))
    (De_spec metric np_metric units).
Proof.
  intros Hn. unfold De_spec. cbv zeta.
  destruct (map_result_cases
              (fun gg => s <- sum_over_pairs metric np_metric (fst gg) (snd gg) ;;
                         Ok (to_float s))
              (list_prod (values units) (values units)))
    as [(bs & ->) | (gg & e & Hin & Hgg & ->)].
  - left. cbn [bind].
    rewrite truediv_nonzero
      by (apply float_of_Z_nonzero; apply Z.mul_pos_pos; lia).
    eauto.
  - destruct gg as [g1 g2]. apply in_prod_iff in Hin. destruct Hin as [Hg1 Hg2].
    cbn [fst snd] in Hgg.
    destruct (sum_over_pairs_result np_metric g1 g2 _
                (incl_values units g1 Hg1) (incl_values units g2 Hg2))
      as [(s & Hs) | (Hnp & a & b & e' & Ha & Hb & Hab & He')].
    + rewrite Hs in Hgg. discriminate.
    + right. split; [exact Hnp | ]. exists a, b, e'.
      repeat split; try assumption.
      rewrite He' in Hgg. cbn [bind] in *. congruence.
Qed.

Lemma alpha_spec_result (np_metric : bool) (ratings : list V) (Do : float)
    (De : result float) :
  returns_or_metric_raises metric np_metric ratings De ->
  returns_or_metric_raises metric np_metric ratings (alpha_spec Do De).
Proof.
  intros HDe. unfold alpha_spec. destruct (eqb Do zero); [left; eauto | ].
  destruct HDe as [(De' & ->) | (Hnp & a & b & e & Ha & Hb & Hab & ->)].
  - left. cbn [bind]. destruct (eqb De' zero); eauto.
  - right. split; [exact Hnp | ]. exists a, b, e. auto.
Qed.

Section WithInput.
Variable Raw : Type.
Variable rawb : Raw -> Raw -> bool.
Variable masked_singleton : Raw.
Variable np : bool.

(** Past the insufficient-data check a run returns a coefficient, unless
    the metric raises on a pair of the pairable ratings. *)
Lemma krippendorff_alpha_result (data : list (group Raw)) (force_vecmath : bool)
    (convert_items : Raw -> result V) (missing_items : option (list Raw))
    (units : units_t V) (n : nat) :
  pairable_units rawb masked_singleton np data convert_items missing_items
    = Ok (units, n) ->
  returns_or_metric_raises metric (use_np_metric metric np force_vecmath)
    (concat (values units))
    (krippendorff_alpha metric rawb masked_singleton np data force_vecmath
       convert_items missing_items).
Proof.
  intros Hunits.
  pose proof (pairable_units_all_pairable _ _ _ _ _ _ _ _ _ _ Hunits)
        as (Hall & Hn).
  pose proof (pairable_units_count _ _ _ _ _ _ _ _ _ _ Hunits) as (Hcount & _).
  unfold krippendorff_alpha. rewrite Hunits. cbn [bind]. subst n.
  rewrite observed_disagreement_Do_spec, expected_disagreement_De_spec.
  destruct (Do_spec_result (use_np_metric metric np force_vecmath) units Hall)
    as [(Do & ->) | (Hnp & a & b & e & Ha & Hb & Hab & ->)]; [lia | | ].
  - cbn [bind]. rewrite coefficient_alpha_spec.
    apply alpha_spec_result, De_spec_result. exact Hn.
  - right. split; [exact Hnp | ]. exists a, b, e. auto.
Qed.

End WithInput.
End RunResults.




(** ** Permutations, comprehensions and folds *)

Lemma Permutation_filter {A : Type} (f : A -> bool) (l l' : list A) :
  Permutation l l' -> Permutation (filter f l) (filter f l').
Proof.
  induction 1 as [ | x l l' _ IH | x y l | l l' l'' _ IH1 _ IH2]; cbn [filter].
  - constructor.
  - destruct (f x); [constructor | ]; exact IH.
  - destruct (f x), (f y); try reflexivity. constructor.
  - etransitivity; eassumption.
Qed.

Lemma Permutation_concat {A : Type} (ls ls' : list (list A)) :
  Permutation ls ls' -> Permutation (concat ls) (concat ls').
Proof.
  induction 1 as [ | x l l' _ IH | x y l | l l' l'' _ IH1 _ IH2]; cbn [concat].
  - constructor.
  - apply Permutation_app_head. exact IH.
  - rewrite !app_assoc. apply Permutation_app_tail, Permutation_app_comm.
  - etransitivity; eassumption.
Qed.

Lemma Permutation_list_prod {A B : Type} (xs xs' : list A) (ys ys' : list B) :
  Permutation xs xs' -> Permutation ys ys' ->
  Permutation (list_prod xs ys) (list_prod xs' ys').
Proof.
  intros Hx Hy. transitivity (list_prod xs ys').
  - clear Hx. induction xs as [ | x xs IH]; cbn [list_prod]; [constructor | ].
    apply Permutation_app; [apply Permutation_map; exact Hy | exact IH].
  - clear Hy. induction Hx as [ | x l l' _ IH | x y l | l l' l'' _ IH1 _ IH2];
      cbn [list_prod].
    + constructor.
    + apply Permutation_app_head. exact IH.
    + rewrite !app_assoc. apply Permutation_app_tail, Permutation_app_comm.
    + etransitivity; eassumption.
Qed.

(** A comprehension over a permuted list gives the permuted comprehension,
    when it raises nothing. *)
Lemma map_result_Permutation {A B : Type} (f : A -> result B) (xs xs' : list A) :
  Permutation xs xs' ->
  forall ys, map_result f xs = Ok ys ->
  exists ys', map_result f xs' = Ok ys' /\ Permutation ys ys'.
Proof.
  induction 1 as [ | x l l' _ IH | x y l | l l' l'' _ IH1 _ IH2]; intros ys;
    cbn [map_result].
  - intros [= <-]. exists []. split; [reflexivity | constructor].
  - destruct (f x) as [b | ]; cbn [bind]; [ | discriminate].
    destruct (map_result f l) as [bs | ]; cbn [bind]; [ | discriminate].
    intros [= <-]. destruct (IH bs eq_refl) as (bs' & -> & Hp).
    exists (b :: bs'). split; [reflexivity | constructor; exact Hp].
  - destruct (f y) as [b | ]; cbn [bind]; [ | discriminate].
    destruct (f x) as [c | ]; cbn [bind]; [ | discriminate].
    destruct (map_result f l) as [bs | ]; cbn [bind]; [ | discriminate].
    intros [= <-]. exists (c :: b :: bs). split; [reflexivity | constructor].
  - intros Hys. destruct (IH1 ys Hys) as (ys1 & H1 & Hp1).
    destruct (IH2 ys1 H1) as (ys2 & H2 & Hp2).
    exists ys2. split; [exact H2 | etransitivity; eassumption].
Qed.

(** A comprehension over a list related element by element gives the same
    result, when the function agrees on related elements. *)
Lemma map_result_Forall2 {A B : Type} (R : A -> A -> Prop) (f : A -> result B)
    (xs xs' : list A) :
  (forall x x' y, R x x' -> f x = Ok y -> f x' = Ok y) ->
  Forall2 R xs xs' ->
  forall ys, map_result f xs = Ok ys -> map_result f xs' = Ok ys.
Proof.
  intros Hf. induction 1 as [ | x x' l l' Hx _ IH]; intros ys; cbn [map_result];
    [trivial | ].
  destruct (f x) as [b | ] eqn:Ex; cbn [bind]; [ | discriminate].
  destruct (map_result f l) as [bs | ]; cbn [bind]; [ | discriminate].
  intros [= <-]. rewrite (Hf x x' b Hx Ex), (IH bs eq_refl). reflexivity.
Qed.

Lemma Forall2_list_prod {A : Type} (R : A -> A -> Prop) (xs xs' ys ys' : list A) :
  Forall2 R xs xs' -> Forall2 R ys ys' ->
  Forall2 (fun p q => R (fst p) (fst q) /\ R (snd p) (snd q))
    (list_prod xs ys) (list_prod xs' ys').
Proof.
  intros Hx Hy. induction Hx as [ | x x' l l' Hxx _ IH]; cbn [list_prod];
    [constructor | ].
  apply Forall2_app; [ | exact IH].
  clear IH. induction Hy as [ | y y' m m' Hyy _ IH]; cbn [map]; constructor; auto.
Qed.

Lemma Forall2_map_same {A B : Type} (R : B -> B -> Prop) (f g : A -> B) (l : list A) :
  (forall x, R (f x) (g x)) -> Forall2 R (map f l) (map g l).
Proof.
  intros H. induction l as [ | x l IH]; cbn [map]; constructor; auto.
Qed.

(** A fold is invariant under permutation when the order of two steps does
    not matter. *)
Lemma fold_left_Permutation {A S : Type} (f : S -> A -> S) (l l' : list A) :
  (forall s x y, f (f s x) y = f (f s y) x) ->
  Permutation l l' -> forall s, fold_left f l s = fold_left f l' s.
Proof.
  intros Hf. induction 1 as [ | x l l' _ IH | x y l | l l' l'' _ IH1 _ IH2];
    intros s; cbn [fold_left].
  - reflexivity.
  - apply IH.
  - rewrite Hf. reflexivity.
  - rewrite IH1. apply IH2.
Qed.

(** ** The item ratings mapping under a reordering of the coders *)

Section MappingOrder.
Variable V : Type.

Lemma first_keys_Permutation (ps ps' : list (item_id * V)) :
  Permutation ps ps' -> Permutation (first_keys ps) (first_keys ps').
Proof.
  intros Hp. apply NoDup_Permutation; try apply first_keys_NoDup.
  intros it. rewrite !first_keys_In. split; apply Permutation_in.
  - apply Permutation_map. exact Hp.
  - apply Permutation_map. symmetry. exact Hp.
Qed.

Lemma ratings_of_Permutation (it : item_id) (ps ps' : list (item_id * V)) :
  Permutation ps ps' -> Permutation (ratings_of it ps) (ratings_of it ps').
Proof.
  intros Hp. unfold ratings_of. apply Permutation_map, Permutation_filter. exact Hp.
Qed.

Lemma ratings_mapping_Permutation (ps ps' : list (item_id * V)) :
  Permutation ps ps' ->
  same_up_to_order (ratings_mapping ps) (ratings_mapping ps').
Proof.
  intros Hp. exists (map (fun it => (it, ratings_of it ps)) (first_keys ps')). split.
  - apply Permutation_map, first_keys_Permutation. exact Hp.
  - apply Forall2_map_same. intros it. cbn [fst snd].
    split; [reflexivity | apply ratings_of_Permutation; exact Hp].
Qed.

Lemma same_up_to_order_pairable (u u' : units_t V) :
  same_up_to_order u u' -> same_up_to_order (pairable u) (pairable u').
Proof.
  intros (w & Hp & Hw). exists (pairable w). split.
  - apply Permutation_filter. exact Hp.
  - clear Hp. unfold pairable.
    induction Hw as [ | p q l l' [Hk Hpq] _ IH]; cbn [filter]; [constructor | ].
    rewrite (Permutation_length Hpq).
    destruct (1 <? length (snd q))%nat; [constructor; auto | exact IH].
Qed.

Lemma same_up_to_order_count (u u' : units_t V) :
  same_up_to_order u u' -> count_values u = count_values u'.
Proof.
  intros (w & Hp & Hw). unfold count_values.
  rewrite (Permutation_list_sum (Permutation_map (fun p => length (snd p)) Hp)).
  clear Hp. induction Hw as [ | p q l l' [Hk Hpq] _ IH]; cbn [map list_sum];
    [reflexivity | ].
  cbn. rewrite (Permutation_length Hpq). f_equal. exact IH.
Qed.

Lemma same_up_to_order_values (u u' : units_t V) :
  same_up_to_order u u' ->
  exists gw, Permutation (values u) gw /\
             Forall2 (@Permutation V) gw (values u').
Proof.
  intros (w & Hp & Hw). exists (values w). split.
  - apply Permutation_map. exact Hp.
  - clear Hp. unfold values.
    induction Hw as [ | p q l l' [Hk Hpq] _ IH]; cbn [map]; constructor; auto.
Qed.
End MappingOrder.

Section NormalizerOrder.
Variables Raw V : Type.
Variable rawb : Raw -> Raw -> bool.
Variable masked_singleton : Raw.
Variable np : bool.
Variable convert_items : Raw -> result V.

Lemma retained_Permutation (ms : list Raw) (data data' : list (group Raw)) :
  Permutation data data' ->
  Permutation (retained rawb ms data) (retained rawb ms data').
Proof.
  intros Hp. unfold retained.
  apply Permutation_filter, Permutation_concat, Permutation_map. exact Hp.
Qed.

Lemma collect_units_Permutation (ms : list Raw) (data data' : list (group Raw))
    (u : units_t V) :
  Permutation data data' ->
  collect_units rawb convert_items ms data = Ok u ->
  exists u', collect_units rawb convert_items ms data' = Ok u' /\
             same_up_to_order u u'.
Proof.
  intros Hp. rewrite !collect_units_group_ratings.
  destruct (map_result _ (retained rawb ms data)) as [ps | e] eqn:E; cbn [bind];
    [ | discriminate].
  intros [= <-].
  destruct (map_result_Permutation _ _ _ (retained_Permutation ms _ _ Hp) ps E)
    as (ps' & -> & Hps).
  exists (group_ratings ps'). split; [reflexivity | ].
  rewrite !group_ratings_mapping. apply ratings_mapping_Permutation. exact Hps.
Qed.

(** Reordering the coders gives the same pairable mapping up to the order of
    the items and of the ratings of an item, and the same number of pairable
    values. *)
Lemma pairable_units_Permutation (data data' : list (group Raw))
    (missing_items : option (list Raw)) (units : units_t V) (n : nat) :
  Permutation data data' ->
  pairable_units rawb masked_singleton np data convert_items missing_items
    = Ok (units, n) ->
  exists units',
    pairable_units rawb masked_singleton np data' convert_items missing_items
      = Ok (units', n)
    /\ same_up_to_order units units'.
Proof.
  intros Hp. unfold pairable_units. cbv zeta.
  destruct (collect_units rawb convert_items _ data) as [u | e] eqn:E; cbn [bind];
    [ | discriminate].
  destruct (collect_units_Permutation _ _ _ _ Hp E) as (u' & -> & Hu). cbn [bind].
  pose proof (same_up_to_order_pairable _ _ _ Hu) as Hpu.
  rewrite <- (same_up_to_order_count _ _ _ Hpu).
  destruct (count_values (pairable u) =? 0)%nat; [discriminate | ].
  intros [= <- <-]. exists (pairable u'). split; [reflexivity | exact Hpu].
Qed.
End NormalizerOrder.

(** ** Sums in exact arithmetic *)

Section ExactSums.
Context {F : Type} `{ExactAdd F}.

Lemma add_swap (s x y : F) : add (add s x) y = add (add s y) x.
Proof.
  rewrite <- !add_assoc. f_equal. apply add_comm.
Qed.


Lemma py_add_comm (v w : pynum F) : py_add v w = py_add w v.
Proof.
  destruct v as [i | x], w as [j | y]; cbn [py_add to_float].
  - f_equal. apply Z.add_comm.
  - f_equal. apply add_comm.
  - f_equal. apply add_comm.
  - f_equal. apply add_comm.
Qed.

Lemma py_add_assoc (u v w : pynum F) :
  py_add u (py_add v w) = py_add (py_add u v) w.
Proof.
  destruct u as [i | x], v as [j | y], w as [k | z]; cbn [py_add to_float];
    try (f_equal; apply add_assoc).
  - f_equal. apply Z.add_assoc.
  - f_equal. rewrite of_Z_add. apply add_assoc.
  - f_equal. rewrite of_Z_add. apply add_assoc.
Qed.

Lemma py_add_0_l (v : pynum F) : py_add (PInt 0) v = v.
Proof.
  destruct v as [i | x]; cbn [py_add to_float]; [reflexivity | ].
  rewrite of_Z_0, add_zero_l. reflexivity.
Qed.

Lemma py_add_swap (s v w : pynum F) : py_add (py_add s v) w = py_add (py_add s w) v.
Proof.
  rewrite <- !py_add_assoc. f_equal. apply py_add_comm.
Qed.

Lemma fold_py_add_py_sum (vs : list (pynum F)) :
  forall s, fold_left py_add vs s = py_add s (py_sum vs).
Proof.
  unfold py_sum. induction vs as [ | v vs IH]; intros s; cbn [fold_left].
  - rewrite py_add_comm, py_add_0_l. reflexivity.
  - rewrite (IH (py_add s v)), (IH (py_add (PInt 0) v)), py_add_0_l.
    symmetry. apply py_add_assoc.
Qed.

Lemma py_sum_Permutation (vs vs' : list (pynum F)) :
  Permutation vs vs' -> py_sum vs = py_sum vs'.
Proof.
  intros Hp. unfold py_sum. apply fold_left_Permutation; [ | exact Hp].
  apply py_add_swap.
Qed.

(** In exact arithmetic numpy's sum of an array is the builtin sum. *)
Lemma np_sum_py_sum (vs : list (pynum F)) : np_sum vs = py_sum vs.
Proof.
  destruct vs as [ | v vs]; [reflexivity | ].
  unfold py_sum. cbn [np_sum fold_left]. rewrite py_add_0_l. reflexivity.
Qed.

Lemma py_sum_concat (ls : list (list (pynum F))) :
  py_sum (map py_sum ls) = py_sum (concat ls).
Proof.
  unfold py_sum at 1 3.
  generalize (PInt 0 : pynum F) as s.
  induction ls as [ | l ls IH]; intros s; cbn [map concat fold_left]; [reflexivity | ].
  rewrite fold_left_app, IH. f_equal. symmetry. apply fold_py_add_py_sum.
Qed.

Lemma fold_add_Permutation (qs qs' : list F) (z : F) :
  Permutation qs qs' -> fold_left add qs z = fold_left add qs' z.
Proof.
  intros Hp. apply fold_left_Permutation; [apply add_swap | exact Hp].
Qed.

Variable V : Type.
Variable metric : metric_fn V F.

Lemma sum_over_pairs_Permutation (np_metric : bool) (g1 g1' g2 g2' : list V)
    (s : pynum F) :
  Permutation g1 g1' -> Permutation g2 g2' ->
  sum_over_pairs metric np_metric g1 g2 = Ok s ->
  sum_over_pairs metric np_metric g1' g2' = Ok s.
Proof.
  intros H1 H2. unfold sum_over_pairs. destruct np_metric.
  - intros [= <-]. f_equal. symmetry. apply py_sum_Permutation.
    unfold pair_columns. rewrite !map_map.
    transitivity (map (fun gj => np_sum (map (fun gi => vector metric gi gj) g1)) g2').
    + apply Permutation_map. exact H2.
    + rewrite (map_ext (fun gj => np_sum (map (fun gi => vector metric gi gj) g1))
                 (fun gj => np_sum (map (fun gi => vector metric gi gj) g1')));
        [reflexivity | ].
      intros gj. rewrite !np_sum_py_sum. apply py_sum_Permutation, Permutation_map.
      exact H1.
  - unfold pair_terms, ordered_pairs.
    destruct (map_result _ (list_prod g1 g2)) as [ts | e] eqn:E; cbn [bind];
      [ | discriminate].
    intros [= <-].
    destruct (map_result_Permutation _ _ _ (Permutation_list_prod _ _ _ _ H1 H2) ts E)
      as (ts' & -> & Hts).
    cbn [bind]. f_equal. symmetry. apply py_sum_Permutation. exact Hts.
Qed.

Lemma item_disagreement_Permutation (np_metric : bool) (g g' : list V) (q : F) :
  Permutation g g' ->
  item_disagreement metric np_metric g = Ok q ->
  item_disagreement metric np_metric g' = Ok q.
Proof.
  intros Hp. unfold item_disagreement.
  destruct (sum_over_pairs metric np_metric g g) as [s | e] eqn:E; cbn [bind];
    [ | discriminate].
  rewrite (sum_over_pairs_Permutation np_metric g g' g g' s Hp Hp E). cbn [bind].
  rewrite (Permutation_length Hp). trivial.
Qed.

(** In exact arithmetic the observed disagreement does not depend on the
    order of the items nor on the order of the ratings of an item. *)
Lemma Do_spec_same_up_to_order (np_metric : bool) (u u' : units_t V) (Do : F) :
  same_up_to_order u u' ->
  Do_spec metric np_metric u = Ok Do -> Do_spec metric np_metric u' = Ok Do.
Proof.
  intros Hu. unfold Do_spec.
  rewrite <- (same_up_to_order_count _ _ _ Hu).
  destruct (same_up_to_order_values _ _ _ Hu) as (gw & Hp & Hw).
  destruct (map_result _ (values u)) as [qs | e] eqn:E; cbn [bind]; [ | discriminate].
  destruct (map_result_Permutation _ _ _ Hp qs E) as (qs' & E' & Hqs).
  rewrite (map_result_Forall2 (@Permutation V) _ gw (values u')
             (fun g g' q => item_disagreement_Permutation np_metric g g' q) Hw qs' E').
  cbn [bind]. rewrite (fold_add_Permutation qs qs' zero Hqs). trivial.
Qed.

(** Likewise the expected disagreement. *)
Lemma De_spec_same_up_to_order (np_metric : bool) (u u' : units_t V) (De : F) :
  same_up_to_order u u' ->
  De_spec metric np_metric u = Ok De -> De_spec metric np_metric u' = Ok De.
Proof.
  intros Hu. unfold De_spec. cbv zeta.
  rewrite <- (same_up_to_order_count _ _ _ Hu).
  destruct (same_up_to_order_values _ _ _ Hu) as (gw & Hp & Hw).
  set (block := fun gg : list V * list V =>
         s <- sum_over_pairs metric np_metric (fst gg) (snd gg) ;; Ok (to_float s)).
  destruct (map_result block (list_prod (values u) (values u))) as [bs | e] eqn:E;
    cbn [bind]; [ | discriminate].
  destruct (map_result_Permutation block _ _
              (Permutation_list_prod _ _ _ _ Hp Hp) bs E) as (bs' & E' & Hbs).
  assert (E2 : map_result block (list_prod (values u') (values u')) = Ok bs').
  { apply (map_result_Forall2
             (fun p q => Permutation (fst p) (fst q) /\ Permutation (snd p) (snd q))
             block (list_prod gw gw)); [ | apply Forall2_list_prod; exact Hw | exact E'].
    intros p q y [H1 H2]. unfold block.
    destruct (sum_over_pairs metric np_metric (fst p) (snd p)) as [s | e] eqn:Es;
      cbn [bind]; [ | discriminate].
    rewrite (sum_over_pairs_Permutation np_metric _ _ _ _ s H1 H2 Es). trivial. }
  rewrite E2. cbn [bind]. rewrite (fold_add_Permutation bs bs' zero Hbs). trivial.
Qed.
End ExactSums.

(** ** Mapping form and positional form *)

Lemma enumerate_from_fst {A : Type} (xs : list A) :
  forall i : Z,
  map fst (enumerate_from i xs) =
  map (fun k => IdInt (i + Z.of_nat k)) (seq 0 (length xs)).
Proof.
  induction xs as [ | x xs IH]; intros i; cbn [enumerate_from length seq map];
    [reflexivity | ].
  rewrite IH, <- seq_shift, map_map. f_equal.
  - cbn [fst]. f_equal. lia.
  - apply map_ext. intros k. f_equal. lia.
Qed.

Lemma enumerate_from_snd {A : Type} (xs : list A) :
  forall i : Z, map snd (enumerate_from i xs) = xs.
Proof.
  induction xs as [ | x xs IH]; intros i; cbn [enumerate_from map]; [reflexivity | ].
  rewrite IH. reflexivity.
Qed.

Lemma retained_same {Raw : Type} (rawb : Raw -> Raw -> bool) (ms : list Raw)
    (data data' : list (group Raw)) :
  Forall2 (same_retained_ratings rawb ms) data data' ->
  retained rawb ms data = retained rawb ms data'.
Proof.
  unfold retained. induction 1 as [ | d d' l l' Hd _ IH]; cbn [map concat];
    [reflexivity | ].
  rewrite !filter_app, IH, Hd. reflexivity.
Qed.

(** C5, as stated, fails: [mapping_form_unordered] holds, coder by coder,
    the same entries as [positional_form] (key i with the value of position
    i, the missing marker included), its first mapping listing key 2 before
    key 1; the two runs return alphas that differ in the last bits, on both
    paths, because the items enter [units] in a different order and the
    floating-point sum of the observed disagreement rounds differently. *)
Lemma mapping_order_changes_alpha :
  Forall2 same_entries mapping_form_unordered positional_form
  /\ alpha true nominal_metric positional_form star
     = Ok (float_of (-5764607523034232) (-54))
  /\ alpha true nominal_metric mapping_form_unordered star
     = Ok (float_of (-5764607523034228) (-54))
  /\ alpha false nominal_metric positional_form star
     = Ok (float_of (-5764607523034232) (-54))
  /\ alpha false nominal_metric mapping_form_unordered star
     = Ok (float_of (-5764607523034228) (-54))
  /\ SFeqb (float_of (-5764607523034232) (-54)) (float_of (-5764607523034228) (-54))
     = false.
Proof.
  split; [ | repeat split; vm_compute; reflexivity].
  unfold mapping_form_unordered, positional_form.
  repeat (apply Forall2_cons; [intros p; cbn; tauto | ]).
  apply Forall2_nil.
Qed.

Section Forms.
Context {F : Type} `{Numeric F}.
Variables V Raw : Type.
Variable metric : metric_fn V F.
Variable rawb : Raw -> Raw -> bool.
Variable masked_singleton : Raw.
Variable np : bool.

(** C5, amended.  A positional sequence is read as the mapping from the
    positions 0, 1, 2, ... to its values, in this order.  Two datasets whose
    groups have, coder by coder, the same (item, value) pairs in the same
    iteration order once the missing entries are left out - such as a
    sequence of positional sequences and the sequence of mappings that list
    key i with the value of position i in ascending order of the keys -
    give the identical result. *)
Theorem krippendorff_alpha_mapping_or_positional
    (data data' : list (group Raw)) (force_vecmath : bool)
    (convert_items : Raw -> result V) (missing_items : option (list Raw)) :
  Forall2 (same_retained_ratings rawb (maskitems masked_singleton np missing_items))
    data data' ->
  (forall vs : list Raw,
     map fst (diter (PositionalGroup vs))
       = map (fun k => IdInt (Z.of_nat k)) (seq 0 (length vs))
     /\ map snd (diter (PositionalGroup vs)) = vs)
  /\ krippendorff_alpha metric rawb masked_singleton np data force_vecmath
       convert_items missing_items
     = krippendorff_alpha metric rawb masked_singleton np data' force_vecmath
         convert_items missing_items.
Proof.
  intros Hsame. split.
  - intros vs. cbn [diter]. unfold enumerate. split.
    + rewrite enumerate_from_fst. apply map_ext. intros k. reflexivity.
    + apply enumerate_from_snd.
  - unfold krippendorff_alpha, pairable_units. cbv zeta.
    rewrite !collect_units_group_ratings, (retained_same _ _ _ _ Hsame).
    reflexivity.
Qed.
End Forms.

(** The theorem on [mapping_form] and [positional_form]. *)
Lemma krippendorff_alpha_mapping_or_positional_witness :
  alpha true nominal_metric mapping_form star
  = alpha true nominal_metric positional_form star.
Proof.
  apply (krippendorff_alpha_mapping_or_positional float raw nominal_metric raw_eqb
           RMasked true mapping_form positional_form false convert_float star).
  repeat constructor.
Defined.

(** ** Reordering the coders *)

#[export] Instance exact_add : ExactAdd Qc.
Proof.
  split.
  - intros x y. apply Qcplus_comm.
  - intros x y z. apply Qcplus_assoc.
  - intros x. apply Qcplus_0_l.
  - reflexivity.
  - intros i j. apply Qc_is_canon. unfold of_Z, add, exact, Qcplus, Q2Qc.
    cbn [this]. rewrite !Qred_correct, inject_Z_plus. reflexivity.
Qed.

(** C6, as stated, fails: [four_coders_swapped] is [four_coders] with the
    first two coders exchanged; under the nominal metric, which is
    symmetric, the two runs return alphas that differ in the last bits, on
    both paths: the items enter [units] in a different order, and the
    floating-point sum of the observed disagreement rounds differently. *)
Lemma coder_order_changes_alpha :
  Permutation four_coders four_coders_swapped
  /\ alpha true nominal_metric four_coders star
     = Ok (float_of (-4648877034705008) (-56))
  /\ alpha true nominal_metric four_coders_swapped star
     = Ok (float_of (-4648877034705024) (-56))
  /\ alpha false nominal_metric four_coders star
     = Ok (float_of (-4648877034705008) (-56))
  /\ alpha false nominal_metric four_coders_swapped star
     = Ok (float_of (-4648877034705024) (-56))
  /\ SFeqb (float_of (-4648877034705008) (-56)) (float_of (-4648877034705024) (-56))
     = false.
Proof.
  split; [apply perm_swap | repeat split; vm_compute; reflexivity].
Qed.

Section CoderOrder.
Context {F : Type} `{ExactAdd F}.
Variables V Raw : Type.
Variable metric : metric_fn V F.
Variable rawb : Raw -> Raw -> bool.
Variable masked_singleton : Raw.
Variable np : bool.

(** C6, amended.  For every dataset, every permutation of the sequence of
    coder rating groups and every metric, the permuted dataset gives the
    same pairable item ratings mapping up to the order of the items and the
    order of the ratings of an item, and the same number n of pairable
    values; the observed and the expected disagreement are sums of the same
    terms in another order, so that in exact arithmetic (addition
    associative and commutative) the run on the permuted dataset returns the
    same alpha.  In floating-point arithmetic the two alphas can differ by
    rounding. *)
Theorem krippendorff_alpha_coder_order
    (data data' : list (group Raw)) (force_vecmath : bool)
    (convert_items : Raw -> result V) (missing_items : option (list Raw)) :
  Permutation data data' ->
  (forall units n,
     pairable_units rawb masked_singleton np data convert_items missing_items
       = Ok (units, n) ->
     exists units',
       pairable_units rawb masked_singleton np data' convert_items missing_items
         = Ok (units', n)
       /\ same_up_to_order units units')
  /\ (forall a,
        krippendorff_alpha metric rawb masked_singleton np data force_vecmath
          convert_items missing_items = Ok a ->
        krippendorff_alpha metric rawb masked_singleton np data' force_vecmath
          convert_items missing_items = Ok a).
Proof.
  intros Hp. split.
  - intros units n. apply pairable_units_Permutation. exact Hp.
  - intros a. unfold krippendorff_alpha.
    destruct (pairable_units rawb masked_singleton np data convert_items
                missing_items) as [[units n] | e] eqn:E; cbn [bind]; [ | discriminate].
    destruct (pairable_units_Permutation _ _ _ _ _ _ _ _ _ _ _ Hp E)
      as (units' & -> & Hu).
    cbn [bind].
    pose proof (pairable_units_count _ _ _ _ _ _ _ _ _ _ E) as (-> & _).
    intros Hrun. rewrite (same_up_to_order_count _ _ _ Hu). revert Hrun.
    rewrite !observed_disagreement_Do_spec, !expected_disagreement_De_spec.
    destruct (Do_spec metric _ units) as [Do | e] eqn:EDo; cbn [bind];
      [ | discriminate].
    rewrite (Do_spec_same_up_to_order V metric _ units units' Do Hu EDo). cbn [bind].
    rewrite !coefficient_alpha_spec. unfold alpha_spec.
    destruct (eqb Do zero); [trivial | ].
    destruct (De_spec metric _ units) as [De | e] eqn:EDe; cbn [bind];
      [ | discriminate].
    rewrite (De_spec_same_up_to_order V metric _ units units' De Hu EDe). trivial.
Qed.
End CoderOrder.

(** The theorem over exact rationals, on [four_coders] and the same coders
    with the first two exchanged. *)
Lemma krippendorff_alpha_coder_order_witness :
  exists a,
    alpha_exact true nominal_metric four_coders star = Ok a
    /\ alpha_exact true nominal_metric four_coders_swapped star = Ok a.
Proof.
  destruct (alpha_exact true nominal_metric four_coders star) as [a | e] eqn:E.
  - exists a. split; [reflexivity | ].
    apply (proj2 (krippendorff_alpha_coder_order Qc raw nominal_metric raw_eqb
                    RMasked true four_coders four_coders_swapped false
                    convert_exact star (perm_swap _ _ _))).
    exact E.
  - exfalso. vm_compute in E. discriminate.
Defined.

(** ** The numpy path and the scalar path *)

Lemma map_result_impl {A B : Type} (f g : A -> result B) (xs : list A) (ys : list B) :
  (forall x y, In x xs -> f x = Ok y -> g x = Ok y) ->
  map_result f xs = Ok ys -> map_result g xs = Ok ys.
Proof.
  revert ys. induction xs as [ | x xs IH]; intros ys Hfg; cbn [map_result];
    [trivial | ].
  destruct (f x) as [b | ] eqn:Ex; cbn [bind]; [ | discriminate].
  destruct (map_result f xs) as [bs | ]; cbn [bind]; [ | discriminate].
  intros [= <-]. rewrite (Hfg x b (or_introl eq_refl) Ex).
  rewrite (IH bs); [reflexivity | | reflexivity].
  intros x' y' Hin. apply Hfg. right. exact Hin.
Qed.

Lemma map_result_Ok_map {A B : Type} (f : A -> result B) (g : A -> B) (xs : list A)
    (ys : list B) :
  (forall x y, f x = Ok y -> g x = y) ->
  map_result f xs = Ok ys -> ys = map g xs.
Proof.
  intros Hfg. revert ys. induction xs as [ | x xs IH]; intros ys; cbn [map_result map].
  - intros [= <-]. reflexivity.
  - destruct (f x) as [b | ] eqn:Ex; cbn [bind]; [ | discriminate].
    destruct (map_result f xs) as [bs | ]; cbn [bind]; [ | discriminate].
    intros [= <-]. rewrite (Hfg x b Ex), (IH bs eq_refl). reflexivity.
Qed.

(** *** Sums of integers *)


Lemma zsum_app (xs ys : list Z) : zsum (xs ++ ys) = zsum xs + zsum ys.
Proof.
  unfold zsum. induction xs as [ | x xs IH]; cbn [app fold_right]; lia.
Qed.

Lemma zsum_concat (zss : list (list Z)) : zsum (map zsum zss) = zsum (concat zss).
Proof.
  induction zss as [ | zs zss IH]; cbn [map concat]; [reflexivity | ].
  rewrite zsum_app, <- IH. reflexivity.
Qed.

Lemma zsum_Permutation (xs ys : list Z) : Permutation xs ys -> zsum xs = zsum ys.
Proof.
  unfold zsum.
  induction 1 as [ | x l l' _ IH | x y l | l l' l'' _ IH1 _ IH2]; cbn [fold_right];
    lia.
Qed.

Section IntegerSums.
Context {F : Type} `{Numeric F}.

Lemma fold_py_add_int (vs : list (pynum F)) :
  Forall is_int vs ->
  forall a : Z, fold_left py_add vs (PInt a) = PInt (a + zsum (map int_of vs)).
Proof.
  induction 1 as [ | v vs [i ->] _ IH]; intros a; cbn [fold_left map py_add int_of].
  - f_equal. unfold zsum. cbn. lia.
  - rewrite IH. f_equal. unfold zsum. cbn [fold_right]. lia.
Qed.

Lemma py_sum_int (vs : list (pynum F)) :
  Forall is_int vs -> py_sum vs = PInt (zsum (map int_of vs)).
Proof.
  intros Hvs. unfold py_sum. rewrite (fold_py_add_int vs Hvs 0). reflexivity.
Qed.

Lemma np_sum_int (vs : list (pynum F)) :
  Forall is_int vs -> np_sum vs = PInt (zsum (map int_of vs)).
Proof.
  intros Hvs. destruct vs as [ | v vs]; [reflexivity | ].
  inversion Hvs as [ | ? ? [i ->] Hvs']; subst. cbn [np_sum map int_of].
  rewrite (fold_py_add_int vs Hvs' i). reflexivity.
Qed.

Variable V : Type.
Variable metric : metric_fn V F.

(** For a metric that counts - integers on both readings, the same ones -
    the numpy path and the scalar path add up to the same integer. *)
Lemma counting_sum_over_pairs (g1 g2 : list V) :
  (forall a b, exists i, scalar metric a b = Ok (PInt i) /\ vector metric a b = PInt i) ->
  sum_over_pairs metric true g1 g2 = sum_over_pairs metric false g1 g2.
Proof.
  intros Hcount. unfold sum_over_pairs, pair_terms.
  rewrite (map_result_ext_in _
             (fun p => Ok (vector metric (fst p) (snd p)))).
  - rewrite map_result_total. cbn [bind]. f_equal.
    assert (Hint : forall (l : list (V * V)),
              Forall is_int (map (fun p => vector metric (fst p) (snd p)) l)).
    { intros l. apply Forall_forall. intros v Hv. apply in_map_iff in Hv.
      destruct Hv as (p & <- & _).
      destruct (Hcount (fst p) (snd p)) as (i & _ & ->). exists i. reflexivity. }
    rewrite (py_sum_int _ (Hint _)).
    assert (Hcols : forall col, In col (pair_columns metric g1 g2) ->
              Forall is_int col).
    { intros col Hcol. unfold pair_columns in Hcol. apply in_map_iff in Hcol.
      destruct Hcol as (gj & <- & _). apply Forall_forall. intros v Hv.
      apply in_map_iff in Hv. destruct Hv as (gi & <- & _).
      destruct (Hcount gi gj) as (i & _ & ->). exists i. reflexivity. }
    rewrite (map_ext_in np_sum (fun col => PInt (zsum (map int_of col))))
      by (intros col Hcol; apply np_sum_int, Hcols, Hcol).
    rewrite py_sum_int
      by (apply Forall_forall; intros v Hv; apply in_map_iff in Hv;
          destruct Hv as (col & <- & _); eexists; reflexivity).
    f_equal. rewrite map_map. cbn [int_of].
    rewrite <- (map_map (map int_of) zsum), zsum_concat, <- concat_map.
    apply zsum_Permutation, Permutation_map, pair_columns_ordered_pairs.
  - intros p _. destruct (Hcount (fst p) (snd p)) as (i & -> & ->). reflexivity.
Qed.
End IntegerSums.

(** *** The nominal metric in binary64 *)

Lemma nominal_sum_over_pairs (g1 g2 : list float) :
  sum_over_pairs nominal_metric true g1 g2 = sum_over_pairs nominal_metric false g1 g2.
Proof.
  apply counting_sum_over_pairs. intros a b. eexists. split; reflexivity.
Qed.

Lemma nominal_Do_spec (units : units_t float) :
  all_pairable units -> (1 <= count_values units)%nat ->
  Do_spec nominal_metric true units = Do_spec nominal_metric false units.
Proof.
  intros Hall Hn. unfold Do_spec.
  rewrite (map_result_ext_in (item_disagreement nominal_metric true)
             (item_disagreement nominal_metric false)).
  - apply bind_ext. intros shares.
    rewrite !truediv_nonzero by (apply float_of_Z_nonzero; lia). reflexivity.
  - intros grades Hin. unfold values in Hin. apply in_map_iff in Hin.
    destruct Hin as (p & <- & Hp). unfold all_pairable in Hall.
    rewrite Forall_forall in Hall. specialize (Hall p Hp).
    unfold item_disagreement. rewrite nominal_sum_over_pairs.
    apply bind_ext. intros Du.
    rewrite !truediv_nonzero by (apply float_of_Z_nonzero; lia). reflexivity.
Qed.

Lemma nominal_De_spec (units : units_t float) :
  (2 <= count_values units)%nat ->
  De_spec nominal_metric true units = De_spec nominal_metric false units.
Proof.
  intros Hn. unfold De_spec. cbv zeta.
  rewrite (map_result_ext_in
             (fun gg => s <- sum_over_pairs nominal_metric true (fst gg) (snd gg) ;;
                        Ok (to_float s))
             (fun gg => s <- sum_over_pairs nominal_metric false (fst gg) (snd gg) ;;
                        Ok (to_float s)))
    by (intros gg _; rewrite nominal_sum_over_pairs; reflexivity).
  apply bind_ext. intros blocks.
  rewrite !truediv_nonzero
    by (apply float_of_Z_nonzero; apply Z.mul_pos_pos; lia).
  reflexivity.
Qed.

(** *** Any metric in exact arithmetic *)

Section ExactPaths.
Context {F : Type} `{ExactAdd F}.
Variable V : Type.
Variable metric : metric_fn V F.
Hypothesis vector_scalar : forall a b x, scalar metric a b = Ok x -> vector metric a b = x.

Lemma truediv_vec (a d q : F) : truediv false a d = Ok q -> truediv true a d = Ok q.
Proof.
  unfold truediv. destruct (eqb d zero); [discriminate | trivial].
Qed.

Lemma exact_sum_over_pairs (g1 g2 : list V) (s : pynum F) :
  sum_over_pairs metric false g1 g2 = Ok s -> sum_over_pairs metric true g1 g2 = Ok s.
Proof.
  unfold sum_over_pairs, pair_terms.
  destruct (map_result _ (ordered_pairs g1 g2)) as [ts | e] eqn:E; cbn [bind];
    [ | discriminate].
  intros [= <-]. f_equal.
  rewrite (map_result_Ok_map _ (fun p => vector metric (fst p) (snd p)) _ ts
             (fun p x => vector_scalar (fst p) (snd p) x) E).
  rewrite (map_ext np_sum py_sum np_sum_py_sum), py_sum_concat.
  apply py_sum_Permutation, pair_columns_ordered_pairs.
Qed.

Lemma exact_item_disagreement (g : list V) (q : F) :
  item_disagreement metric false g = Ok q -> item_disagreement metric true g = Ok q.
Proof.
  unfold item_disagreement.
  destruct (sum_over_pairs metric false g g) as [s | e] eqn:E; cbn [bind];
    [ | discriminate].
  rewrite (exact_sum_over_pairs g g s E). cbn [bind]. apply truediv_vec.
Qed.

Lemma exact_Do_spec (units : units_t V) (Do : F) :
  Do_spec metric false units = Ok Do -> Do_spec metric true units = Ok Do.
Proof.
  unfold Do_spec.
  destruct (map_result (item_disagreement metric false) (values units))
    as [qs | e] eqn:E; cbn [bind]; [ | discriminate].
  rewrite (map_result_impl _ (item_disagreement metric true) _ qs
             (fun g q _ => exact_item_disagreement g q) E).
  cbn [bind]. apply truediv_vec.
Qed.

Lemma exact_De_spec (units : units_t V) (De : F) :
  De_spec metric false units = Ok De -> De_spec metric true units = Ok De.
Proof.
  unfold De_spec. cbv zeta.
  set (block := fun (vec : bool) (gg : list V * list V) =>
         s <- sum_over_pairs metric vec (fst gg) (snd gg) ;; Ok (to_float s)).
  change (bind (map_result (block false) (list_prod (values units) (values units)))
            (fun blocks => truediv false (fold_left add blocks zero)
               (of_Z (Z.of_nat (count_values units)
                      * (Z.of_nat (count_values units) - 1)))) = Ok De ->
          bind (map_result (block true) (list_prod (values units) (values units)))
            (fun blocks => truediv true (fold_left add blocks zero)
               (of_Z (Z.of_nat (count_values units)
                      * (Z.of_nat (count_values units) - 1)))) = Ok De).
  destruct (map_result (block false) (list_prod (values units) (values units)))
    as [bs | e] eqn:E; cbn [bind]; [ | discriminate].
  assert (E2 : map_result (block true) (list_prod (values units) (values units))
               = Ok bs).
  { apply (map_result_impl (block false) (block true) _ bs); [ | exact E].
    intros gg y _. unfold block.
    destruct (sum_over_pairs metric false (fst gg) (snd gg)) as [s | e] eqn:Es;
      cbn [bind]; [ | discriminate].
    rewrite (exact_sum_over_pairs _ _ s Es). trivial. }
  rewrite E2. cbn [bind]. apply truediv_vec.
Qed.
End ExactPaths.

(** In the floating-point model the two paths round differently under the
    interval metric: three coders rate one item 0.1, 0.3 and 0.2. *)
Lemma interval_paths_round_differently :
  observed_of true interval_metric three_coders_tenths None
    = Ok (float_of 5764607523034233 (-58))
  /\ observed_of false interval_metric three_coders_tenths None
     = Ok (float_of 5764607523034234 (-58)).
Proof.
  split; vm_compute; reflexivity.
Qed.

(** C7, as stated, fails: on two coders who rate the first item 0 and the
    second 1, the ratio metric returns NaN on the numpy path and raises
    [ZeroDivisionError] on the scalar path; so does the caller's own copy of
    the ratio metric, with and without [force_vecmath]. *)
Lemma vectorized_path_differs :
  alpha true ratio_metric two_coders_zero_one None = Ok S754_nan
  /\ alpha false ratio_metric two_coders_zero_one None = Err ZeroDivisionError
  /\ krippendorff_alpha my_ratio raw_eqb RMasked true two_coders_zero_one true
       convert_float None = Ok S754_nan
  /\ krippendorff_alpha my_ratio raw_eqb RMasked true two_coders_zero_one false
       convert_float None = Err ZeroDivisionError.
Proof.
  repeat split; vm_compute; reflexivity.
Qed.

(** C7, amended.  For the nominal metric the numpy path and the scalar path
    compute identical observed and expected disagreements (both add integer
    counts) and the same coefficient from them.  For any metric whose array
    evaluation agrees element by element with its scalar evaluation, the
    numpy path adds the same metric values as the scalar path, grouped one
    array per rating: in exact arithmetic (addition associative and
    commutative), whenever the scalar path returns a result the numpy path
    returns the same one, for the observed disagreement, the expected
    disagreement and the whole run with and without [force_vecmath].  In
    floating-point arithmetic the two paths can differ by rounding: they do
    under the interval metric on one item rated 0.1, 0.3 and 0.2.  Where the
    scalar evaluation raises, the numpy path of a built-in metric does not:
    once the normalisation succeeded it returns a coefficient, computed from
    IEEE infinities and NaN, which is NaN for coders [0, 1] and [0, 1] and
    1.0 for coders [1, -1] and [2, -1] under the ratio metric. *)
Theorem vectorized_path_equivalence :
  (forall units : units_t float,
     all_pairable units -> (2 <= count_values units)%nat ->
     observed_disagreement nominal_metric true units (count_values units)
       = observed_disagreement nominal_metric false units (count_values units)
     /\ expected_disagreement nominal_metric true units (count_values units)
        = expected_disagreement nominal_metric false units (count_values units)
     /\ forall (Do : float) (De : result float),
          coefficient true Do De = coefficient false Do De)
  /\ (forall (F : Type) (num : Numeric F) (exact_num : ExactAdd F) (V : Type)
        (metric : metric_fn V F),
      (forall a b x, scalar metric a b = Ok x -> vector metric a b = x) ->
      (forall (units : units_t V) (Do : F),
         observed_disagreement metric false units (count_values units) = Ok Do ->
         observed_disagreement metric true units (count_values units) = Ok Do)
      /\ (forall (units : units_t V) (De : F),
            expected_disagreement metric false units (count_values units) = Ok De ->
            expected_disagreement metric true units (count_values units) = Ok De)
      /\ (forall (Raw : Type) (rawb : Raw -> Raw -> bool) (masked_singleton : Raw)
            (np : bool) (data : list (group Raw)) (convert_items : Raw -> result V)
            (missing_items : option (list Raw)) (a : F),
            krippendorff_alpha metric rawb masked_singleton np data false
              convert_items missing_items = Ok a ->
            krippendorff_alpha metric rawb masked_singleton np data true
              convert_items missing_items = Ok a))
  /\ (observed_of true interval_metric three_coders_tenths None
        = Ok (float_of 5764607523034233 (-58))
      /\ observed_of false interval_metric three_coders_tenths None
         = Ok (float_of 5764607523034234 (-58)))
  /\ (forall (metric : metric_fn float float) (Raw : Type)
        (rawb : Raw -> Raw -> bool) (masked_singleton : Raw)
        (data : list (group Raw)) (force_vecmath : bool)
        (convert_items : Raw -> result float) (missing_items : option (list Raw))
        (units : units_t float) (n : nat),
      builtin_metric metric ->
      pairable_units rawb masked_singleton true data convert_items missing_items
        = Ok (units, n) ->
      exists a,
        krippendorff_alpha metric rawb masked_singleton true data force_vecmath
          convert_items missing_items = Ok a)
  /\ (alpha false ratio_metric two_coders_zero_one None = Err ZeroDivisionError
      /\ alpha true ratio_metric two_coders_zero_one None = Ok S754_nan
      /\ alpha false ratio_metric two_coders_cross_zero_sum None
         = Err ZeroDivisionError
      /\ alpha true ratio_metric two_coders_cross_zero_sum None = Ok one).
Proof.
  split; [ | split; [ | split; [ | split]]].
  - intros units Hall Hn. split; [ | split].
    + rewrite !observed_disagreement_Do_spec. apply nominal_Do_spec; [exact Hall | lia].
    + rewrite !expected_disagreement_De_spec. apply nominal_De_spec. exact Hn.
    + intros Do De. rewrite !coefficient_alpha_spec. reflexivity.
  - intros F num exact_num V metric Hvs. split; [ | split].
    + intros units Do. rewrite !observed_disagreement_Do_spec.
      apply exact_Do_spec. exact Hvs.
    + intros units De. rewrite !expected_disagreement_De_spec.
      apply exact_De_spec. exact Hvs.
    + intros Raw rawb masked_singleton np data convert_items missing_items a.
      unfold krippendorff_alpha.
      destruct (pairable_units rawb masked_singleton np data convert_items
                  missing_items) as [[units n] | e] eqn:E; cbn [bind];
        [ | discriminate].
      pose proof (pairable_units_count _ _ _ _ _ _ _ _ _ _ E) as (-> & _).
      unfold use_np_metric. destruct np; cbn [andb]; [ | trivial].
      destruct (is_builtin metric); cbn [orb]; [trivial | ].
      rewrite !observed_disagreement_Do_spec, !expected_disagreement_De_spec.
      destruct (Do_spec metric false units) as [Do | e] eqn:EDo; cbn [bind];
        [ | discriminate].
      rewrite (exact_Do_spec V metric Hvs units Do EDo). cbn [bind].
      rewrite !coefficient_alpha_spec. unfold alpha_spec.
      destruct (eqb Do zero); [trivial | ].
      destruct (De_spec metric false units) as [De | e] eqn:EDe; cbn [bind];
        [ | discriminate].
      rewrite (exact_De_spec V metric Hvs units De EDe). trivial.
  - exact interval_paths_round_differently.
  - intros metric Raw rawb masked_singleton data force_vecmath convert_items
      missing_items units n Hb Hunits.
    destruct (krippendorff_alpha_result float metric Raw rawb masked_singleton true
                data force_vecmath convert_items missing_items units n Hunits)
      as [Hok | (Hnp & _)]; [exact Hok | exfalso].
    destruct Hb as [-> | [-> | ->]]; discriminate Hnp.
  - repeat split; vm_compute; reflexivity.
Qed.

(** The theorem on the mapping of the two coders over items A and B, for
    the nominal metric in binary64 and for the interval metric over the
    rationals. *)
Lemma vectorized_path_equivalence_witness :
  observed_of true nominal_metric two_coders_AB None
  = observed_of false nominal_metric two_coders_AB None
  /\ exists Do : Qc,
       observed_disagreement interval_metric false
         [(IdStr "A", [of_Z 1; of_Z 1]); (IdStr "B", [of_Z 1; of_Z 5])] 4 = Ok Do
       /\ observed_disagreement interval_metric true
            [(IdStr "A", [of_Z 1; of_Z 1]); (IdStr "B", [of_Z 1; of_Z 5])] 4 = Ok Do.
Proof.
  assert (Hall : all_pairable [(IdStr "A", [float_of 1 0; float_of 1 0]);
                               (IdStr "B", [float_of 1 0; float_of 5 0])])
    by (repeat constructor).
  assert (Hn : (2 <= count_values [(IdStr "A", [float_of 1 0; float_of 1 0]);
                                   (IdStr "B", [float_of 1 0; float_of 5 0])])%nat)
    by (cbn; lia).
  split; [exact (proj1 (proj1 vectorized_path_equivalence _ Hall Hn)) | ].
  assert (Hvs : forall (a b : Qc) (x : pynum Qc),
            scalar interval_metric a b = Ok x -> vector interval_metric a b = x)
    by (intros a b x [= <-]; reflexivity).
  destruct (observed_disagreement (interval_metric : metric_fn Qc Qc) false
              [(IdStr "A", [of_Z 1; of_Z 1]); (IdStr "B", [of_Z 1; of_Z 5])] 4)
    as [Do | e] eqn:E.
  - exists Do. split; [reflexivity | ].
    exact (proj1 (proj1 (proj2 vectorized_path_equivalence) Qc exact exact_add Qc
                    interval_metric Hvs)
             [(IdStr "A", [of_Z 1; of_Z 1]); (IdStr "B", [of_Z 1; of_Z 5])] Do E).
  - exfalso. vm_compute in E. discriminate.
Defined.

(** * More properties of the program *)

(** ** Binary64: comparison, and operations up to the sign *)

Lemma SFcompare_antisym (x y : float) :
  SFcompare y x = option_map CompOpp (SFcompare x y).
Proof.
  destruct x as [sx | sx | | sx mx ex], y as [sy | sy | | sy my ey]; cbn;
    try reflexivity;
    try (destruct sx; reflexivity); try (destruct sy; reflexivity);
    try (destruct sx, sy; reflexivity).
  assert (Hm : Pos.compare_cont Eq my mx = CompOpp (Pos.compare_cont Eq mx my))
    by (rewrite (Pos.compare_cont_antisym mx my Eq); reflexivity).
  destruct sx, sy; cbn; try reflexivity; f_equal;
    rewrite (Z.compare_antisym ex ey), Hm;
    destruct (ex ?= ey); cbn; try reflexivity;
    destruct (Pos.compare_cont Eq mx my); reflexivity.
Qed.

Lemma eqb_sym (x y : float) : eqb x y = eqb y x.
Proof.
  cbn [eqb binary64]. unfold SFeqb. rewrite (SFcompare_antisym x y).
  destruct (SFcompare x y) as [[ | | ] | ]; reflexivity.
Qed.

Lemma eqb_refl (x : float) : eqb x x = negb (is_nan x).
Proof.
  cbn [eqb binary64]. unfold SFeqb.
  destruct x as [s | s | | s m e]; cbn; try reflexivity; try (destruct s; reflexivity).
  destruct s; rewrite Z.compare_refl, Pos.compare_cont_refl; reflexivity.
Qed.

Lemma binary_round_aux_opp (m e : Z) (l : location) :
  binary_round_aux prec emax true m e l = SFopp (binary_round_aux prec emax false m e l).
Proof.
  unfold binary_round_aux.
  destruct (shr_fexp prec emax m e l) as [mrs1 e1].
  destruct (shr_fexp prec emax _ e1 loc_Exact) as [mrs2 e2].
  destruct (shr_m mrs2); try reflexivity.
  destruct (e2 <=? emax - prec); reflexivity.
Qed.

Lemma binary_round_aux_abs (s s' : bool) (m e : Z) (l : location) :
  SFabs (binary_round_aux prec emax s m e l) = SFabs (binary_round_aux prec emax s' m e l).
Proof.
  destruct s, s'; rewrite ?binary_round_aux_opp; try reflexivity;
    destruct (binary_round_aux prec emax false m e l); reflexivity.
Qed.

Lemma binary_normalize_opp_abs (z e : Z) :
  SFabs (binary_normalize prec emax (- z) e false) = SFabs (binary_normalize prec emax z e false).
Proof.
  destruct z as [ | p | p]; cbn [Z.opp binary_normalize]; try reflexivity;
    unfold binary_round; destruct (shl_align _ _ _) as [mz ez];
    apply binary_round_aux_abs.
Qed.

Lemma sub_abs_sym (a b : float) : SFabs (sub a b) = SFabs (sub b a).
Proof.
  destruct a as [sa | sa | | sa ma ea], b as [sb | sb | | sb mb eb];
    cbn [sub binary64 SFsub]; try reflexivity;
    try (destruct sa, sb; reflexivity).
  cbv zeta. rewrite (Z.min_comm eb ea).
  rewrite <- binary_normalize_opp_abs. f_equal. f_equal. lia.
Qed.

Lemma mul_self_abs (x y : float) : SFabs x = SFabs y -> mul x x = mul y y.
Proof.
  destruct x as [sx | sx | | sx mx ex], y as [sy | sy | | sy my ey];
    cbn [SFabs]; try discriminate; intros E; cbn [mul binary64 SFmul];
    try (destruct sx, sy; reflexivity); try reflexivity.
  injection E as -> ->.
  replace (xorb sx sx) with false by (destruct sx; reflexivity).
  replace (xorb sy sy) with false by (destruct sy; reflexivity). reflexivity.
Qed.

Lemma is_infinity_abs (x y : float) : SFabs x = SFabs y -> is_infinity x = is_infinity y.
Proof.
  destruct x, y; cbn; congruence.
Qed.

Lemma py_pow2_abs (x y : float) : SFabs x = SFabs y -> py_pow2 x = py_pow2 y.
Proof.
  intros E. unfold py_pow2. cbv zeta. cbn [overflows binary64].
  rewrite (mul_self_abs x y E), (is_infinity_abs x y E). reflexivity.
Qed.

Lemma add_comm_float (a b : float) : add a b = add b a.
Proof.
  destruct a as [sa | sa | | sa ma ea], b as [sb | sb | | sb mb eb];
    cbn [add binary64 SFadd]; try reflexivity;
    try (destruct sa, sb; reflexivity).
  cbv zeta. rewrite (Z.min_comm eb ea). f_equal. lia.
Qed.

Lemma div_abs (x x' y : float) : SFabs x = SFabs x' -> SFabs (div x y) = SFabs (div x' y).
Proof.
  destruct x as [sx | sx | | sx mx ex], x' as [sx' | sx' | | sx' mx' ex'];
    cbn [SFabs]; try discriminate; intros E;
    destruct y as [sy | sy | | sy my ey]; cbn [div binary64 SFdiv SFabs]; try reflexivity.
  injection E as -> ->.
  destruct (SFdiv_core_binary prec emax (Z.pos mx') ex' (Z.pos my) ey) as [[mz ez] lz].
  apply binary_round_aux_abs.
Qed.

Lemma sub_self (a : float) : is_finite a = true -> sub a a = zero.
Proof.
  destruct a as [s | s | | s m e]; cbn [is_finite]; try discriminate; intros _.
  - destruct s; reflexivity.
  - cbn [sub binary64 SFsub]. cbv zeta. rewrite Z.sub_diag. reflexivity.
Qed.

Lemma binary_round_positive (m : positive) (e : Z) :
  emin prec emax < e + Z.pos (digits2_pos m) ->
  is_positive (binary_round prec emax false m e) = true.
Proof.
  intros He. unfold binary_round, shl_align.
  destruct (fexp prec emax (Z.pos (digits2_pos m) + e) - e) as [ | n | n] eqn:En;
    try (apply binary_round_aux_positive; [lia | cbn [Zdigits2]; lia]).
  apply binary_round_aux_positive; [lia | ]. cbn [Zdigits2].
  assert (Hge : emin prec emax <= fexp prec emax (Z.pos (digits2_pos m) + e))
    by (unfold fexp; lia).
  lia.
Qed.

(** The sum of a canonical finite number with itself is not zero. *)
Lemma add_self_nonzero (a : float) :
  is_finite_nonzero a = true ->
  match add a a with
  | S754_finite _ _ _ | S754_infinity _ => True
  | _ => False
  end.
Proof.
  destruct a as [s | s | | s m e]; cbn [is_finite_nonzero]; try discriminate.
  intros Hb. unfold bounded, canonical_mantissa in Hb.
  apply andb_prop in Hb. destruct Hb as [Hc _]. apply Z.eqb_eq in Hc.
  cbn [add binary64 SFadd]. cbv zeta. rewrite Z.min_id.
  unfold shl_align. rewrite Z.sub_diag. cbn [fst].
  assert (Hd : Z.pos (digits2_pos m) <= Z.pos (digits2_pos (m + m))).
  { apply (Zdigits2_le (Z.pos m) (Z.pos (m + m))). lia. }
  assert (He : emin prec emax < e + Z.pos (digits2_pos (m + m))).
  { unfold fexp in Hc. pose proof (Pos2Z.is_pos (digits2_pos m)). lia. }
  pose proof (binary_round_positive (m + m) e He) as Hp.
  destruct s; cbn [cond_Zopp Z.opp Z.add binary_normalize].
  - unfold binary_round in *. destruct (shl_align _ _ _) as [mz ez].
    rewrite binary_round_aux_opp.
    destruct (binary_round_aux prec emax false (Z.pos mz) ez loc_Exact)
      as [ | [ | ] | | [ | ] ? ?]; cbn in Hp; try discriminate; exact I.
  - destruct (binary_round prec emax false (m + m) e)
      as [ | [ | ] | | [ | ] ? ?]; cbn in Hp; try discriminate; exact I.
Qed.

(** ** The three metrics *)

(** [nominal_metric] is symmetric and returns 0 or 1; the distance of a value to
    itself is 0, except for NaN, which differs from itself. *)
Theorem nominal_metric_symmetric (a b : float) :
  scalar nominal_metric a b = scalar nominal_metric b a
  /\ vector nominal_metric a b = vector nominal_metric b a
  /\ (nominal a b = PInt 0 \/ nominal a b = PInt 1)
  /\ nominal a a = PInt (if is_nan a then 1 else 0).
Proof.
  cbn [scalar vector nominal_metric]. unfold nominal.
  rewrite (eqb_sym b a), eqb_refl.
  repeat split.
  - destruct (eqb a b); [left | right]; reflexivity.
  - destruct (is_nan a); reflexivity.
Qed.

(** [interval_metric] is symmetric, exactly, on both readings: same value, same
    exception. *)
Theorem interval_metric_symmetric (a b : float) :
  scalar interval_metric a b = scalar interval_metric b a
  /\ vector interval_metric a b = vector interval_metric b a.
Proof.
  cbn [scalar vector interval_metric]. unfold np_pow2.
  rewrite (py_pow2_abs _ _ (sub_abs_sym a b)), (mul_self_abs _ _ (sub_abs_sym a b)).
  split; reflexivity.
Qed.

(** [ratio_metric] is symmetric, exactly, on both readings: same value, same
    exception. *)
Theorem ratio_metric_symmetric (a b : float) :
  scalar ratio_metric a b = scalar ratio_metric b a
  /\ vector ratio_metric a b = vector ratio_metric b a.
Proof.
  cbn [scalar vector ratio_metric]. unfold np_pow2, truediv.
  rewrite (add_comm_float b a).
  pose proof (div_abs _ _ (add a b) (sub_abs_sym a b)) as Hq.
  rewrite (mul_self_abs _ _ Hq). split; [ | reflexivity].
  destruct (eqb (add a b) zero); [reflexivity | ]. cbn [bind].
  rewrite (py_pow2_abs _ _ Hq). reflexivity.
Qed.

(** No metric returns a negative distance: the nominal one returns 0 or 1, the
    other two a float that is NaN or not negative, on both readings. *)
Theorem metrics_never_negative (a b : float) :
  (exists i, vector nominal_metric a b = PInt i /\ 0 <= i <= 1)
  /\ (exists x, vector interval_metric a b = PFloat x /\ nonneg_or_nan x = true)
  /\ (exists x, vector ratio_metric a b = PFloat x /\ nonneg_or_nan x = true)
  /\ (forall r, scalar interval_metric a b = Ok r ->
        exists x, r = PFloat x /\ nonneg_or_nan x = true)
  /\ (forall r, scalar ratio_metric a b = Ok r ->
        exists x, r = PFloat x /\ nonneg_or_nan x = true).
Proof.
  repeat split.
  - cbn [vector nominal_metric]. unfold nominal. eexists. split; [reflexivity | ].
    destruct (eqb a b); cbn; lia.
  - eexists. split; [reflexivity | apply mul_self_nonneg].
  - eexists. split; [reflexivity | apply mul_self_nonneg].
  - intros r. cbn [scalar interval_metric]. unfold py_pow2. cbv zeta.
    destruct (overflows _ _); cbn [bind]; [discriminate | ].
    intros [= <-]. eexists. split; [reflexivity | apply mul_self_nonneg].
  - intros r. cbn [scalar ratio_metric]. unfold truediv, py_pow2. cbv zeta.
    destruct (eqb (add a b) zero); cbn [bind]; [discriminate | ].
    destruct (overflows _ _); cbn [bind]; [discriminate | ].
    intros [= <-]. eexists. split; [reflexivity | apply mul_self_nonneg].
Qed.

(** The distance of a rating to itself is 0: for the nominal metric unless the
    rating is NaN, for the interval metric when it is finite, for the ratio
    metric when it is finite and not zero. *)
Theorem metrics_zero_on_identical (a : float) :
  (is_nan a = false -> zero_distance nominal_metric a)
  /\ (is_finite a = true -> zero_distance interval_metric a)
  /\ (is_finite_nonzero a = true -> zero_distance ratio_metric a).
Proof.
  unfold zero_distance. repeat split.
  - left. cbn [scalar nominal_metric]. unfold nominal. rewrite eqb_refl, H. reflexivity.
  - left. cbn [vector nominal_metric]. unfold nominal. rewrite eqb_refl, H. reflexivity.
  - right. cbn [scalar interval_metric]. rewrite (sub_self a H). reflexivity.
  - right. cbn [vector interval_metric]. rewrite (sub_self a H). reflexivity.
  - right. cbn [scalar ratio_metric]. unfold truediv.
    assert (Hf : is_finite a = true) by (destruct a; cbn in *; congruence).
    rewrite (sub_self a Hf). pose proof (add_self_nonzero a H) as Hs.
    destruct (add a a) as [ | [ | ] | | [ | ] m e]; try contradiction; reflexivity.
  - right. cbn [vector ratio_metric].
    assert (Hf : is_finite a = true) by (destruct a; cbn in *; congruence).
    rewrite (sub_self a Hf). pose proof (add_self_nonzero a H) as Hs.
    destruct (add a a) as [ | [ | ] | | [ | ] m e]; try contradiction; reflexivity.
Qed.

(** ** The coefficient of identical ratings *)

Lemma nominal_zero_distance (v : float) :
  is_nan v = false -> zero_distance nominal_metric v.
Proof.
  intros Hv. unfold zero_distance. cbn [scalar vector nominal_metric]. unfold nominal.
  rewrite eqb_refl, Hv. split; left; reflexivity.
Qed.

Lemma interval_zero_distance (v : float) :
  is_finite v = true -> zero_distance interval_metric v.
Proof.
  intros Hv. unfold zero_distance. cbn [scalar vector interval_metric].
  rewrite (sub_self v Hv). split; right; reflexivity.
Qed.

Lemma ratio_zero_distance (v : float) :
  is_finite_nonzero v = true -> zero_distance ratio_metric v.
Proof.
  intros Hv. unfold zero_distance. cbn [scalar vector ratio_metric]. unfold truediv.
  assert (Hf : is_finite v = true) by (destruct v; cbn in *; congruence).
  rewrite (sub_self v Hf). pose proof (add_self_nonzero v Hv) as Hs.
  destruct (add v v) as [ | [ | ] | | [ | ] m e]; try contradiction;
    split; right; reflexivity.
Qed.

Lemma same_rating_identical (metric : metric_fn float float) (ok : float -> bool)
    (units : units_t float) :
  (forall v, ok v = true -> zero_distance metric v) ->
  same_rating ok units -> identical_ratings metric units.
Proof.
  intros Hok. unfold same_rating, identical_ratings. apply Forall_impl.
  intros p (v & Hsame & Hv). exists v. split; [exact Hsame | apply Hok, Hv].
Qed.

(** C1, amended.  When normalisation succeeds, [krippendorff_alpha] returns
    1.0 if the observed disagreement Do equals 0, and otherwise 1 - Do/De,
    except that it also returns 1.0 if De equals 0 (an exception of the
    metric ends the run instead).  For a dataset in which all the ratings of
    every item are one value, Do is 0 and the result is 1.0 provided the
    metric gives distance 0 from that value to itself; that is so for the
    nominal metric on ratings that are not NaN, for the interval metric on
    finite ratings, and for the ratio metric on finite ratings other than
    zero. *)
Theorem krippendorff_alpha_coefficient
    (Raw : Type) (rawb : Raw -> Raw -> bool) (masked_singleton : Raw) (np : bool)
    (metric : metric_fn float float) (data : list (group Raw)) (force_vecmath : bool)
    (convert_items : Raw -> result float) (missing_items : option (list Raw))
    (units : units_t float) (n : nat) :
  pairable_units rawb masked_singleton np data convert_items missing_items
    = Ok (units, n) ->
  krippendorff_alpha metric rawb masked_singleton np data force_vecmath
    convert_items missing_items
  = (Do <- observed_disagreement metric (use_np_metric metric np force_vecmath)
             units n ;;
     if eqb Do zero then Ok one
     else De <- expected_disagreement metric (use_np_metric metric np force_vecmath)
                  units n ;;
          if eqb De zero then Ok one else Ok (sub one (div Do De)))
  /\ (identical_ratings metric units ->
      observed_disagreement metric (use_np_metric metric np force_vecmath) units n
        = Ok zero
      /\ krippendorff_alpha metric rawb masked_singleton np data force_vecmath
           convert_items missing_items = Ok one)
  /\ (metric = nominal_metric /\ same_rating (fun v => negb (is_nan v)) units
      \/ metric = interval_metric /\ same_rating is_finite units
      \/ metric = ratio_metric /\ same_rating is_finite_nonzero units ->
      krippendorff_alpha metric rawb masked_singleton np data force_vecmath
        convert_items missing_items = Ok one).
Proof.
  intros Hunits.
  assert (Hrule : krippendorff_alpha metric rawb masked_singleton np data
                    force_vecmath convert_items missing_items
                  = (Do <- observed_disagreement metric
                             (use_np_metric metric np force_vecmath) units n ;;
                     alpha_spec Do
                       (expected_disagreement metric
                          (use_np_metric metric np force_vecmath) units n))).
  { unfold krippendorff_alpha. rewrite Hunits. cbn [bind].
    apply bind_ext. intros Do. apply coefficient_alpha_spec. }
  pose proof (pairable_units_all_pairable _ _ _ _ _ _ _ _ _ _ Hunits)
        as (Hall & Hn).
  pose proof (pairable_units_count _ _ _ _ _ _ _ _ _ _ Hunits) as (Hcount & _).
  assert (Hzero : identical_ratings metric units ->
            observed_disagreement metric (use_np_metric metric np force_vecmath)
              units n = Ok zero).
  { intros Hid. subst n. rewrite observed_disagreement_Do_spec.
    apply identical_observed_disagreement; [assumption | lia | assumption]. }
  split; [exact Hrule | split].
  - intros Hid. split; [exact (Hzero Hid) | ].
    rewrite Hrule, (Hzero Hid). reflexivity.
  - intros Hsame.
    assert (Hid : identical_ratings metric units).
    { destruct Hsame as [[-> Hs] | [[-> Hs] | [-> Hs]]].
      - apply (same_rating_identical _ _ _ (fun v Hv =>
                 nominal_zero_distance v (proj1 (negb_true_iff _) Hv)) Hs).
      - apply (same_rating_identical _ _ _ interval_zero_distance Hs).
      - apply (same_rating_identical _ _ _ ratio_zero_distance Hs). }
    rewrite Hrule, (Hzero Hid). reflexivity.
Qed.

(** The theorem on two coders who agree on the items A, B and C: with the
    interval metric through the distance zero of each rating to itself, with
    the ratio metric through the ratings being finite and not zero. *)
Lemma krippendorff_alpha_coefficient_witness :
  (observed_of true interval_metric two_coders_agree None = Ok zero
   /\ alpha true interval_metric two_coders_agree None = Ok one)
  /\ alpha true ratio_metric two_coders_agree None = Ok one.
Proof.
  split.
  - refine (let H := krippendorff_alpha_coefficient raw raw_eqb RMasked true
              interval_metric two_coders_agree false convert_float None
              [(IdStr "A", [float_of 1 0; float_of 1 0]);
               (IdStr "B", [float_of 2 0; float_of 2 0]);
               (IdStr "C", [float_of 3 0; float_of 3 0])] 6%nat _ in _).
    apply (proj1 (proj2 H)).
    repeat constructor; eexists; (split; [repeat constructor | ]);
      split; right; vm_compute; reflexivity.
    Unshelve. vm_compute. reflexivity.
  - refine (let H := krippendorff_alpha_coefficient raw raw_eqb RMasked true
              ratio_metric two_coders_agree false convert_float None
              [(IdStr "A", [float_of 1 0; float_of 1 0]);
               (IdStr "B", [float_of 2 0; float_of 2 0]);
               (IdStr "C", [float_of 3 0; float_of 3 0])] 6%nat _ in _).
    apply (proj2 (proj2 H)). right. right. split; [reflexivity | ].
    repeat constructor; eexists; (split; [repeat constructor | ]);
      vm_compute; reflexivity.
    Unshelve. vm_compute. reflexivity.
Defined.

(** ** The normaliser: what [units] holds *)

Lemma map_result_length {A B : Type} (f : A -> result B) (xs : list A) (ys : list B) :
  map_result f xs = Ok ys -> length ys = length xs.
Proof.
  revert ys. induction xs as [ | x xs IH]; intros ys; cbn [map_result].
  - intros [= <-]. reflexivity.
  - destruct (f x); cbn [bind]; [ | discriminate].
    destruct (map_result f xs) as [zs | ]; cbn [bind]; [ | discriminate].
    intros [= <-]. cbn [length]. f_equal. apply IH. reflexivity.
Qed.

Lemma map_result_all_Ok {A B : Type} (f : A -> result B) (xs : list A) :
  (forall x, In x xs -> exists y, f x = Ok y) -> exists ys, map_result f xs = Ok ys.
Proof.
  induction xs as [ | x xs IH]; intros Hall; cbn [map_result]; [eauto | ].
  destruct (Hall x (or_introl eq_refl)) as [y ->].
  destruct IH as [ys ->]; [intros x' Hx'; apply Hall; right; exact Hx' | ].
  cbn. eauto.
Qed.

Section MappingInvariants.
Variable V : Type.

Lemma units_append_keys (units : units_t V) (it : item_id) (v : V) :
  map fst (units_append units it v) =
  if existsb (item_eqb it) (map fst units) then map fst units
  else map fst units ++ [it].
Proof.
  induction units as [ | [k its] units IH]; cbn [units_append map existsb fst];
    [reflexivity | ].
  destruct (item_eqb k it) eqn:E.
  - apply item_eqb_eq in E. subst k. rewrite item_eqb_refl. reflexivity.
  - assert (E' : item_eqb it k = false).
    { apply item_eqb_neq. apply item_eqb_neq in E. congruence. }
    rewrite E'. cbn [orb map fst]. rewrite IH.
    destruct (existsb (item_eqb it) (map fst units)); reflexivity.
Qed.

Lemma units_append_count (units : units_t V) (it : item_id) (v : V) :
  count_values (units_append units it v) = S (count_values units).
Proof.
  unfold count_values.
  induction units as [ | [k its] units IH]; cbn [units_append map list_sum];
    [reflexivity | ].
  destruct (item_eqb k it).
  - simpl. rewrite length_app. simpl. lia.
  - change ((length its + list_sum (map (fun p => length (snd p))
                                      (units_append units it v)))%nat
            = S (length its + list_sum (map (fun p => length (snd p)) units))%nat).
    rewrite IH. lia.
Qed.

Lemma units_append_nonempty (units : units_t V) (it : item_id) (v : V) :
  Forall (fun p => snd p <> []) units ->
  Forall (fun p => snd p <> []) (units_append units it v).
Proof.
  induction 1 as [ | [k its] units Hk H IH]; cbn [units_append].
  - constructor; [discriminate | constructor].
  - destruct (item_eqb k it); constructor; try assumption.
    cbn [snd]. intros E. apply app_eq_nil in E. destruct E as [_ E]. discriminate E.
Qed.

Lemma units_append_NoDup (units : units_t V) (it : item_id) (v : V) :
  NoDup (map fst units) -> NoDup (map fst (units_append units it v)).
Proof.
  intros Hnd. rewrite units_append_keys.
  destruct (existsb (item_eqb it) (map fst units)) eqn:E; [exact Hnd | ].
  apply NoDup_app; [exact Hnd | repeat constructor; intros [] | ].
  intros k Hk [<- | []]. apply existsb_item_eqb in Hk. congruence.
Qed.

Lemma group_ratings_invariants (ps : list (item_id * V)) :
  NoDup (map fst (group_ratings ps))
  /\ Forall (fun p => snd p <> []) (group_ratings ps)
  /\ count_values (group_ratings ps) = length ps.
Proof.
  unfold group_ratings.
  induction ps as [ | p ps IH] using rev_ind.
  - cbn. repeat split; constructor.
  - rewrite fold_left_app. cbn [fold_left]. destruct IH as (Hnd & Hne & Hc).
    repeat split.
    + apply units_append_NoDup. exact Hnd.
    + apply units_append_nonempty. exact Hne.
    + rewrite units_append_count, Hc, length_app. cbn. lia.
Qed.
End MappingInvariants.

Lemma convert_rating_keys {Raw V : Type} (convert_items : Raw -> result V)
    (rs : list (item_id * Raw)) (ps : list (item_id * V)) :
  map_result (convert_rating convert_items) rs = Ok ps -> map fst ps = map fst rs.
Proof.
  revert ps. induction rs as [ | r rs IH]; intros ps; cbn [map_result map].
  - intros [= <-]. reflexivity.
  - unfold convert_rating at 1.
    destruct (convert_items (snd r)) as [v | ]; cbn [bind]; [ | discriminate].
    destruct (map_result _ rs) as [qs | ]; cbn [bind]; [ | discriminate].
    intros [= <-]. cbn [map fst]. f_equal. apply IH. reflexivity.
Qed.

Lemma ratings_of_length {V : Type} (it : item_id) (ps : list (item_id * V)) :
  length (ratings_of it ps) = length (filter (fun k => item_eqb k it) (map fst ps)).
Proof.
  unfold ratings_of. rewrite length_map.
  induction ps as [ | p ps IH]; cbn [filter map]; [reflexivity | ].
  destruct (item_eqb (fst p) it); cbn [length]; rewrite IH; reflexivity.
Qed.

Lemma NoDup_count_le_1 (it : item_id) (ks : list item_id) :
  NoDup ks -> (length (filter (fun k => item_eqb k it) ks) <= 1)%nat.
Proof.
  induction 1 as [ | k ks Hk _ IH]; cbn [filter length]; [lia | ].
  destruct (item_eqb k it) eqn:E; [ | exact IH].
  apply item_eqb_eq in E. subst k.
  assert (Hnone : filter (fun k => item_eqb k it) ks = []).
  { clear IH. induction ks as [ | k ks IH]; cbn [filter]; [reflexivity | ].
    destruct (item_eqb k it) eqn:E.
    - apply item_eqb_eq in E. subst k. exfalso. apply Hk. left. reflexivity.
    - apply IH. intros Hin. apply Hk. right. exact Hin. }
  rewrite Hnone. cbn. lia.
Qed.

Lemma retained_count {Raw : Type} (rawb : Raw -> Raw -> bool) (ms : list Raw)
    (it : item_id) (data : list (group Raw)) :
  Forall distinct_keys data ->
  (length (filter (fun k => item_eqb k it) (map fst (retained rawb ms data)))
   <= length data)%nat.
Proof.
  unfold retained. induction 1 as [ | d data Hd _ IH]; cbn [map concat length];
    [cbn; lia | ].
  rewrite filter_app, map_app, filter_app, length_app.
  assert (H1 : (length (filter (fun k => item_eqb k it)
                          (map fst (filter (fun p => negb (is_in rawb (snd p) ms))
                                      (diter d)))) <= 1)%nat).
  { apply NoDup_count_le_1. unfold distinct_keys in Hd.
    induction (diter d) as [ | p l IHl]; cbn [filter map]; [constructor | ].
    cbn [map] in Hd. inversion Hd as [ | ? ? Hp Hl]; subst.
    destruct (negb (is_in rawb (snd p) ms)); [ | apply IHl; exact Hl].
    cbn [map]. constructor; [ | apply IHl; exact Hl].
    intros Hin. apply Hp. apply in_map_iff in Hin. destruct Hin as (q & Hq & Hin).
    apply filter_In in Hin. apply in_map_iff. exists q. tauto. }
  lia.
Qed.

Lemma enumerate_from_NoDup {A : Type} (xs : list A) :
  forall i : Z, NoDup (map fst (enumerate_from i xs)).
Proof.
  intros i. rewrite enumerate_from_fst. apply Finite.Injective_map_NoDup.
  - intros j k E. injection E. lia.
  - apply seq_NoDup.
Qed.

(** ** Properties of the normaliser *)

Section NormalizerProperties.
Variables Raw V : Type.
Variable rawb : Raw -> Raw -> bool.
Variable convert_items : Raw -> result V.

(** The loop of lines 68-84 builds the item ratings mapping: the items in the
    order of their first retained rating, each with the conversions of its
    retained ratings in the order in which the coders are processed; it ends
    with the first exception that the conversion of a retained rating
    raises. *)
Theorem collect_units_ratings_mapping (ms : list Raw) (data : list (group Raw)) :
  collect_units rawb convert_items ms data =
  (ps <- map_result (convert_rating convert_items) (retained rawb ms data) ;;
   Ok (ratings_mapping ps)).
Proof.
  rewrite collect_units_group_ratings. apply bind_ext. intros ps.
  rewrite group_ratings_mapping. reflexivity.
Qed.

(** The mapping that the loop builds has distinct keys, no empty rating list,
    and holds every retained rating once: its number of values is the number
    of ratings that are not missing. *)
Theorem collect_units_invariants (ms : list Raw) (data : list (group Raw))
    (units : units_t V) :
  collect_units rawb convert_items ms data = Ok units ->
  NoDup (map fst units)
  /\ Forall (fun p => snd p <> []) units
  /\ count_values units = length (retained rawb ms data).
Proof.
  rewrite collect_units_group_ratings.
  destruct (map_result _ _) as [ps | e] eqn:E; cbn [bind]; [ | discriminate].
  intros [= <-]. destruct (group_ratings_invariants V ps) as (Hnd & Hne & Hc).
  repeat split; try assumption.
  rewrite Hc. apply (map_result_length _ _ _ E).
Qed.

(** When no coder rates an item twice - the groups are dictionaries or
    sequences - no item gets more ratings than there are coders; a sequence
    never rates a position twice. *)
Theorem ratings_per_item_bound (ms : list Raw) (data : list (group Raw))
    (units : units_t V) :
  Forall distinct_keys data ->
  collect_units rawb convert_items ms data = Ok units ->
  Forall (fun p => (length (snd p) <= length data)%nat) units
  /\ forall vs : list Raw, distinct_keys (PositionalGroup vs).
Proof.
  intros Hd. rewrite collect_units_group_ratings.
  destruct (map_result _ _) as [ps | e] eqn:E; cbn [bind]; [ | discriminate].
  intros [= <-]. rewrite group_ratings_mapping. split.
  - apply Forall_forall. intros p Hp. unfold ratings_mapping in Hp.
    apply in_map_iff in Hp. destruct Hp as (it & <- & _). cbn [snd].
    rewrite ratings_of_length, (convert_rating_keys _ _ _ E).
    apply retained_count. exact Hd.
  - intros vs. unfold distinct_keys. cbn [diter]. apply enumerate_from_NoDup.
Qed.
End NormalizerProperties.

Lemma map_result_first_Err {A B : Type} (f : A -> result B) (l1 l2 : list A)
    (x : A) (e : exn) :
  (forall y, In y l1 -> exists b, f y = Ok b) -> f x = Err e ->
  map_result f (l1 ++ x :: l2) = Err e.
Proof.
  intros Hl1 Hx. rewrite map_result_app.
  destruct (map_result_all_Ok f l1 Hl1) as [bs ->]. cbn [bind map_result].
  rewrite Hx. reflexivity.
Qed.

Lemma retained_app {Raw : Type} (rawb : Raw -> Raw -> bool) (ms : list Raw)
    (data1 data2 : list (group Raw)) :
  retained rawb ms (data1 ++ data2) = retained rawb ms data1 ++ retained rawb ms data2.
Proof.
  unfold retained. rewrite map_app, concat_app, filter_app. reflexivity.
Qed.

Lemma retained_all_missing {Raw : Type} (rawb : Raw -> Raw -> bool) (ms : list Raw)
    (data : list (group Raw)) :
  Forall (all_missing_group rawb ms) data -> retained rawb ms data = [].
Proof.
  unfold retained. induction 1 as [ | d data Hd _ IH]; cbn [map concat];
    [reflexivity | ].
  rewrite filter_app, IH, app_nil_r. unfold all_missing_group in Hd.
  induction Hd as [ | p l Hp _ IHl]; cbn [filter]; [reflexivity | ].
  rewrite Hp. exact IHl.
Qed.

Lemma pairable_short {V : Type} (units : units_t V) :
  Forall (fun p => (length (snd p) <= 1)%nat) units -> pairable units = [].
Proof.
  unfold pairable. induction 1 as [ | p units Hp _ IH]; cbn [filter]; [reflexivity | ].
  destruct (Nat.ltb_spec 1 (length (snd p))); [lia | exact IH].
Qed.

Section RunsAndRatings.
Context {F : Type} `{Numeric F}.
Variables V Raw : Type.
Variable metric : metric_fn V F.
Variable rawb : Raw -> Raw -> bool.
Variable masked_singleton : Raw.
Variable np : bool.

(** The run depends on the dataset only through its retained ratings, in
    processing order. *)
Lemma krippendorff_alpha_retained (data data' : list (group Raw))
    (force_vecmath : bool) (convert_items : Raw -> result V)
    (missing_items : option (list Raw)) :
  retained rawb (maskitems masked_singleton np missing_items) data
    = retained rawb (maskitems masked_singleton np missing_items) data' ->
  krippendorff_alpha metric rawb masked_singleton np data force_vecmath
    convert_items missing_items
  = krippendorff_alpha metric rawb masked_singleton np data' force_vecmath
      convert_items missing_items.
Proof.
  intros E. unfold krippendorff_alpha, pairable_units. cbv zeta.
  rewrite !collect_units_group_ratings, E. reflexivity.
Qed.

(** The conversion function is called on the ratings that are not missing, in
    processing order, and on nothing else: the first exception it raises ends
    the run, before the insufficient-data check; and when it converts every
    retained rating the normalisation completes, whatever it would do on the
    missing values. *)
Theorem conversion_of_retained_ratings (data : list (group Raw))
    (force_vecmath : bool) (convert_items : Raw -> result V)
    (missing_items : option (list Raw)) :
  (forall l1 p l2 e,
     retained rawb (maskitems masked_singleton np missing_items) data
       = l1 ++ p :: l2 ->
     (forall q, In q l1 -> exists v, convert_items (snd q) = Ok v) ->
     convert_items (snd p) = Err e ->
     krippendorff_alpha metric rawb masked_singleton np data force_vecmath
       convert_items missing_items = Err e)
  /\ ((forall q,
         In q (retained rawb (maskitems masked_singleton np missing_items) data) ->
         exists v, convert_items (snd q) = Ok v) ->
      exists units,
        collect_units rawb convert_items
          (maskitems masked_singleton np missing_items) data = Ok units).
Proof.
  split.
  - intros l1 p l2 e Hret Hl1 Hp.
    unfold krippendorff_alpha, pairable_units. cbv zeta.
    rewrite collect_units_group_ratings, Hret.
    rewrite (map_result_first_Err (convert_rating convert_items) l1 l2 p e).
    + reflexivity.
    + intros q Hq. destruct (Hl1 q Hq) as [v Hv]. unfold convert_rating.
      rewrite Hv. cbn. eauto.
    + unfold convert_rating. rewrite Hp. reflexivity.
  - intros Hall. rewrite collect_units_group_ratings.
    destruct (map_result_all_Ok (convert_rating convert_items)
                (retained rawb (maskitems masked_singleton np missing_items) data))
      as [ps ->].
    + intros q Hq. destruct (Hall q Hq) as [v Hv]. unfold convert_rating.
      rewrite Hv. cbn. eauto.
    + cbn. eauto.
Qed.

(** A dataset in which every rating is missing - an empty dataset, or coders
    without ratings, included - ends the run with the insufficient-data
    error. *)
Theorem all_missing_no_items (data : list (group Raw)) (force_vecmath : bool)
    (convert_items : Raw -> result V) (missing_items : option (list Raw)) :
  Forall (all_missing_group rawb (maskitems masked_singleton np missing_items)) data ->
  krippendorff_alpha metric rawb masked_singleton np data force_vecmath
    convert_items missing_items = Err NoItemsToCompare.
Proof.
  intros Hall. unfold krippendorff_alpha, pairable_units. cbv zeta.
  rewrite collect_units_group_ratings, (retained_all_missing _ _ _ Hall).
  reflexivity.
Qed.

(** With fewer than two coders, none of whom rates an item twice, no item is
    pairable: when the conversions succeed the run ends with the
    insufficient-data error. *)
Theorem fewer_than_two_coders_no_items (data : list (group Raw))
    (force_vecmath : bool) (convert_items : Raw -> result V)
    (missing_items : option (list Raw)) :
  (length data <= 1)%nat ->
  Forall distinct_keys data ->
  (forall q,
     In q (retained rawb (maskitems masked_singleton np missing_items) data) ->
     exists v, convert_items (snd q) = Ok v) ->
  krippendorff_alpha metric rawb masked_singleton np data force_vecmath
    convert_items missing_items = Err NoItemsToCompare.
Proof.
  intros Hlen Hd Hconv. unfold krippendorff_alpha, pairable_units. cbv zeta.
  rewrite collect_units_group_ratings.
  destruct (map_result_all_Ok (convert_rating convert_items)
              (retained rawb (maskitems masked_singleton np missing_items) data))
    as [ps E].
  { intros q Hq. destruct (Hconv q Hq) as [v Hv]. unfold convert_rating.
    rewrite Hv. cbn. eauto. }
  rewrite E. cbn [bind]. rewrite group_ratings_mapping, pairable_short; [reflexivity | ].
  apply Forall_forall. intros p Hp. unfold ratings_mapping in Hp.
  apply in_map_iff in Hp. destruct Hp as (it & <- & _). cbn [snd].
  rewrite ratings_of_length, (convert_rating_keys _ _ _ E).
  pose proof (retained_count rawb (maskitems masked_singleton np missing_items)
                it data Hd). lia.
Qed.

(** A coder all of whose ratings are missing does not change the result,
    wherever the coder stands in the dataset. *)
Theorem coder_without_ratings_ignored (data1 data2 : list (group Raw))
    (d : group Raw) (force_vecmath : bool) (convert_items : Raw -> result V)
    (missing_items : option (list Raw)) :
  all_missing_group rawb (maskitems masked_singleton np missing_items) d ->
  krippendorff_alpha metric rawb masked_singleton np (data1 ++ d :: data2)
    force_vecmath convert_items missing_items
  = krippendorff_alpha metric rawb masked_singleton np (data1 ++ data2)
      force_vecmath convert_items missing_items.
Proof.
  intros Hd. apply krippendorff_alpha_retained.
  rewrite !retained_app. f_equal.
  change (d :: data2) with ([d] ++ data2). rewrite retained_app.
  rewrite (retained_all_missing rawb _ [d]); [reflexivity | ].
  constructor; [exact Hd | constructor].
Qed.
End RunsAndRatings.

(** ** The argument [missing_items] *)

Lemma eqb_one_char (t : string) (c : Ascii.ascii) :
  String.eqb t (String c EmptyString) = true <-> t = String c EmptyString.
Proof. apply String.eqb_eq. Qed.

Lemma is_in_chars_of (t s : string) :
  is_in raw_eqb (RStr t) (chars_of s)
  = existsb (fun c => String.eqb t (String c EmptyString)) (list_ascii_of_string s).
Proof.
  unfold is_in, chars_of. induction (list_ascii_of_string s) as [ | c cs IH];
    cbn [map existsb raw_eqb]; [reflexivity | ].
  rewrite IH. reflexivity.
Qed.

(** When [missing_items] is a string, [list(missing_items)] makes its
    characters the missing values: a string rating is skipped if and only if
    it is one character of the marker; hence the marker itself is skipped
    only when it has exactly one character, as the driver's ['*'] has. *)
Theorem missing_items_string (np : bool) (s t : string) :
  (is_in raw_eqb (RStr t) (maskitems RMasked np (missing_list (MissingStr s))) = true
   <-> exists c, t = String c EmptyString /\ In c (list_ascii_of_string s))
  /\ is_in raw_eqb (RStr s) (maskitems RMasked np (missing_list (MissingStr s)))
     = (String.length s =? 1)%nat.
Proof.
  assert (Hin : forall u, is_in raw_eqb (RStr u)
                   (maskitems RMasked np (missing_list (MissingStr s)))
                 = is_in raw_eqb (RStr u) (chars_of s)).
  { intros u. unfold maskitems. cbn [missing_list]. destruct np; [ | reflexivity].
    unfold is_in. rewrite existsb_app. cbn [existsb raw_eqb].
    rewrite !orb_false_r. reflexivity. }
  split.
  - rewrite Hin, is_in_chars_of, existsb_exists. split.
    + intros (c & Hc & E). apply String.eqb_eq in E. eauto.
    + intros (c & -> & Hc). exists c. split; [exact Hc | apply String.eqb_refl].
  - rewrite Hin, is_in_chars_of.
    destruct s as [ | c [ | c' s']]; cbn [list_ascii_of_string String.length].
    + reflexivity.
    + cbn [existsb]. rewrite String.eqb_refl. reflexivity.
    + cbn [Nat.eqb]. apply not_true_is_false. intros E.
      apply existsb_exists in E. destruct E as (x & _ & E).
      apply String.eqb_eq in E. discriminate E.
Qed.

(** ** The disagreements are not negative *)

Lemma float_of_Z_nonneg (i : Z) : 0 <= i -> nonneg_or_nan (float_of_Z i) = true.
Proof.
  intros Hi. destruct (Z.eq_dec i 0) as [-> | Hne]; [reflexivity | ].
  pose proof (float_of_Z_positive i ltac:(lia)) as Hp.
  destruct (float_of_Z i) as [ | [ | ] | | [ | ] m e]; cbn in *; congruence.
Qed.

Lemma to_float_nonneg (v : pynum float) :
  num_nonneg v -> nonneg_or_nan (to_float v) = true.
Proof.
  destruct v as [i | x]; cbn [num_nonneg to_float]; [ | trivial].
  apply float_of_Z_nonneg.
Qed.

Lemma py_add_nonneg (v w : pynum float) :
  num_nonneg v -> num_nonneg w -> num_nonneg (py_add v w).
Proof.
  intros Hv Hw. destruct v as [i | x], w as [j | y]; cbn [py_add num_nonneg] in *;
    try lia; apply add_nonneg; cbn [to_float]; try assumption;
    apply float_of_Z_nonneg; assumption.
Qed.

Lemma fold_py_add_nonneg (vs : list (pynum float)) :
  forall acc, num_nonneg acc -> Forall num_nonneg vs ->
              num_nonneg (fold_left py_add vs acc).
Proof.
  induction vs as [ | v vs IH]; intros acc Hacc Hvs; cbn [fold_left]; [exact Hacc | ].
  inversion Hvs; subst. apply IH; [apply py_add_nonneg; assumption | assumption].
Qed.

Lemma np_sum_nonneg (vs : list (pynum float)) :
  Forall num_nonneg vs -> num_nonneg (np_sum vs).
Proof.
  intros Hvs. destruct vs as [ | v vs]; cbn [np_sum]; [cbn; lia | ].
  inversion Hvs; subst. apply fold_py_add_nonneg; assumption.
Qed.

Lemma map_result_Forall {A B : Type} (P : B -> Prop) (f : A -> result B) (xs : list A)
    (ys : list B) :
  (forall x y, In x xs -> f x = Ok y -> P y) ->
  map_result f xs = Ok ys -> Forall P ys.
Proof.
  revert ys. induction xs as [ | x xs IH]; intros ys Hf; cbn [map_result].
  - intros [= <-]. constructor.
  - destruct (f x) as [y | ] eqn:Ex; cbn [bind]; [ | discriminate].
    destruct (map_result f xs) as [zs | ]; cbn [bind]; [ | discriminate].
    intros [= <-]. constructor.
    + apply (Hf x y); [left; reflexivity | exact Ex].
    + apply IH; [ | reflexivity]. intros x' y' Hin. apply Hf. right. exact Hin.
Qed.

Section NonNegative.
Variable V : Type.
Variable metric : metric_fn V float.
Hypothesis vector_nonneg : forall a b, num_nonneg (vector metric a b).
Hypothesis scalar_nonneg : forall a b r, scalar metric a b = Ok r -> num_nonneg r.

Lemma sum_over_pairs_nonneg (np_metric : bool) (g1 g2 : list V) (s : pynum float) :
  sum_over_pairs metric np_metric g1 g2 = Ok s -> num_nonneg s.
Proof.
  unfold sum_over_pairs. destruct np_metric.
  - intros [= <-]. apply fold_py_add_nonneg; [cbn; lia | ].
    apply Forall_forall. intros t Ht. apply in_map_iff in Ht.
    destruct Ht as (col & <- & Hcol). apply np_sum_nonneg.
    unfold pair_columns in Hcol. apply in_map_iff in Hcol.
    destruct Hcol as (gj & <- & _). apply Forall_forall. intros t Ht.
    apply in_map_iff in Ht. destruct Ht as (gi & <- & _). apply vector_nonneg.
  - unfold pair_terms.
    destruct (map_result _ (ordered_pairs g1 g2)) as [ts | ] eqn:E; cbn [bind];
      [ | discriminate].
    intros [= <-]. apply fold_py_add_nonneg; [cbn; lia | ].
    apply (map_result_Forall num_nonneg _ _ ts
             (fun p y _ => scalar_nonneg (fst p) (snd p) y) E).
Qed.

Lemma truediv_nonneg (vec : bool) (a d q : float) :
  nonneg_or_nan a = true -> is_positive d = true ->
  truediv vec a d = Ok q -> nonneg_or_nan q = true.
Proof.
  intros Ha Hd. unfold truediv.
  destruct vec; [ | destruct (eqb d zero); [discriminate | ]];
    intros [= <-]; apply div_nonneg_positive; assumption.
Qed.

Lemma Do_spec_nonneg (np_metric : bool) (units : units_t V) (Do : float) :
  all_pairable units -> (1 <= count_values units)%nat ->
  Do_spec metric np_metric units = Ok Do -> nonneg_or_nan Do = true.
Proof.
  intros Hall Hn. unfold Do_spec.
  destruct (map_result _ (values units)) as [qs | ] eqn:E; cbn [bind]; [ | discriminate].
  apply truediv_nonneg; [ | apply float_of_Z_positive; lia].
  apply fold_add_nonneg; [reflexivity | ].
  apply (map_result_Forall (fun q => nonneg_or_nan q = true) _ _ qs) in E; [exact E | ].
  intros grades q Hin. unfold values in Hin. apply in_map_iff in Hin.
  destruct Hin as (p & <- & Hp). unfold all_pairable in Hall.
  rewrite Forall_forall in Hall. specialize (Hall p Hp).
  unfold item_disagreement.
  destruct (sum_over_pairs metric np_metric (snd p) (snd p)) as [s | ] eqn:Es;
    cbn [bind]; [ | discriminate].
  apply truediv_nonneg; [ | apply float_of_Z_positive; lia].
  apply to_float_nonneg. exact (sum_over_pairs_nonneg _ _ _ _ Es).
Qed.

Lemma De_spec_nonneg (np_metric : bool) (units : units_t V) (De : float) :
  (2 <= count_values units)%nat ->
  De_spec metric np_metric units = Ok De -> nonneg_or_nan De = true.
Proof.
  intros Hn. unfold De_spec. cbv zeta.
  destruct (map_result _ (list_prod (values units) (values units))) as [bs | ] eqn:E;
    cbn [bind]; [ | discriminate].
  apply truediv_nonneg;
    [ | apply float_of_Z_positive; apply Z.mul_pos_pos; lia].
  apply fold_add_nonneg; [reflexivity | ].
  apply (map_result_Forall (fun q => nonneg_or_nan q = true) _ _ bs) in E; [exact E | ].
  intros gg q _.
  destruct (sum_over_pairs metric np_metric (fst gg) (snd gg)) as [s | ] eqn:Es;
    cbn [bind]; [ | discriminate].
  intros [= <-]. apply to_float_nonneg. exact (sum_over_pairs_nonneg _ _ _ _ Es).
Qed.
End NonNegative.

Lemma builtin_metric_nonneg (metric : metric_fn float float) :
  builtin_metric metric ->
  (forall a b, num_nonneg (vector metric a b))
  /\ (forall a b r, scalar metric a b = Ok r -> num_nonneg r).
Proof.
  intros [-> | [-> | ->]]; split; intros a b.
  - cbn [vector nominal_metric]. unfold nominal. destruct (eqb a b); cbn; lia.
  - intros r [= <-]. unfold nominal. destruct (eqb a b); cbn; lia.
  - apply mul_self_nonneg.
  - intros r. cbn [scalar interval_metric]. unfold py_pow2. cbv zeta.
    destruct (overflows _ _); cbn [bind]; [discriminate | ].
    intros [= <-]. apply mul_self_nonneg.
  - apply mul_self_nonneg.
  - intros r. cbn [scalar ratio_metric]. unfold truediv, py_pow2. cbv zeta.
    destruct (eqb (add a b) zero); cbn [bind]; [discriminate | ].
    destruct (overflows _ _); cbn [bind]; [discriminate | ].
    intros [= <-]. apply mul_self_nonneg.
Qed.

(** With one of the three metrics of the module, the observed and the
    expected disagreement that a run computes are never negative: each is
    NaN, or zero or more (plus infinity included), on both paths. *)
Theorem disagreements_never_negative
    (Raw : Type) (rawb : Raw -> Raw -> bool) (masked_singleton : Raw) (np : bool)
    (metric : metric_fn float float) (data : list (group Raw))
    (convert_items : Raw -> result float) (missing_items : option (list Raw))
    (np_metric : bool) (units : units_t float) (n : nat) :
  builtin_metric metric ->
  pairable_units rawb masked_singleton np data convert_items missing_items
    = Ok (units, n) ->
  (forall Do, observed_disagreement metric np_metric units n = Ok Do ->
              nonneg_or_nan Do = true)
  /\ (forall De, expected_disagreement metric np_metric units n = Ok De ->
                 nonneg_or_nan De = true).
Proof.
  intros Hb Hunits. destruct (builtin_metric_nonneg metric Hb) as [Hv Hs].
  pose proof (pairable_units_all_pairable _ _ _ _ _ _ _ _ _ _ Hunits) as (Hall & Hn).
  pose proof (pairable_units_count _ _ _ _ _ _ _ _ _ _ Hunits) as (-> & _).
  split.
  - intros Do. rewrite observed_disagreement_Do_spec.
    apply Do_spec_nonneg; try assumption. lia.
  - intros De. rewrite expected_disagreement_De_spec.
    apply De_spec_nonneg; assumption.
Qed.

(** ** The coefficient is at most one *)

Lemma digits_le_of_le_pow (m k : Z) : 0 < m -> 0 <= k -> m <= 2 ^ k -> Zdigits2 m <= k + 1.
Proof.
  intros Hm Hk Hle. destruct m as [ | p | p]; try lia. cbn [Zdigits2].
  pose proof (digits2_pos_bounds p) as [Hlo _].
  assert (Z.pos (digits2_pos p) - 1 < k + 1).
  { apply (Z.pow_lt_mono_r_iff 2); try lia.
    rewrite Z.pow_add_r by lia. lia. }
  lia.
Qed.

(** Shifting keeps a mantissa below one: with [m <= 2 ^ (- e)] and
    [e <= -52] the shifted mantissa and exponent satisfy the same. *)
Lemma shr_fexp_le_one (m e : Z) (l : location) :
  0 < m -> m <= 2 ^ (- e) -> e <= -52 ->
  let '(mrs, e') := shr_fexp prec emax m e l in
  0 <= shr_m mrs /\ shr_m mrs <= 2 ^ (- e') /\ e' <= -52
  /\ (m < 2 ^ (- e) -> shr_m mrs < 2 ^ (- e')).
Proof.
  intros Hm Hle He. unfold shr_fexp, shr.
  assert (Hrec : shr_m (shr_record_of_loc m l) = m)
    by (destruct l as [ | [ | | ] ]; reflexivity).
  pose proof (digits_le_of_le_pow m (- e) Hm ltac:(lia) Hle) as Hd.
  destruct (fexp prec emax (Zdigits2 m + e) - e) as [ | n | n ] eqn:En;
    rewrite ?Hrec; try (repeat split; try lia; fail).
  rewrite iter_shr_1_m by (rewrite Hrec; lia). rewrite Hrec.
  assert (He' : e + Z.pos n <= -52) by (unfold fexp, emin, prec, emax in En; lia).
  assert (Hpow : 2 ^ (- e) = 2 ^ (- (e + Z.pos n)) * 2 ^ Z.pos n)
    by (rewrite <- Z.pow_add_r by lia; f_equal; lia).
  assert (Hn : 0 < 2 ^ Z.pos n) by (apply Z.pow_pos_nonneg; lia).
  repeat split.
  - apply Z.div_pos; lia.
  - apply Z.div_le_upper_bound; lia.
  - exact He'.
  - intros Hlt. apply Z.div_lt_upper_bound; lia.
Qed.

Lemma round_nearest_even_le (m : Z) (l : location) : round_nearest_even m l <= m + 1.
Proof.
  destruct l as [ | [ | | ] ]; cbn [round_nearest_even]; try lia.
  destruct (Z.even m); lia.
Qed.

Lemma leb_one_small (m : positive) (e : Z) :
  Z.pos m <= 2 ^ (- e) -> e <= -52 -> SFleb (S754_finite false m e) (one : float) = true.
Proof.
  intros Hm He. unfold SFleb. cbn [one binary64].
  change (float_of_Z 1) with (S754_finite false 4503599627370496 (-52)).
  cbn [SFcompare].
  destruct (Z.compare_spec e (-52)) as [-> | Hlt | Hgt]; try reflexivity; try lia.
  change (2 ^ (- -52)) with 4503599627370496 in Hm.
  rewrite Pos.compare_cont_spec. cbn [Pos.switch_Eq].
  destruct (Pos.compare_spec m 4503599627370496) as [-> | H | H]; try reflexivity; lia.
Qed.

(** Rounding a value below one gives at most one. *)
Lemma binary_round_aux_le_one (m e : Z) (l : location) :
  0 < m -> m < 2 ^ (- e) -> e <= -52 ->
  SFleb (binary_round_aux prec emax false m e l) (one : float) = true.
Proof.
  intros Hm Hlt He. unfold binary_round_aux.
  pose proof (shr_fexp_le_one m e l Hm ltac:(lia) He) as H1.
  destruct (shr_fexp prec emax m e l) as [mrs1 e1].
  destruct H1 as (H0 & _ & He1 & Hs). specialize (Hs Hlt).
  pose proof (round_nearest_even_le (shr_m mrs1) (loc_of_shr_record mrs1)) as Hr.
  pose proof (round_nearest_even_ge (shr_m mrs1) (loc_of_shr_record mrs1)) as Hr'.
  set (m2 := round_nearest_even (shr_m mrs1) (loc_of_shr_record mrs1)) in *.
  destruct (Z.eq_dec m2 0) as [E0 | Hne].
  - rewrite E0. unfold shr_fexp. cbn [Zdigits2 shr_record_of_loc].
    destruct (shr _ _ _) as [mrs2 e2] eqn:Es. unfold shr in Es.
    destruct (fexp prec emax (0 + e1) - e1) as [ | n | n]; injection Es as <- <-;
      try reflexivity.
    rewrite iter_shr_1_m by (cbn; lia). cbn [shr_m]. rewrite Z.div_0_l by
      (pose proof (Z.pow_pos_nonneg 2 (Z.pos n)); lia). reflexivity.
  - assert (Hm2 : 0 < m2) by lia.
    pose proof (shr_fexp_le_one m2 e1 loc_Exact Hm2 ltac:(lia) He1) as H2.
    destruct (shr_fexp prec emax m2 e1 loc_Exact) as [mrs2 e2].
    destruct H2 as (H20 & H2le & He2 & _).
    destruct (shr_m mrs2) as [ | q | q]; try lia; [reflexivity | ].
    replace (e2 <=? emax - prec) with true
      by (symmetry; apply Z.leb_le; unfold emax, prec; lia).
    apply leb_one_small; assumption.
Qed.

Lemma shl_iter_value (m d : positive) :
  Z.pos (Pos.iter xO m d) = Z.pos m * 2 ^ Z.pos d.
Proof.
  induction d as [ | d IH] using Pos.peano_ind.
  - cbn. lia.
  - rewrite Pos.iter_succ, Pos2Z.inj_xO, IH, Pos2Z.inj_succ, Z.pow_succ_r by lia. lia.
Qed.

Lemma shl_align_value (m : positive) (e e' : Z) :
  e' <= e ->
  Z.pos (fst (shl_align m e e')) = Z.pos m * 2 ^ (e - e')
  /\ snd (shl_align m e e') = e'.
Proof.
  intros Hle. unfold shl_align.
  destruct (e' - e) as [ | d | d] eqn:Ed; cbn [fst snd]; try lia.
  - replace (e - e') with 0 by lia. split; lia.
  - rewrite shl_iter_value.
    replace (e - e') with (Z.pos d) by lia. split; lia.
Qed.

Lemma binary_round_le_one (p : positive) (e : Z) :
  Z.pos p < 2 ^ (- e) -> e <= -52 ->
  SFleb (binary_round prec emax false p e) (one : float) = true.
Proof.
  intros Hp He. unfold binary_round.
  set (fe := fexp prec emax (Z.pos (digits2_pos p) + e)).
  destruct (Z_le_gt_dec fe e) as [Hle | Hgt].
  - destruct (shl_align_value p e fe Hle) as [Hv Hs].
    destruct (shl_align p e fe) as [mz ez]. cbn [fst snd] in Hv, Hs. subst ez.
    apply binary_round_aux_le_one; try lia.
    rewrite Hv.
    assert (Hpow : 2 ^ (- fe) = 2 ^ (- e) * 2 ^ (e - fe))
      by (rewrite <- Z.pow_add_r by lia; f_equal; lia).
    assert (0 < 2 ^ (e - fe)) by (apply Z.pow_pos_nonneg; lia).
    rewrite Hpow. apply Z.mul_lt_mono_pos_r; assumption.
  - unfold shl_align. destruct (fe - e) as [ | d | d] eqn:Ed; try lia.
    apply binary_round_aux_le_one; try lia.
Qed.

(** One minus a quotient that is not negative is at most one, or NaN. *)
Lemma sub_one_le (q : float) :
  nonneg_or_nan q = true ->
  is_nan (sub one q) = true \/ SFleb (sub one q) (one : float) = true.
Proof.
  destruct q as [[ | ] | [ | ] | | [ | ] m e]; cbn [nonneg_or_nan]; try discriminate;
    intros _; try (left; reflexivity); try (right; reflexivity).
  cbn [one binary64].
  change (float_of_Z 1) with (S754_finite false 4503599627370496 (-52)).
  cbn [sub binary64 SFsub cond_Zopp]. cbv zeta.
  set (ez := Z.min (-52) e).
  assert (Hez : ez <= -52) by (unfold ez; lia).
  destruct (shl_align_value 4503599627370496 (-52) ez Hez) as [H1 _].
  destruct (shl_align_value m e ez ltac:(unfold ez; lia)) as [H2 _].
  assert (Hone : Z.pos (fst (shl_align 4503599627370496 (-52) ez)) = 2 ^ (- ez)).
  { rewrite H1. change (Z.pos 4503599627370496) with (2 ^ 52).
    rewrite <- Z.pow_add_r by lia. f_equal. lia. }
  rewrite Hone.
  set (M2 := Z.pos (fst (shl_align m e ez))) in *.
  assert (HM2 : 0 < M2) by (unfold M2; lia).
  destruct (2 ^ (- ez) - M2) as [ | p | p] eqn:Ez; cbn [binary_normalize].
  - right. reflexivity.
  - right. apply binary_round_le_one; lia.
  - unfold binary_round. destruct (shl_align p ez _) as [mz ez'].
    rewrite binary_round_aux_opp.
    pose proof (binary_round_aux_nonneg (Z.pos mz) ez' loc_Exact) as Hn.
    destruct (binary_round_aux prec emax false (Z.pos mz) ez' loc_Exact)
      as [[ | ] | [ | ] | | [ | ] m' e']; cbn in Hn; try discriminate;
      try (left; reflexivity); right; reflexivity.
Qed.

(** Past the insufficient-data check: the coefficient computed from the
    two disagreements is at most one, or NaN. *)
Lemma coefficient_le_one (metric : metric_fn float float) (np_metric : bool)
    (units : units_t float) (a : float) :
  builtin_metric metric -> all_pairable units -> (2 <= count_values units)%nat ->
  (Do <- observed_disagreement metric np_metric units (count_values units) ;;
   coefficient np_metric Do
     (expected_disagreement metric np_metric units (count_values units))) = Ok a ->
  is_nan a = true \/ SFleb a (one : float) = true.
Proof.
  intros Hb Hall Hn. destruct (builtin_metric_nonneg metric Hb) as [Hv Hs].
  rewrite observed_disagreement_Do_spec, expected_disagreement_De_spec.
  destruct (Do_spec metric _ units) as [Do | e] eqn:EDo; cbn [bind]; [ | discriminate].
  rewrite coefficient_alpha_spec. unfold alpha_spec.
  destruct (eqb Do zero); [intros [= <-]; right; reflexivity | ].
  destruct (De_spec metric _ units) as [De | e] eqn:EDe; cbn [bind]; [ | discriminate].
  destruct (eqb De zero) eqn:EDz; [intros [= <-]; right; reflexivity | ].
  intros [= <-].
  pose proof (Do_spec_nonneg _ metric Hv Hs _ units Do Hall ltac:(lia) EDo) as HDo.
  pose proof (De_spec_nonneg _ metric Hv Hs _ units De Hn EDe) as HDe.
  destruct De as [[ | ] | [ | ] | | [ | ] m e]; cbn in HDe, EDz; try discriminate.
  - apply sub_one_le. apply div_nonneg_positive; [exact HDo | reflexivity].
  - left. destruct Do; reflexivity.
  - apply sub_one_le. apply div_nonneg_positive; [exact HDo | reflexivity].
Qed.

(** With one of the three metrics of the module the coefficient that a run
    returns is never above 1.0: it is at most 1.0, or NaN. *)
Theorem alpha_at_most_one
    (Raw : Type) (rawb : Raw -> Raw -> bool) (masked_singleton : Raw) (np : bool)
    (metric : metric_fn float float) (data : list (group Raw)) (force_vecmath : bool)
    (convert_items : Raw -> result float) (missing_items : option (list Raw))
    (a : float) :
  builtin_metric metric ->
  krippendorff_alpha metric rawb masked_singleton np data force_vecmath
    convert_items missing_items = Ok a ->
  is_nan a = true \/ SFleb a (one : float) = true.
Proof.
  intros Hb. unfold krippendorff_alpha.
  destruct (pairable_units rawb masked_singleton np data convert_items missing_items)
    as [[units n] | e] eqn:Hunits; cbn [bind]; [ | discriminate].
  pose proof (pairable_units_all_pairable _ _ _ _ _ _ _ _ _ _ Hunits) as (Hall & Hn).
  pose proof (pairable_units_count _ _ _ _ _ _ _ _ _ _ Hunits) as (-> & _).
  apply coefficient_le_one; assumption.
Qed.

(** ** The reader of the group file *)

Lemma split_on_free (sep : Ascii.ascii) (s : string) :
  sep_free sep s = true -> split_on sep s = [s].
Proof.
  unfold sep_free.
  induction s as [ | c s IH]; cbn [list_ascii_of_string forallb split_on];
    [reflexivity | ].
  intros H. apply andb_prop in H. destruct H as [Hc Hs].
  apply negb_true_iff in Hc. rewrite Hc, (IH Hs). reflexivity.
Qed.

Lemma split_on_app_sep (sep : Ascii.ascii) (s1 s2 : string) :
  sep_free sep s1 = true ->
  split_on sep (String.append s1 (String sep s2)) = s1 :: split_on sep s2.
Proof.
  unfold sep_free.
  induction s1 as [ | c s1 IH];
    cbn [list_ascii_of_string forallb String.append split_on].
  - intros _. rewrite Ascii.eqb_refl. reflexivity.
  - intros H. apply andb_prop in H. destruct H as [Hc Hs].
    apply negb_true_iff in Hc. rewrite Hc, (IH Hs). reflexivity.
Qed.

Lemma sep_free_append (sep : Ascii.ascii) (s1 s2 : string) :
  sep_free sep (String.append s1 s2) = sep_free sep s1 && sep_free sep s2.
Proof.
  unfold sep_free.
  induction s1 as [ | c s1 IH]; cbn [list_ascii_of_string forallb String.append];
    [reflexivity | ].
  rewrite IH, andb_assoc. reflexivity.
Qed.

Lemma concat_cons_cons (sep a b : string) (l : list string) :
  String.concat sep (a :: b :: l)
  = String.append a (String.append sep (String.concat sep (b :: l))).
Proof. reflexivity. Qed.

(** Splitting the text of a file gives back its lines. *)
Lemma split_on_text_of_lines (ls : list string) :
  forall l, Forall (fun s => sep_free newline s = true) (l :: ls) ->
            split_on newline (text_of_lines (l :: ls)) = l :: ls.
Proof.
  unfold text_of_lines. induction ls as [ | l' ls IH]; intros l H.
  - cbn [String.concat]. apply split_on_free. inversion H; assumption.
  - inversion H as [ | ? ? Hl Hls]; subst.
    rewrite concat_cons_cons. cbn [String.append].
    rewrite split_on_app_sep by exact Hl. rewrite IH by exact Hls. reflexivity.
Qed.

Lemma data_lines_middle (header last : string) (rows : list string) :
  data_lines (header :: rows ++ [last]) = rows.
Proof.
  unfold data_lines. cbn [length skipn]. rewrite length_app. cbn [length].
  replace (S (length rows + 1) - 1 - 1)%nat with (length rows + 0)%nat by lia.
  rewrite firstn_app_2. cbn [firstn]. apply app_nil_r.
Qed.

Lemma data_lines_length (lines : list string) :
  length (data_lines lines) = (length lines - 2)%nat.
Proof. unfold data_lines. rewrite length_firstn, length_skipn. lia. Qed.

Section ReaderProperties.
Variable py_int : string -> option Z.

Lemma read_line_read_row (cols : columns) (line : string) :
  read_line py_int cols line =
  match read_row py_int line with
  | Some (i0, i1, i2) =>
      let '(l0, l1, l2) := cols in Some (l0 ++ [i0], l1 ++ [i1], l2 ++ [i2])
  | None => None
  end.
Proof.
  unfold read_row, read_line. destruct cols as [[l0 l1] l2].
  destruct (split_on tab line) as [ | u0 [ | u1 [ | u2 [ | u3 us]]]]; try reflexivity.
  destruct (py_int u0); [ | reflexivity]. destruct (py_int u1); [ | reflexivity].
  destruct (py_int u2); reflexivity.
Qed.

Lemma read_lines_rows (lines : list string) (rows : list (Z * Z * Z)) :
  Forall2 (fun line r => read_row py_int line = Some r) lines rows ->
  forall l0 l1 l2,
    read_lines py_int lines (l0, l1, l2) =
    Some (l0 ++ map (fun r => fst (fst r)) rows,
          l1 ++ map (fun r => snd (fst r)) rows,
          l2 ++ map snd rows).
Proof.
  induction 1 as [ | line [[a b] c] lines rows Hr _ IH]; intros l0 l1 l2;
    cbn [read_lines map].
  - rewrite !app_nil_r. reflexivity.
  - rewrite read_line_read_row, Hr. cbn [fst snd].
    rewrite IH, <- !app_assoc. reflexivity.
Qed.

Lemma read_lines_Some (lines : list string) :
  forall cols cols',
    read_lines py_int lines cols = Some cols' ->
    exists rows, Forall2 (fun line r => read_row py_int line = Some r) lines rows.
Proof.
  induction lines as [ | line lines IH]; intros cols cols'; cbn [read_lines].
  - intros _. exists []. constructor.
  - rewrite read_line_read_row.
    destruct (read_row py_int line) as [[[a b] c] | ] eqn:Er; [ | discriminate].
    destruct cols as [[l0 l1] l2]. intros H. destruct (IH _ _ H) as [rows Hrows].
    exists ((a, b, c) :: rows). constructor; assumption.
Qed.

Lemma read_lines_None (lines : list string) (line : string) :
  In line lines -> read_row py_int line = None ->
  forall cols, read_lines py_int lines cols = None.
Proof.
  induction lines as [ | l lines IH]; intros Hin Hr cols; [contradiction | ].
  cbn [read_lines]. destruct Hin as [-> | Hin].
  - rewrite read_line_read_row, Hr. reflexivity.
  - destruct (read_line py_int cols l); [apply IH; assumption | reflexivity].
Qed.

Lemma read_row_None (line : string) :
  length (split_on tab line) <> 3%nat
  \/ (exists u, In u (split_on tab line) /\ py_int u = None) ->
  read_row py_int line = None.
Proof.
  intros H. unfold read_row, read_line.
  destruct (split_on tab line) as [ | u0 [ | u1 [ | u2 [ | u3 us]]]]; try reflexivity.
  destruct H as [Hlen | (u & Hu & Hnone)]; [cbn in Hlen; congruence | ].
  destruct (py_int u0) eqn:E0; [ | reflexivity].
  destruct (py_int u1) eqn:E1; [ | reflexivity].
  destruct (py_int u2) eqn:E2; [ | reflexivity].
  cbn [In] in Hu. destruct Hu as [<- | [<- | [<- | []]]]; congruence.
Qed.

Lemma read_row_row_line (numeral : Z -> string) (r : Z * Z * Z) :
  plain_row py_int numeral r -> read_row py_int (row_line numeral r) = Some r.
Proof.
  destruct r as [[a b] c]. intros ((Ha & Hta & _) & (Hb & Htb & _) & (Hc & Htc & _)).
  cbn [fst snd] in *. unfold read_row, read_line, row_line.
  rewrite (split_on_app_sep tab _ _ Hta), (split_on_app_sep tab _ _ Htb),
    (split_on_free tab _ Htc).
  rewrite Ha, Hb, Hc. reflexivity.
Qed.

Lemma row_line_one_line (numeral : Z -> string) (r : Z * Z * Z) :
  plain_row py_int numeral r -> sep_free newline (row_line numeral r) = true.
Proof.
  destruct r as [[a b] c]. intros ((_ & _ & Ha) & (_ & _ & Hb) & (_ & _ & Hc)).
  cbn [fst snd] in *. unfold row_line.
  assert (Ht : forall s, sep_free newline (String tab s) = sep_free newline s)
    by reflexivity.
  rewrite sep_free_append, Ht, sep_free_append, Ht, Ha, Hb, Hc. reflexivity.
Qed.

(** What the reader returns: the three columns of the rows that it read, one
    row per line between the first and the last. *)
Lemma get_array_group_columns (content : string) (group_data : list (list Z)) :
  get_array_group py_int content = Some group_data ->
  exists rows,
    length rows = (length (split_on newline content) - 2)%nat
    /\ group_data = [map (fun r => fst (fst r)) rows;
                     map (fun r => snd (fst r)) rows; map snd rows].
Proof.
  unfold get_array_group. cbv zeta.
  destruct (read_lines py_int _ _) as [[[l0 l1] l2] | ] eqn:E; [ | discriminate].
  intros [= <-]. destruct (read_lines_Some _ _ _ E) as [rows Hrows].
  rewrite (read_lines_rows _ _ Hrows) in E. cbn [app] in E. injection E as <- <- <-.
  exists rows. split; [ | reflexivity].
  rewrite <- (Forall2_length Hrows). apply data_lines_length.
Qed.

(** The reader returns three lists of one length: the number of lines of the
    text, less the first and the last. *)
Theorem get_array_group_shape (content : string) (group_data : list (list Z)) :
  get_array_group py_int content = Some group_data ->
  exists lst_u0 lst_u1 lst_u2,
    group_data = [lst_u0; lst_u1; lst_u2]
    /\ length lst_u0 = (length (split_on newline content) - 2)%nat
    /\ length lst_u1 = length lst_u0 /\ length lst_u2 = length lst_u0.
Proof.
  intros H. destruct (get_array_group_columns _ _ H) as (rows & Hlen & ->).
  eexists _, _, _. split; [reflexivity | ].
  rewrite !length_map. auto.
Qed.

(** Reading back a file of rows of three numerals: the reader returns the
    three columns, in the order of the rows. The first line is skipped, and
    so is the text after the last line break, whatever they hold. *)
Theorem get_array_group_reads_rows (numeral : Z -> string) (header last : string)
    (rows : list (Z * Z * Z)) :
  Forall (plain_row py_int numeral) rows ->
  sep_free newline header = true -> sep_free newline last = true ->
  get_array_group py_int
    (text_of_lines (header :: map (row_line numeral) rows ++ [last]))
  = Some [map (fun r => fst (fst r)) rows; map (fun r => snd (fst r)) rows;
          map snd rows].
Proof.
  intros Hrows Hh Hl. unfold get_array_group. cbv zeta.
  rewrite split_on_text_of_lines.
  - rewrite data_lines_middle.
    rewrite (read_lines_rows (map (row_line numeral) rows) rows); [reflexivity | ].
    induction Hrows as [ | r rows Hr _ IH]; cbn [map]; constructor;
      [apply read_row_row_line; exact Hr | exact IH].
  - constructor; [exact Hh | ]. apply Forall_app. split.
    + apply Forall_map. revert Hrows. apply Forall_impl. intros r.
      apply row_line_one_line.
    + constructor; [exact Hl | constructor].
Qed.

(** A line between the first and the last that does not hold exactly three
    fields, or holds a field that is no integer, ends the reader with
    ValueError, whatever the other lines are. *)
Theorem get_array_group_malformed_row (content line : string) :
  In line (data_lines (split_on newline content)) ->
  length (split_on tab line) <> 3%nat
  \/ (exists u, In u (split_on tab line) /\ py_int u = None) ->
  get_array_group py_int content = None.
Proof.
  intros Hin Hbad. unfold get_array_group. cbv zeta.
  rewrite (read_lines_None _ _ Hin (read_row_None _ Hbad)). reflexivity.
Qed.
End ReaderProperties.

(** ** The coefficient of the group file *)

Lemma list_sum_In_le (x : nat) (l : list nat) : In x l -> (x <= list_sum l)%nat.
Proof.
  induction l as [ | y l IH]; [contradiction | ].
  change (list_sum (y :: l)) with (y + list_sum l)%nat.
  intros [-> | H]; [lia | specialize (IH H); lia].
Qed.

(** An item with two ratings or more makes the number of pairable values
    positive. *)
Lemma count_values_pairable_item {V : Type} (ps : list (item_id * V)) (it : item_id) :
  (2 <= length (ratings_of it ps))%nat ->
  (2 <= count_values (pairable (ratings_mapping ps)))%nat.
Proof.
  intros Hlen.
  assert (Hin : In it (first_keys ps)).
  { apply first_keys_In. unfold ratings_of in Hlen. rewrite length_map in Hlen.
    destruct (filter (fun p => item_eqb (fst p) it) ps) as [ | p l] eqn:Ef;
      [cbn in Hlen; lia | ].
    assert (Hp : In p (filter (fun p => item_eqb (fst p) it) ps))
      by (rewrite Ef; left; reflexivity).
    apply filter_In in Hp. destruct Hp as [Hp E]. apply item_eqb_eq in E. subst it.
    apply in_map. exact Hp. }
  assert (Hu : In (it, ratings_of it ps) (pairable (ratings_mapping ps))).
  { unfold pairable. apply filter_In. split.
    - unfold ratings_mapping.
      apply (in_map (fun it => (it, ratings_of it ps))). exact Hin.
    - cbn [snd]. apply Nat.ltb_lt. lia. }
  unfold count_values.
  apply (in_map (fun p => length (snd p))) in Hu. cbn [snd] in Hu.
  apply list_sum_In_le in Hu. lia.
Qed.

Lemma In_enumerate_ints (l : list Z) (p : item_id * raw) :
  In p (enumerate (map RInt l)) -> exists z, snd p = RInt z /\ In z l.
Proof.
  intros Hp. apply (in_map snd) in Hp. unfold enumerate in Hp.
  rewrite enumerate_from_snd in Hp. apply in_map_iff in Hp.
  destruct Hp as (z & Hz & Hin). exists z. split; [symmetry | ]; assumption.
Qed.

Lemma In_int_groups (group_data : list (list Z)) (p : item_id * raw) :
  In p (concat (map diter
                  (map (fun l => PositionalGroup (map RInt l)) group_data))) ->
  exists z, snd p = RInt z /\ In z (concat group_data).
Proof.
  rewrite map_map. intros Hp. apply in_concat in Hp. destruct Hp as (x & Hx & Hp).
  apply in_map_iff in Hx. destruct Hx as (l & <- & Hl). cbn [diter] in Hp.
  destruct (In_enumerate_ints l p Hp) as (z & Hz & Hin).
  exists z. split; [exact Hz | ]. apply in_concat. exists l. split; assumption.
Qed.

(** No rating of the group file is a missing value. *)
Lemma retained_int_groups (group_data : list (list Z)) :
  retained raw_eqb [RMasked]
    (map (fun l => PositionalGroup (map RInt l)) group_data)
  = concat (map diter (map (fun l => PositionalGroup (map RInt l)) group_data)).
Proof.
  unfold retained. apply forallb_filter_id, forallb_forall. intros p Hp.
  destruct (In_int_groups group_data p Hp) as (z & Hz & _). rewrite Hz. reflexivity.
Qed.

Lemma count_first_item (x y : raw) (xs ys : list raw) (rest : list (item_id * raw)) :
  (2 <= length (filter (fun k => item_eqb k (IdInt 0))
                  (map fst (enumerate (x :: xs) ++ enumerate (y :: ys) ++ rest))))%nat.
Proof.
  unfold enumerate. cbn [enumerate_from map app fst filter].
  rewrite item_eqb_refl. cbn [length].
  rewrite map_app, filter_app, length_app. cbn [map fst filter].
  rewrite item_eqb_refl. cbn [length]. lia.
Qed.

(** The run on the columns of one row or more. *)
Lemma group_alpha_rows (r : Z * Z * Z) (rows : list (Z * Z * Z)) :
  let group_data := [map (fun r => fst (fst r)) (r :: rows);
                     map (fun r => snd (fst r)) (r :: rows); map snd (r :: rows)] in
  (group_alpha group_data = Err OverflowError
   /\ exists z, In z (concat group_data) /\ is_infinity (float_of_Z z) = true)
  \/ exists a, group_alpha group_data = Ok a
               /\ (is_nan a = true \/ SFleb a (one : float) = true).
Proof.
  intros group_data. unfold group_alpha.
  set (data := map (fun l => PositionalGroup (map RInt l)) group_data).
  destruct (collect_units raw_eqb float_of_int (maskitems RMasked true None) data)
    as [units | e] eqn:Ec.
  - right.
    assert (Hunits : pairable_units raw_eqb RMasked true data float_of_int None
                     = Ok (pairable units, count_values (pairable units))).
    { unfold pairable_units. cbv zeta. rewrite Ec. cbn [bind].
      destruct (count_values (pairable units) =? 0)%nat eqn:En; [ | reflexivity].
      exfalso. apply Nat.eqb_eq in En.
      rewrite collect_units_group_ratings in Ec.
      destruct (map_result (convert_rating float_of_int)
                  (retained raw_eqb (maskitems RMasked true None) data))
        as [ps | ] eqn:Eps; cbn [bind] in Ec; [ | discriminate].
      injection Ec as <-. rewrite group_ratings_mapping in En.
      pose proof (count_values_pairable_item ps (IdInt 0)) as Hc.
      rewrite ratings_of_length, (convert_rating_keys _ _ _ Eps) in Hc.
      change (maskitems RMasked true None) with [RMasked] in Hc.
      unfold data in Hc. rewrite retained_int_groups in Hc.
      destruct r as [[a b] c].
      specialize (Hc (count_first_item (RInt a) (RInt b) _ _ _)). lia. }
    destruct (krippendorff_alpha_result _ interval_metric _ _ _ _ _ false _ _ _ _ Hunits)
      as [(c & Hc) | (Hnp & _)]; [ | discriminate Hnp].
    exists c. split; [exact Hc | ].
    unfold krippendorff_alpha in Hc. rewrite Hunits in Hc. cbn [bind] in Hc.
    apply coefficient_le_one in Hc; [exact Hc | right; left; reflexivity | | ].
    + apply pairable_all_pairable.
    + apply (pairable_units_all_pairable _ _ _ _ _ _ _ _ _ _ Hunits).
  - left.
    assert (He : e = OverflowError
                 /\ exists z, In z (concat group_data)
                              /\ is_infinity (float_of_Z z) = true).
    { rewrite collect_units_group_ratings in Ec.
      destruct (map_result (convert_rating float_of_int)
                  (retained raw_eqb (maskitems RMasked true None) data))
        as [ps | e'] eqn:Eps; cbn [bind] in Ec; [discriminate | ].
      injection Ec as ->. apply map_result_Err_inv in Eps.
      destruct Eps as (p & Hp & Hconv).
      change (maskitems RMasked true None) with [RMasked] in Hp.
      unfold data in Hp. rewrite retained_int_groups in Hp.
      destruct (In_int_groups group_data p Hp) as (z & Hz & Hin).
      unfold convert_rating in Hconv. rewrite Hz in Hconv. cbn [float_of_int] in Hconv.
      destruct (is_infinity (float_of_Z z)) eqn:Ez; cbn [bind] in Hconv;
        [ | discriminate].
      injection Hconv as <-. split; [reflexivity | ]. exists z. split; assumption. }
    destruct He as [-> He]. split; [ | exact He].
    unfold krippendorff_alpha, pairable_units. cbv zeta. rewrite Ec. reflexivity.
Qed.

(** The coefficient of the group file, line 191 on what the reader returned:
    with no row between the first line and the last, the run ends with the
    insufficient-data error; with one row or more it returns a coefficient
    that is at most 1.0 or NaN, unless an integer of the file is too large
    for a float, which ends it with OverflowError. *)
Theorem group_alpha_of_file (py_int : string -> option Z) (content : string)
    (group_data : list (list Z)) :
  get_array_group py_int content = Some group_data ->
  ((length (split_on newline content) <= 2)%nat ->
   group_alpha group_data = Err NoItemsToCompare)
  /\ ((2 < length (split_on newline content))%nat ->
      (group_alpha group_data = Err OverflowError
       /\ exists z, In z (concat group_data) /\ is_infinity (float_of_Z z) = true)
      \/ exists a, group_alpha group_data = Ok a
                   /\ (is_nan a = true \/ SFleb a (one : float) = true)).
Proof.
  intros H. destruct (get_array_group_columns _ _ _ H) as (rows & Hlen & ->).
  split; intros Hk.
  - destruct rows; [reflexivity | cbn [length] in Hlen; lia].
  - destruct rows as [ | r rows]; [cbn [length] in Hlen; lia | ].
    apply group_alpha_rows.
Qed.

(** ** Items that are not pairable *)

Section Unpairable.
Variables Raw V : Type.
Variable rawb : Raw -> Raw -> bool.
Variable convert_items : Raw -> result V.
Variable it : item_id.

Lemma retained_without_item (ms : list Raw) (data : list (group Raw)) :
  retained rawb ms (map (without_item it) data)
  = filter (fun p => negb (item_eqb (fst p) it)) (retained rawb ms data).
Proof.
  unfold retained. induction data as [ | d data IH]; cbn [map concat]; [reflexivity | ].
  rewrite !filter_app, IH. f_equal. cbn [without_item diter].
  generalize (diter d) as l. intros l.
  induction l as [ | p l IHl]; cbn [filter]; [reflexivity | ].
  destruct (negb (item_eqb (fst p) it)) eqn:E1;
    destruct (negb (is_in rawb (snd p) ms)) eqn:E2; cbn [filter];
    rewrite ?E1, ?E2, IHl; reflexivity.
Qed.

(** Converting the ratings of the other items gives the conversions without
    those of [it], when [it]'s own ratings convert. *)
Lemma map_result_without_item (rs : list (item_id * Raw)) :
  (forall p, In p rs -> fst p = it -> exists v, convert_items (snd p) = Ok v) ->
  map_result (convert_rating convert_items)
    (filter (fun p => negb (item_eqb (fst p) it)) rs)
  = (ps <- map_result (convert_rating convert_items) rs ;;
     Ok (filter (fun p => negb (item_eqb (fst p) it)) ps)).
Proof.
  induction rs as [ | r rs IH]; intros Hc; cbn [filter map_result]; [reflexivity | ].
  assert (Hc' : forall p, In p rs -> fst p = it ->
                          exists v, convert_items (snd p) = Ok v)
    by (intros p Hp; apply Hc; right; exact Hp).
  specialize (IH Hc').
  destruct (item_eqb (fst r) it) eqn:E; cbn [negb].
  - pose proof E as E'. apply item_eqb_eq in E'.
    destruct (Hc r (or_introl eq_refl) E') as [v Hv].
    unfold convert_rating at 2. rewrite Hv. cbn [bind]. rewrite IH.
    destruct (map_result _ rs) as [ps | e]; cbn [bind]; [ | reflexivity].
    cbn [filter fst]. rewrite E. reflexivity.
  - cbn [map_result]. unfold convert_rating at 1 3.
    destruct (convert_items (snd r)) as [v | e]; cbn [bind]; [ | reflexivity].
    rewrite IH. destruct (map_result _ rs) as [ps | e]; cbn [bind]; [ | reflexivity].
    cbn [filter fst]. rewrite E. reflexivity.
Qed.

Lemma existsb_filter_neq (k : item_id) (ks : list item_id) :
  item_eqb k it = false ->
  existsb (item_eqb k) (filter (fun k' => negb (item_eqb k' it)) ks)
  = existsb (item_eqb k) ks.
Proof.
  intros Hk. induction ks as [ | k' ks IH]; cbn [filter existsb]; [reflexivity | ].
  destruct (item_eqb k' it) eqn:E; cbn [negb existsb].
  - apply item_eqb_eq in E. subst k'. rewrite Hk. cbn [orb]. exact IH.
  - rewrite IH. reflexivity.
Qed.

Lemma first_keys_without_item (ps : list (item_id * V)) :
  first_keys (filter (fun p => negb (item_eqb (fst p) it)) ps)
  = filter (fun k => negb (item_eqb k it)) (first_keys ps).
Proof.
  induction ps as [ | p ps IH] using rev_ind; [reflexivity | ].
  rewrite filter_app, first_keys_snoc. cbn [filter].
  destruct (item_eqb (fst p) it) eqn:E; cbn [negb].
  - rewrite app_nil_r, IH.
    destruct (existsb (item_eqb (fst p)) (first_keys ps)); [reflexivity | ].
    rewrite filter_app. cbn [filter]. rewrite E. cbn [negb].
    rewrite app_nil_r. reflexivity.
  - rewrite first_keys_snoc, IH, (existsb_filter_neq _ _ E).
    destruct (existsb (item_eqb (fst p)) (first_keys ps)); [reflexivity | ].
    rewrite filter_app. cbn [filter]. rewrite E. reflexivity.
Qed.

Lemma ratings_of_without_item (k : item_id) (ps : list (item_id * V)) :
  item_eqb k it = false ->
  ratings_of k (filter (fun p => negb (item_eqb (fst p) it)) ps) = ratings_of k ps.
Proof.
  intros Hk. unfold ratings_of. f_equal.
  induction ps as [ | p ps IH]; cbn [filter]; [reflexivity | ].
  destruct (item_eqb (fst p) it) eqn:E; cbn [negb filter].
  - apply item_eqb_eq in E.
    assert (Hp : item_eqb (fst p) k = false).
    { apply item_eqb_neq. intros Heq. rewrite E in Heq. subst k.
      rewrite item_eqb_refl in Hk. discriminate. }
    rewrite Hp. exact IH.
  - destruct (item_eqb (fst p) k); rewrite IH; reflexivity.
Qed.

(** Line 86 drops an item with fewer than two ratings: the pairable units
    are those of the ratings of the other items. *)
Lemma pairable_without_item (ps : list (item_id * V)) :
  (length (ratings_of it ps) <= 1)%nat ->
  pairable (ratings_mapping (filter (fun p => negb (item_eqb (fst p) it)) ps))
  = pairable (ratings_mapping ps).
Proof.
  intros Hlen. unfold ratings_mapping, pairable. rewrite first_keys_without_item.
  generalize (first_keys ps) as ks. intros ks.
  induction ks as [ | k ks IH]; cbn [filter map]; [reflexivity | ].
  destruct (item_eqb k it) eqn:E; cbn [negb].
  - apply item_eqb_eq in E. subst k. cbn [filter snd].
    replace (1 <? length (ratings_of it ps))%nat with false
      by (symmetry; apply Nat.ltb_ge; exact Hlen).
    exact IH.
  - cbn [map filter snd]. rewrite (ratings_of_without_item _ _ E), IH. reflexivity.
Qed.

Lemma filter_keys_length (rs : list (item_id * Raw)) :
  length (filter (fun k => item_eqb k it) (map fst rs))
  = length (filter (fun p => item_eqb (fst p) it) rs).
Proof.
  induction rs as [ | r rs IH]; cbn [map filter]; [reflexivity | ].
  destruct (item_eqb (fst r) it); cbn [length]; rewrite IH; reflexivity.
Qed.
End Unpairable.

Section UnpairableRun.
Context {F : Type} `{Numeric F}.
Variables V Raw : Type.
Variable metric : metric_fn V F.
Variable rawb : Raw -> Raw -> bool.
Variable masked_singleton : Raw.
Variable np : bool.

(** An item that fewer than two coders rate does not count: without its
    ratings the run gives the same result, as long as the conversion of
    those ratings does not raise. *)
Theorem unpairable_item_ignored (data : list (group Raw)) (it : item_id)
    (force_vecmath : bool) (convert_items : Raw -> result V)
    (missing_items : option (list Raw)) :
  (length (filter (fun p => item_eqb (fst p) it)
             (retained rawb (maskitems masked_singleton np missing_items) data))
   <= 1)%nat ->
  (forall p,
     In p (retained rawb (maskitems masked_singleton np missing_items) data) ->
     fst p = it -> exists v, convert_items (snd p) = Ok v) ->
  krippendorff_alpha metric rawb masked_singleton np (map (without_item it) data)
    force_vecmath convert_items missing_items
  = krippendorff_alpha metric rawb masked_singleton np data force_vecmath
      convert_items missing_items.
Proof.
  intros Hlen Hconv. unfold krippendorff_alpha, pairable_units. cbv zeta.
  rewrite !collect_units_group_ratings, retained_without_item,
    (map_result_without_item _ _ _ _ _ Hconv).
  destruct (map_result (convert_rating convert_items)
              (retained rawb (maskitems masked_singleton np missing_items) data))
    as [ps | e] eqn:Eps; cbn [bind]; [ | reflexivity].
  rewrite !group_ratings_mapping, pairable_without_item; [reflexivity | ].
  rewrite ratings_of_length, (convert_rating_keys _ _ _ Eps), filter_keys_length.
  exact Hlen.
Qed.
End UnpairableRun.

(** ** The ratio metric: what a division by zero does to a run *)



Section RatioRun.
Variable metric : metric_fn float float.
Hypothesis metric_scalar : forall a b : float,
  scalar metric a b = scalar ratio_metric a b.
Hypothesis metric_vector : forall a b : float,
  vector metric a b = vector ratio_metric a b.







End RatioRun.


(** Coders [1, -1] and [1, -1]: the ratings 1 and -1 have the sum zero, but
    the observed disagreement is zero, so that the run returns 1.0 at line
    105 and the metric is never called on that pair; the scalar path raises
    nothing. *)
Lemma zero_sum_pair_not_evaluated :
  observed_of false ratio_metric two_coders_agree_opposite None = Ok zero
  /\ alpha false ratio_metric two_coders_agree_opposite None = Ok one.
Proof.
  split; vm_compute; reflexivity.
Qed.




(** ** The further properties on the examples *)

(** The mapping built from the four coders. *)
Lemma collect_units_invariants_witness :
  exists units,
    collect_units raw_eqb convert_float (maskitems RMasked true star) four_coders
      = Ok units
    /\ NoDup (map fst units)
    /\ Forall (fun p => snd p <> []) units
    /\ count_values units
       = length (retained raw_eqb (maskitems RMasked true star) four_coders).
Proof.
  eexists. split; [vm_compute; reflexivity | ].
  apply (collect_units_invariants raw float raw_eqb convert_float
           (maskitems RMasked true star) four_coders).
  vm_compute. reflexivity.
Defined.

(** No item of the four coders has more than four ratings. *)
Lemma ratings_per_item_bound_witness :
  exists units,
    collect_units raw_eqb convert_float (maskitems RMasked true star) four_coders
      = Ok units
    /\ Forall (fun p => (length (snd p) <= length four_coders)%nat) units.
Proof.
  eexists. split; [vm_compute; reflexivity | ].
  apply (ratings_per_item_bound raw float raw_eqb convert_float
           (maskitems RMasked true star) four_coders).
  - unfold four_coders.
    repeat (apply Forall_cons;
              [unfold distinct_keys; cbn [diter]; apply enumerate_from_NoDup | ]).
    apply Forall_nil.
  - vm_compute. reflexivity.
Defined.

(** The dataset whose every rating is the marker. *)
Lemma all_missing_no_items_witness :
  krippendorff_alpha interval_metric raw_eqb RMasked true all_missing false
    convert_float star = Err NoItemsToCompare.
Proof.
  apply (all_missing_no_items float raw interval_metric raw_eqb RMasked true
           all_missing false convert_float star).
  unfold all_missing, all_missing_group. repeat constructor.
Defined.

(** One coder alone. *)
Lemma fewer_than_two_coders_no_items_witness :
  krippendorff_alpha interval_metric raw_eqb RMasked true one_coder false
    convert_float None = Err NoItemsToCompare.
Proof.
  apply (fewer_than_two_coders_no_items float raw interval_metric raw_eqb RMasked
           true one_coder false convert_float None).
  - cbn. lia.
  - unfold one_coder.
    repeat (apply Forall_cons;
              [unfold distinct_keys; cbn [diter]; apply enumerate_from_NoDup | ]).
    apply Forall_nil.
  - intros q Hq. vm_compute in Hq.
    destruct Hq as [<- | [<- | []]]; eexists; reflexivity.
Defined.

(** The four coders and a fifth one without ratings. *)
Lemma coder_without_ratings_ignored_witness :
  krippendorff_alpha interval_metric raw_eqb RMasked true
    (four_coders ++ silent_coder :: two_coders_zero) false convert_float star
  = krippendorff_alpha interval_metric raw_eqb RMasked true
      (four_coders ++ two_coders_zero) false convert_float star.
Proof.
  apply (coder_without_ratings_ignored float raw interval_metric raw_eqb RMasked
           true four_coders two_coders_zero silent_coder false convert_float star).
  unfold silent_coder, all_missing_group. repeat constructor.
Defined.

(** The disagreements of the four coders. *)
Lemma disagreements_never_negative_witness :
  exists units n,
    pairable_units raw_eqb RMasked true four_coders convert_float star
      = Ok (units, n)
    /\ (forall Do, observed_disagreement interval_metric true units n = Ok Do ->
                   nonneg_or_nan Do = true)
    /\ (forall De, expected_disagreement interval_metric true units n = Ok De ->
                   nonneg_or_nan De = true).
Proof.
  eexists. eexists. split; [vm_compute; reflexivity | ].
  apply (disagreements_never_negative raw raw_eqb RMasked true interval_metric
           four_coders convert_float star).
  - right. left. reflexivity.
  - vm_compute. reflexivity.
Defined.

(** The coefficient of the four coders. *)
Lemma alpha_at_most_one_witness :
  exists a,
    alpha true interval_metric four_coders star = Ok a
    /\ (is_nan a = true \/ SFleb a (one : float) = true).
Proof.
  eexists. split; [vm_compute; reflexivity | ].
  apply (alpha_at_most_one raw raw_eqb RMasked true interval_metric four_coders
           false convert_float star).
  - right. left. reflexivity.
  - vm_compute. reflexivity.
Defined.

(** The example file: three lists of three integers. *)
Lemma get_array_group_shape_witness :
  exists lst_u0 lst_u1 lst_u2,
    [[1; 3; 5]; [2; 3; 4]; [1; 4; 4]] = [lst_u0; lst_u1; lst_u2]
    /\ length lst_u0 = (length (split_on newline group_file) - 2)%nat
    /\ length lst_u1 = length lst_u0 /\ length lst_u2 = length lst_u0.
Proof.
  apply (get_array_group_shape decimal_int group_file).
  vm_compute. reflexivity.
Defined.

(** The example file read back. *)
Lemma get_array_group_reads_rows_witness :
  get_array_group decimal_int group_file
  = Some [[1; 3; 5]; [2; 3; 4]; [1; 4; 4]].
Proof.
  apply (get_array_group_reads_rows decimal_int decimal_numeral _ EmptyString
           group_rows).
  - unfold group_rows, plain_row, plain_numeral. repeat constructor.
  - reflexivity.
  - reflexivity.
Defined.

(** The file whose row holds two fields. *)
Lemma get_array_group_malformed_row_witness :
  get_array_group decimal_int short_row_file = None.
Proof.
  apply (get_array_group_malformed_row decimal_int short_row_file short_row).
  - vm_compute. left. reflexivity.
  - left. vm_compute. discriminate.
Defined.

(** The coefficient of the example file. *)
Lemma group_alpha_of_file_witness :
  (group_alpha [[1; 3; 5]; [2; 3; 4]; [1; 4; 4]] = Err OverflowError
   /\ exists z, In z (concat [[1; 3; 5]; [2; 3; 4]; [1; 4; 4]])
                /\ is_infinity (float_of_Z z) = true)
  \/ exists a, group_alpha [[1; 3; 5]; [2; 3; 4]; [1; 4; 4]] = Ok a
               /\ (is_nan a = true \/ SFleb a (one : float) = true).
Proof.
  apply (group_alpha_of_file decimal_int group_file).
  - vm_compute. reflexivity.
  - vm_compute. lia.
Defined.

(** Item C of the two coders, rated once. *)
Lemma unpairable_item_ignored_witness :
  krippendorff_alpha interval_metric raw_eqb RMasked true
    (map (without_item (IdStr "C")) two_coders_single_C) false convert_float None
  = krippendorff_alpha interval_metric raw_eqb RMasked true two_coders_single_C
      false convert_float None.
Proof.
  apply (unpairable_item_ignored float raw interval_metric raw_eqb RMasked true
           two_coders_single_C (IdStr "C") false convert_float None).
  - vm_compute. lia.
  - intros p Hp _. vm_compute in Hp.
    destruct Hp as [<- | [<- | [<- | [<- | [<- | []]]]]]; eexists; reflexivity.
Defined.
